(** * Transaction replicator of immudb (pkg/replication, [TxReplicator])

    A shallow embedding of the follower-side replicator: [NewTxReplicator]'s
    state, [handleError], [Start], [connect], [disconnect], [fetchNextTx],
    [Stop] and the two goroutine bodies spawned by [Start].

    The replicator is stateful code talking to collaborators (the local
    database, the remote client, the logger, the Go runtime).  It is
    modelled in a small state monad over a [world]:
    - the [TxReplicator] struct, field by field;
    - the part of the Go runtime the code touches: which cancellable
      contexts have been cancelled, the handoff channel's buffer, the mutex;
    - a chronological [trace] of every call made to a collaborator.
    What the collaborators answer is an input of each function (a script
    of answers), so every theorem holds for all behaviours of the
    collaborators. *)

From Stdlib Require Import ZArith String Ascii.
From stdpp Require Import base gmap strings list.

Local Open Scope Z_scope.

(** ** Go values *)

Abbreviation bytes := (list Byte.byte).

(** [uint64] arithmetic wraps around. *)
Definition u64 (x : Z) : Z := x mod 2 ^ 64.

(** [int] arithmetic (64-bit platforms) wraps around, two's complement. *)
Definition int_wrap (x : Z) : Z := (x + 2 ^ 63) mod 2 ^ 64 - 2 ^ 63.

(** [strings.Contains]. *)
Fixpoint strings_Contains (s substr : string) : bool :=
  String.prefix substr s ||
  match s with
  | EmptyString => false
  | String _ s' => strings_Contains s' substr
  end.

(** Error values.  The package-level sentinels are compared by identity
    ([err == ErrAlreadyStopped]); [io_EOF] is [io.EOF]; every other error
    value, whether returned by a collaborator or built by [fmt.Errorf], is
    an [errors_New] carrying its message. *)
Inductive error :=
| ErrIllegalArguments
| ErrAlreadyRunning
| ErrAlreadyStopped
| ErrFollowerDivergedFromMaster
| io_EOF
| errors_New (msg : string).

#[global] Instance error_eq_dec : EqDecision error.
Proof. solve_decision. Defined.

(** [err.Error()]. *)
Definition Error (e : error) : string :=
  match e with
  | ErrIllegalArguments => "illegal arguments"
  | ErrAlreadyRunning => "already running"
  | ErrAlreadyStopped => "already stopped"
  | ErrFollowerDivergedFromMaster => "follower diverged from master"
  | io_EOF => "EOF"
  | errors_New msg => msg
  end.

(** A Go [(value, error)] pair returned by a collaborator: the value is
    only looked at when the error is nil. *)
Inductive result (A : Type) :=
| Ok (a : A)
| Err (e : error).
Arguments Ok {A} a.
Arguments Err {A} e.

(** [binary.BigEndian.Uint64]: panics (index out of range) on fewer than
    eight bytes, reads the first eight otherwise. *)
Definition byte_val (b : Byte.byte) : Z := Z.of_N (Byte.to_N b).

Definition BigEndian_Uint64 (b : bytes) : option Z :=
  match b with
  | b0 :: b1 :: b2 :: b3 :: b4 :: b5 :: b6 :: b7 :: _ =>
      Some (Z.lor (byte_val b7)
           (Z.lor (Z.shiftl (byte_val b6) 8)
           (Z.lor (Z.shiftl (byte_val b5) 16)
           (Z.lor (Z.shiftl (byte_val b4) 24)
           (Z.lor (Z.shiftl (byte_val b3) 32)
           (Z.lor (Z.shiftl (byte_val b2) 40)
           (Z.lor (Z.shiftl (byte_val b1) 48)
                  (Z.shiftl (byte_val b0) 56))))))))
  | _ => None
  end.

(** [var a [sha256.Size]byte; copy(a[:], src)]: the first 32 bytes of
    [src], zero-filled when [src] is shorter. *)
Definition sha256_Size : nat := 32.

Definition copy_alh (src : bytes) : bytes :=
  take sha256_Size (src ++ replicate sha256_Size Byte.x00).

(** gRPC metadata: [metadata.MD] is [map[string][]string]; the values of
    the [-bin] keys are raw bytes. *)
Abbreviation MD := (gmap string (list bytes)).

Definition md_Get (md : MD) (k : string) : list bytes := default [] (md !! k).

(** Contexts.  [ctx_nil] is the nil interface value of a field never
    assigned; [WithCancel id] is the [id]-th context made by
    [context.WithCancel(context.Background())]; [NewOutgoingContext] is
    [metadata.NewOutgoingContext(parent, metadata.Pairs(k, v))]. *)
Inductive context :=
| ctx_nil
| WithCancel (id : nat)
| NewOutgoingContext (parent : context) (k v : string).

#[global] Instance context_eq_dec : EqDecision context.
Proof. solve_decision. Defined.

(** The cancellable context a context descends from. *)
Fixpoint ctx_root (c : context) : option nat :=
  match c with
  | ctx_nil => None
  | WithCancel id => Some id
  | NewOutgoingContext p _ _ => ctx_root p
  end.

(** The buffered channel [prefetchTxBuffer]. *)
Record chan := {
  buf : list bytes;
  cap : nat;
  closed : bool;
}.

Definition chan_with_buf (b : list bytes) (c : chan) : chan :=
  {| buf := b; cap := cap c; closed := closed c |}.

Definition chan_close (c : chan) : chan :=
  {| buf := buf c; cap := cap c; closed := true |}.

(** ** Collaborators' data *)

(** [schema.ImmutableState], the fields [fetchNextTx] reads. *)
Record ImmutableState := {
  TxId : Z;
  TxHash : bytes;
  PrecommittedTxId : Z;
  PrecommittedTxHash : bytes;
}.

Record FollowerState := {
  UUID : string;
  CommittedTxID : Z;
  CommittedAlh : bytes;
  PrecommittedTxID : Z;
  PrecommittedAlh : bytes;
}.

Record ExportTxRequest := {
  Tx : Z;
  ReqFollowerState : option FollowerState;
  AllowPreCommitted : bool;
}.

(** What a successful [ExportTx] call hands back: the result of
    [ReadFully] on the chunk stream and the stream's trailer. *)
Record ExportTxStream := {
  ReadFully_etx : bytes;
  ReadFully_err : option error;
  Trailer : MD;
}.

(** Modelled from the spec: the [Options] type is declared outside the
    files at hand; these are the options of the configuration surface
    (section 6) that the replicator reads. *)
Record Options := {
  masterDatabase : string;
  masterAddress : string;
  masterPort : Z;
  followerUsername : string;
  followerPassword : string;
  prefetchTxBufferSize : nat;
  replicationCommitConcurrency : Z;
  opt_allowTxDiscarding : bool;
  opt_delayer : Z -> Z;
}.

(** A client handle returned by [client.NewImmuClient]. *)
Abbreviation ImmuClient := nat.

(** ** The replicator struct *)

Record TxReplicator := {
  uuid : string;
  opts : Options;
  masterDB : string;
  mainContext : context;
  cancelFunc : option nat;        (* the context id it cancels; None is nil *)
  client : option ImmuClient;     (* None is nil *)
  clientContext : context;
  lastTx : Z;
  prefetchTxBuffer : chan;
  replicationConcurrency : Z;
  allowTxDiscarding : bool;
  delayer : Z -> Z;               (* Delayer.DelayAfter *)
  consecutiveFailures : Z;
  running : bool;
  mutex : bool;                   (* true while locked *)
}.

Definition set_mainContext (c : context) (f : option nat) (t : TxReplicator) :=
  {| uuid := uuid t; opts := opts t; masterDB := masterDB t;
     mainContext := c; cancelFunc := f;
     client := client t; clientContext := clientContext t; lastTx := lastTx t;
     prefetchTxBuffer := prefetchTxBuffer t;
     replicationConcurrency := replicationConcurrency t;
     allowTxDiscarding := allowTxDiscarding t; delayer := delayer t;
     consecutiveFailures := consecutiveFailures t; running := running t;
     mutex := mutex t |}.

Definition set_client (c : option ImmuClient) (t : TxReplicator) :=
  {| uuid := uuid t; opts := opts t; masterDB := masterDB t;
     mainContext := mainContext t; cancelFunc := cancelFunc t;
     client := c; clientContext := clientContext t; lastTx := lastTx t;
     prefetchTxBuffer := prefetchTxBuffer t;
     replicationConcurrency := replicationConcurrency t;
     allowTxDiscarding := allowTxDiscarding t; delayer := delayer t;
     consecutiveFailures := consecutiveFailures t; running := running t;
     mutex := mutex t |}.

Definition set_clientContext (c : context) (t : TxReplicator) :=
  {| uuid := uuid t; opts := opts t; masterDB := masterDB t;
     mainContext := mainContext t; cancelFunc := cancelFunc t;
     client := client t; clientContext := c; lastTx := lastTx t;
     prefetchTxBuffer := prefetchTxBuffer t;
     replicationConcurrency := replicationConcurrency t;
     allowTxDiscarding := allowTxDiscarding t; delayer := delayer t;
     consecutiveFailures := consecutiveFailures t; running := running t;
     mutex := mutex t |}.

Definition set_lastTx (n : Z) (t : TxReplicator) :=
  {| uuid := uuid t; opts := opts t; masterDB := masterDB t;
     mainContext := mainContext t; cancelFunc := cancelFunc t;
     client := client t; clientContext := clientContext t; lastTx := n;
     prefetchTxBuffer := prefetchTxBuffer t;
     replicationConcurrency := replicationConcurrency t;
     allowTxDiscarding := allowTxDiscarding t; delayer := delayer t;
     consecutiveFailures := consecutiveFailures t; running := running t;
     mutex := mutex t |}.

Definition set_prefetchTxBuffer (c : chan) (t : TxReplicator) :=
  {| uuid := uuid t; opts := opts t; masterDB := masterDB t;
     mainContext := mainContext t; cancelFunc := cancelFunc t;
     client := client t; clientContext := clientContext t; lastTx := lastTx t;
     prefetchTxBuffer := c;
     replicationConcurrency := replicationConcurrency t;
     allowTxDiscarding := allowTxDiscarding t; delayer := delayer t;
     consecutiveFailures := consecutiveFailures t; running := running t;
     mutex := mutex t |}.

Definition set_consecutiveFailures (n : Z) (t : TxReplicator) :=
  {| uuid := uuid t; opts := opts t; masterDB := masterDB t;
     mainContext := mainContext t; cancelFunc := cancelFunc t;
     client := client t; clientContext := clientContext t; lastTx := lastTx t;
     prefetchTxBuffer := prefetchTxBuffer t;
     replicationConcurrency := replicationConcurrency t;
     allowTxDiscarding := allowTxDiscarding t; delayer := delayer t;
     consecutiveFailures := n; running := running t;
     mutex := mutex t |}.

Definition set_running (b : bool) (t : TxReplicator) :=
  {| uuid := uuid t; opts := opts t; masterDB := masterDB t;
     mainContext := mainContext t; cancelFunc := cancelFunc t;
     client := client t; clientContext := clientContext t; lastTx := lastTx t;
     prefetchTxBuffer := prefetchTxBuffer t;
     replicationConcurrency := replicationConcurrency t;
     allowTxDiscarding := allowTxDiscarding t; delayer := delayer t;
     consecutiveFailures := consecutiveFailures t; running := b;
     mutex := mutex t |}.

Definition set_mutex (b : bool) (t : TxReplicator) :=
  {| uuid := uuid t; opts := opts t; masterDB := masterDB t;
     mainContext := mainContext t; cancelFunc := cancelFunc t;
     client := client t; clientContext := clientContext t; lastTx := lastTx t;
     prefetchTxBuffer := prefetchTxBuffer t;
     replicationConcurrency := replicationConcurrency t;
     allowTxDiscarding := allowTxDiscarding t; delayer := delayer t;
     consecutiveFailures := consecutiveFailures t; running := running t;
     mutex := b |}.

(** ** Calls to collaborators, as they appear in the trace *)

Inductive goroutine := Fetcher | Applier.

Inductive event :=
| Infof (format : string)
| Errorf (format : string)
| NewImmuClient (address : string) (port : Z)
| Login (c : ImmuClient) (ctx : context) (user password : string)
| UseDatabase (c : ImmuClient) (ctx : context) (db : string)
| ExportTx (c : ImmuClient) (ctx : context) (req : ExportTxRequest)
| Logout (c : ImmuClient) (ctx : context)
| Disconnect (c : ImmuClient)
| CurrentState
| DiscardPrecommittedTxsSince (txID : Z)
| AllowCommitUpto (txID : Z) (alh : bytes)
| ReplicateTx (etx : bytes)
| NewTimer (d : Z)
| TimerStop
| Cancel (id : nat)
| ChanSend (etx : bytes)
| ChanClose
| Go (g : goroutine).

(** ** The world and the monad *)

Record world := {
  txr : TxReplicator;
  cancelled : gset nat;     (* ids of the contexts cancelled so far *)
  next_ctx : nat;           (* id of the next context WithCancel makes *)
  trace : list event;
}.

(** Where a goroutine is blocked when it cannot go on by itself. *)
Inductive wait :=
| WaitLock                (* txr.mutex.Lock() *)
| WaitSend (etx : bytes)  (* txr.prefetchTxBuffer <- etx *)
| WaitRecv.               (* range txr.prefetchTxBuffer *)

(** A run either returns, panics, parks the goroutine on a blocking
    operation that only another goroutine can release, or uses up the
    script of collaborator answers it was given ([More]). *)
Inductive outcome (A : Type) :=
| Ret (a : A) (w : world)
| Panic (msg : string) (w : world)
| Parked (p : wait) (w : world)
| More (w : world).
Arguments Ret {A} a w.
Arguments Panic {A} msg w.
Arguments Parked {A} p w.
Arguments More {A} w.

Definition M (A : Type) : Type := world -> outcome A.

Definition ret {A} (a : A) : M A := fun w => Ret a w.

Definition bind {A B} (m : M A) (k : A -> M B) : M B :=
  fun w =>
    match m w with
    | Ret a w' => k a w'
    | Panic msg w' => Panic msg w'
    | Parked p w' => Parked p w'
    | More w' => More w'
    end.

Declare Scope go_scope.
Delimit Scope go_scope with go.
Notation "'let*' x ':=' m 'in' k" := (bind m (fun x => k))
  (at level 10, x name, m at level 100, k at level 200) : go_scope.
Notation "m ;; k" := (bind m (fun _ => k))
  (at level 100, k at level 200, right associativity) : go_scope.
Local Open Scope go_scope.

Definition panic {A} (msg : string) : M A := fun w => Panic msg w.

Definition get_txr : M TxReplicator := fun w => Ret (txr w) w.

Definition modify_txr (f : TxReplicator -> TxReplicator) : M unit :=
  fun w => Ret tt {| txr := f (txr w); cancelled := cancelled w;
                     next_ctx := next_ctx w; trace := trace w |}.

(** Record a call to a collaborator. *)
Definition call (e : event) : M unit :=
  fun w => Ret tt {| txr := txr w; cancelled := cancelled w;
                     next_ctx := next_ctx w; trace := trace w ++ [e] |}.

(** [ctx.Done()] is closed once the context's root has been cancelled. *)
Definition ctx_done (cs : gset nat) (c : context) : bool :=
  match ctx_root c with
  | Some id => bool_decide (id ∈ cs)
  | None => false
  end.

(** [txr.mutex.Lock()] and the deferred [txr.mutex.Unlock()].  A deferred
    call runs on return and on panic, not while the goroutine is parked. *)
Definition Lock : M unit :=
  fun w => if mutex (txr w) then Parked WaitLock w
           else modify_txr (set_mutex true) w.

Definition unlock (w : world) : world :=
  {| txr := set_mutex false (txr w); cancelled := cancelled w;
     next_ctx := next_ctx w; trace := trace w |}.

Definition defer_Unlock {A} (m : M A) : M A :=
  fun w =>
    match m w with
    | Ret a w' => Ret a (unlock w')
    | Panic msg w' => Panic msg (unlock w')
    | Parked p w' => Parked p w'
    | More w' => More w'
    end.

(** [select { case <-txr.mainContext.Done(): ...; case <-timer.C: }].
    Returns [true] when the cancellation case is taken.  The timer always
    fires in the end; [timer_wins] tells whether its case is the one taken
    when the context is done as well (Go picks among the ready cases).
    Calling [Done] on the nil context is a nil dereference. *)
Definition select_Done_or_timer (timer_wins : bool) : M bool :=
  fun w =>
    match mainContext (txr w) with
    | ctx_nil => Panic "nil pointer dereference" w
    | c => Ret (ctx_done (cancelled w) c && negb timer_wins) w
    end.

(** [txr.prefetchTxBuffer <- etx]: panics on a closed channel, parks the
    sender while the buffer is full. *)
Definition chan_send (etx : bytes) : M unit :=
  fun w =>
    let ch := prefetchTxBuffer (txr w) in
    if closed ch then Panic "send on closed channel" w
    else if (length (buf ch) <? cap ch)%nat
         then (modify_txr (set_prefetchTxBuffer (chan_with_buf (buf ch ++ [etx]) ch)) ;;
               call (ChanSend etx)) w
         else Parked (WaitSend etx) w.

(** One step of [for etx := range txr.prefetchTxBuffer]: the oldest
    buffered payload, or [None] when the channel is closed and drained;
    parks the receiver on an empty open channel. *)
Definition chan_recv : M (option bytes) :=
  fun w =>
    let ch := prefetchTxBuffer (txr w) in
    match buf ch with
    | etx :: rest =>
        (modify_txr (set_prefetchTxBuffer (chan_with_buf rest ch)) ;; ret (Some etx)) w
    | [] => if closed ch then Ret None w else Parked WaitRecv w
    end.

(** [close(txr.prefetchTxBuffer)]: panics on a closed channel. *)
Definition chan_close_op : M unit :=
  fun w =>
    let ch := prefetchTxBuffer (txr w) in
    if closed ch then Panic "close of closed channel" w
    else (modify_txr (set_prefetchTxBuffer (chan_close ch)) ;; call ChanClose) w.

(** ** The replicator's functions *)

(** What the remote side answers during one [connect]. *)
Record connect_env := {
  on_NewImmuClient : result ImmuClient;
  on_Login : result string;          (* login.GetToken() *)
  on_UseDatabase : result string;    (* udr.GetToken() *)
}.

(** What the collaborators answer during one [fetchNextTx]. *)
Record fetch_env := {
  on_connect : connect_env;
  on_CurrentState : result ImmutableState;
  on_IsSyncReplicationEnabled : bool;
  on_ExportTx : result ExportTxStream;
  on_DiscardPrecommittedTxsSince : option error;
  on_AllowCommitUpto : option error;
}.

Definition NewTxReplicator (id : string) (o : Options) (fullAddress : string)
  : TxReplicator :=
  {| uuid := id; opts := o; masterDB := fullAddress;
     mainContext := ctx_nil; cancelFunc := None;
     client := None; clientContext := ctx_nil; lastTx := 0;
     prefetchTxBuffer := {| buf := []; cap := prefetchTxBufferSize o; closed := false |};
     replicationConcurrency := replicationCommitConcurrency o;
     allowTxDiscarding := opt_allowTxDiscarding o;
     delayer := opt_delayer o;
     consecutiveFailures := 0; running := false; mutex := false |}.

Definition disconnect : M unit :=
  let* t := get_txr in
  match client t with
  | None => ret tt
  | Some c =>
      call (Infof "Disconnecting from '%s':'%d' for database '%s'...") ;;
      call (Logout c (clientContext t)) ;;
      call (Disconnect c) ;;
      modify_txr (set_client None) ;;
      call (Infof "Disconnected from '%s':'%d' for database '%s'")
  end.

Definition handleError (err : option error) (timer_wins : bool) : M bool :=
  Lock ;;
  defer_Unlock
    (match err with
     | None =>
         modify_txr (set_consecutiveFailures 0) ;;
         ret false
     | Some _ =>
         modify_txr (fun t => set_consecutiveFailures (int_wrap (consecutiveFailures t + 1)) t) ;;
         call (Infof "Replication error on database '%s' from '%s' (%d consecutive failures). Reason: %v") ;;
         let* t := get_txr in
         call (NewTimer (delayer t (consecutiveFailures t))) ;;
         let* done := select_Done_or_timer timer_wins in
         if done : bool then
           call TimerStop ;;
           ret true
         else
           (if 3 <=? consecutiveFailures t then disconnect else ret tt) ;;
           ret false
     end).

(** [metadata.NewOutgoingContext] attaches metadata with
    [context.WithValue], which panics on a nil parent. *)
Definition metadata_NewOutgoingContext (parent : context) (k v : string) : M context :=
  match parent with
  | ctx_nil => panic "cannot create context from nil parent"
  | _ => ret (NewOutgoingContext parent k v)
  end.

Definition connect (env : connect_env) : M (option error) :=
  call (Infof "Connecting to '%s':'%d' for database '%s'...") ;;
  let* t := get_txr in
  call (NewImmuClient (masterAddress (opts t)) (masterPort (opts t))) ;;
  match on_NewImmuClient env with
  | Err e => ret (Some e)
  | Ok c =>
      call (Login c (mainContext t) (followerUsername (opts t)) (followerPassword (opts t))) ;;
      match on_Login env with
      | Err e => ret (Some e)
      | Ok token =>
          let* ctx1 := metadata_NewOutgoingContext (mainContext t) "authorization" token in
          modify_txr (set_clientContext ctx1) ;;
          call (UseDatabase c ctx1 (masterDatabase (opts t))) ;;
          match on_UseDatabase env with
          | Err e => ret (Some e)
          | Ok token2 =>
              let* ctx2 := metadata_NewOutgoingContext ctx1 "authorization" token2 in
              modify_txr (set_clientContext ctx2) ;;
              modify_txr (set_client (Some c)) ;;
              call (Infof "Connection to '%s':'%d' for database '%s' successfully established") ;;
              ret None
          end
      end
  end.

Definition commit_diverged : string := "follower commit state diverged from master's".
Definition precommit_diverged : string := "follower precommit state diverged from master's".
Definition txid_key : string := "may-commit-up-to-txid-bin".
Definition alh_key : string := "may-commit-up-to-alh-bin".

(** The last statements of [fetchNextTx]: hand the payload over and count
    it.  A fetcher parked on the send resumes here. *)
Definition handoff (etx : bytes) : M (option error) :=
  (if (0 <? length etx)%nat then
     chan_send etx ;;
     modify_txr (fun t => set_lastTx (u64 (lastTx t + 1)) t)
   else ret tt) ;;
  ret None.

(** The sync-replication block of [fetchNextTx]; [Some e] is an early
    return of [e], [None] falls through to the handoff. *)
Definition sync_trailer (md : MD) (allow : option error) : M (option error) :=
  if (length (md_Get md txid_key) =? 0)%nat || (length (md_Get md alh_key) =? 0)%nat then
    ret (Some (errors_New "master is not running with synchronous replication"))
  else
    match BigEndian_Uint64 (default [] (head (md_Get md txid_key))) with
    | None => panic "index out of range"
    | Some mayCommitUpToTxID =>
        let mayCommitUpToAlh := copy_alh (default [] (head (md_Get md alh_key))) in
        if 0 <? mayCommitUpToTxID then
          call (AllowCommitUpto mayCommitUpToTxID mayCommitUpToAlh) ;;
          match allow with
          | Some e =>
              if strings_Contains (Error e) commit_diverged then
                call (Errorf "follower commit state at '%s' diverged from master's") ;;
                ret (Some ErrFollowerDivergedFromMaster)
              else ret (Some e)
          | None => ret None
          end
        else ret None
    end.

(** [fetchNextTx] from the sampling of the local state on: initialise
    [lastTx], call [ExportTx], classify its error or read the stream,
    handle the trailer, hand the payload over. *)
Definition export_phase (commitState : ImmutableState) (env : fetch_env)
  : M (option error) :=
  let syncReplicationEnabled := on_IsSyncReplicationEnabled env in
  modify_txr (fun t => if lastTx t =? 0
                       then set_lastTx (PrecommittedTxId commitState) t
                       else t) ;;
  let* t := get_txr in
  let nextTx := u64 (lastTx t + 1) in
  let state :=
    if syncReplicationEnabled then
      Some {| UUID := uuid t;
              CommittedTxID := TxId commitState;
              CommittedAlh := TxHash commitState;
              PrecommittedTxID := PrecommittedTxId commitState;
              PrecommittedAlh := PrecommittedTxHash commitState |}
    else None in
  match client t with
  | None => panic "nil pointer dereference"
  | Some c =>
      call (ExportTx c (clientContext t)
              {| Tx := nextTx; ReqFollowerState := state;
                 AllowPreCommitted := syncReplicationEnabled |}) ;;
      match on_ExportTx env with
      | Err e =>
          if strings_Contains (Error e) commit_diverged then
            call (Errorf "follower commit state at '%s' diverged from master's") ;;
            ret (Some ErrFollowerDivergedFromMaster)
          else if strings_Contains (Error e) precommit_diverged then
            if negb (allowTxDiscarding t) then
              call (Errorf "follower precommit state at '%s' diverged from master's") ;;
              ret (Some ErrFollowerDivergedFromMaster)
            else
              call (Infof "discarding precommit txs since %d from '%s'...") ;;
              call (DiscardPrecommittedTxsSince (u64 (TxId commitState + 1))) ;;
              (* err = txr.db.DiscardPrecommittedTxsSince(...) *)
              let err := on_DiscardPrecommittedTxsSince env in
              match err with
              | Some _ => ret err
              | None =>
                  call (Infof "precommit txs successfully discarded from '%s'") ;;
                  ret err
              end
          else ret (Some e)
      | Ok exportTxStream =>
          let etx := ReadFully_etx exportTxStream in
          let err := ReadFully_err exportTxStream in
          if bool_decide (err <> None) && bool_decide (err <> Some io_EOF)
          then ret err
          else
            let* r := (if syncReplicationEnabled
                       then sync_trailer (Trailer exportTxStream)
                                         (on_AllowCommitUpto env)
                       else ret None) in
            match r with
            | Some e' => ret (Some e')
            | None => handoff etx
            end
      end
  end.

Definition fetchNextTx (env : fetch_env) : M (option error) :=
  Lock ;;
  defer_Unlock
    (let* t := get_txr in
     if negb (running t) then ret (Some ErrAlreadyStopped)
     else
       let* err := (match client t with
                    | None => connect (on_connect env)
                    | Some _ => ret None
                    end) in
       match err with
       | Some e => ret (Some e)
       | None =>
           call CurrentState ;;
           match on_CurrentState env with
           | Err e => ret (Some e)
           | Ok commitState => export_phase commitState env
           end
       end).

(** [context.WithCancel(context.Background())]. *)
Definition context_WithCancel : M nat :=
  fun w => Ret (next_ctx w)
               {| txr := txr w; cancelled := cancelled w;
                  next_ctx := S (next_ctx w); trace := trace w |}.

(** Calling a [context.CancelFunc]; calling it again does nothing more. *)
Definition cancel (id : nat) : M unit :=
  fun w => Ret tt {| txr := txr w; cancelled := {[id]} ∪ cancelled w;
                     next_ctx := next_ctx w; trace := trace w ++ [Cancel id] |}.

(** [for i := 0; i < n; i++ { go applier }]. *)
Fixpoint spawn (n : nat) (g : goroutine) : M unit :=
  match n with
  | O => ret tt
  | S n' => call (Go g) ;; spawn n' g
  end.

(** [Start] spawns the goroutines; their bodies are [fetcher_goroutine]
    and [applier_goroutine] below. *)
Definition Start : M (option error) :=
  Lock ;;
  defer_Unlock
    (let* t := get_txr in
     if running t then ret (Some ErrAlreadyRunning)
     else
       call (Infof "Initializing replication from '%s' to '%s'...") ;;
       let* id := context_WithCancel in
       modify_txr (set_mainContext (WithCancel id) (Some id)) ;;
       modify_txr (set_running true) ;;
       call (Go Fetcher) ;;
       spawn (Z.to_nat (replicationConcurrency t)) Applier ;;
       call (Infof "Replication from '%s' to '%s' succesfully initialized") ;;
       ret None).

Definition Stop : M (option error) :=
  let* t := get_txr in
  (match cancelFunc t with
   | Some id => cancel id
   | None => ret tt
   end) ;;
  Lock ;;
  defer_Unlock
    (call (Infof "Stopping replication of database '%s'...") ;;
     let* t := get_txr in
     if negb (running t) then ret (Some ErrAlreadyStopped)
     else
       chan_close_op ;;
       disconnect ;;
       modify_txr (set_running false) ;;
       call (Infof "Replication of database '%s' successfully stopped") ;;
       ret None).

(** The first goroutine of [Start]: the supervisor loop around
    [fetchNextTx].  Each iteration uses one entry of the script: the
    collaborators' answers to the fetch and the outcome of the backoff
    race. *)
Fixpoint fetcher_goroutine (script : list (fetch_env * bool)) : M unit :=
  match script with
  | [] => fun w => More w
  | (env, timer_wins) :: script' =>
      let* err := fetchNextTx env in
      if bool_decide (err = Some ErrAlreadyStopped) then ret tt
      else if bool_decide (err = Some ErrFollowerDivergedFromMaster) then
        Stop ;;
        ret tt
      else
        let* terminate := handleError err timer_wins in
        if terminate : bool then ret tt
        else fetcher_goroutine script'
  end.

Definition tx_already_committed : string := "tx already committed".

(** How the applier reads the result of one [ReplicateTx] call. *)
Inductive applied := Replicated | WorkerStopped | Failed.

Definition classify (err : option error) : applied :=
  match err with
  | None => Replicated
  | Some e =>
      if bool_decide (e = ErrAlreadyStopped) then WorkerStopped
      else if strings_Contains (Error e) tx_already_committed then Replicated
      else Failed
  end.

(** The retry loop of an applier holding payload [etx] with the local
    counter at [consecutiveFailures], followed by the rest of the [range]
    loop.  Each [ReplicateTx] call uses one entry of the script: the
    call's result and the outcome of the backoff race. *)
Fixpoint applier_retry (script : list (option error * bool))
    (etx : bytes) (consecutiveFailures : Z) : M unit :=
  match script with
  | [] => fun w => More w
  | (err, timer_wins) :: script' =>
      call (ReplicateTx etx) ;;
      match classify err with
      | Replicated =>
          let* next := chan_recv in
          match next with
          | None => ret tt
          | Some etx' => applier_retry script' etx' 0
          end
      | WorkerStopped => ret tt
      | Failed =>
          call (Infof "Failed to replicate transaction from '%s' to '%s'. Reason: %v") ;;
          let consecutiveFailures := int_wrap (consecutiveFailures + 1) in
          let* t := get_txr in
          call (NewTimer (delayer t consecutiveFailures)) ;;
          let* done := select_Done_or_timer timer_wins in
          if done : bool then
            call TimerStop ;;
            ret tt
          else applier_retry script' etx consecutiveFailures
      end
  end.

(** The body of each applier goroutine of [Start]. *)
Definition applier_goroutine (script : list (option error * bool)) : M unit :=
  let* first := chan_recv in
  match first with
  | None => ret tt
  | Some etx => applier_retry script etx 0
  end.

(** ** Runs of several fetches *)

(** [n] payloads taken off the queue by the appliers' [range] loops. *)
Fixpoint appliers_receive (n : nat) : M unit :=
  match n with
  | O => ret tt
  | S n' => chan_recv ;; appliers_receive n'
  end.

(** Consecutive calls of [fetchNextTx] by the supervisor loop, each
    preceded by the receives the appliers did in the meantime; gives the
    error each call returned. *)
Fixpoint fetch_iterations (script : list (nat * fetch_env)) : M (list (option error)) :=
  match script with
  | [] => ret []
  | (n, env) :: script' =>
      appliers_receive n ;;
      let* err := fetchNextTx env in
      let* errs := fetch_iterations script' in
      ret (err :: errs)
  end.

(** ** Reading worlds and traces *)

Definition outcome_world {A} (o : outcome A) : world :=
  match o with
  | Ret _ w | Panic _ w | Parked _ w | More w => w
  end.

Definition upd_txr (f : TxReplicator -> TxReplicator) (w : world) : world :=
  {| txr := f (txr w); cancelled := cancelled w;
     next_ctx := next_ctx w; trace := trace w |}.

Definition emit (evs : list event) (w : world) : world :=
  {| txr := txr w; cancelled := cancelled w;
     next_ctx := next_ctx w; trace := trace w ++ evs |}.

(** The tx ids asked of the master, in order. *)
Definition requested (tr : list event) : list Z :=
  omap (fun e => match e with ExportTx _ _ req => Some (Tx req) | _ => None end) tr.

(** The arguments of the [AllowCommitUpto] calls, in order. *)
Definition allow_commits (tr : list event) : list (Z * bytes) :=
  omap (fun e => match e with AllowCommitUpto n alh => Some (n, alh) | _ => None end) tr.

(** The arguments of the [DiscardPrecommittedTxsSince] calls, in order. *)
Definition discards (tr : list event) : list Z :=
  omap (fun e => match e with DiscardPrecommittedTxsSince n => Some n | _ => None end) tr.

(** The payloads given to [ReplicateTx], in order. *)
Definition replicated (tr : list event) : list bytes :=
  omap (fun e => match e with ReplicateTx etx => Some etx | _ => None end) tr.

(** The events by which [Stop] tears the replicator down. *)
Definition is_teardown (e : event) : bool :=
  match e with
  | ChanClose | Logout _ _ | Disconnect _ => true
  | _ => false
  end.

(** The remote side accepts the three steps of [connect]. *)
Definition connects (env : connect_env) : Prop :=
  (exists c, on_NewImmuClient env = Ok c) /\
  (exists token, on_Login env = Ok token) /\
  (exists token, on_UseDatabase env = Ok token).

(** A call of [fetchNextTx] gets as far as [ExportTx], having sampled the
    local state [st]: the lock is free, the replicator runs, a session
    exists or can be set up, and [CurrentState] answers [st]. *)
Definition can_fetch (env : fetch_env) (w : world) (st : ImmutableState) : Prop :=
  mutex (txr w) = false /\
  running (txr w) = true /\
  mainContext (txr w) <> ctx_nil /\
  (client (txr w) = None -> connects (on_connect env)) /\
  on_CurrentState env = Ok st.

(** The position [fetchNextTx] fetches after: [lastTx], or the local
    store's precommitted tx id while [lastTx] is still 0. *)
Definition position (w : world) (st : ImmutableState) : Z :=
  if lastTx (txr w) =? 0 then PrecommittedTxId st else lastTx (txr w).

(** The replicator was never started, or was started and stopped. *)
Definition never_started (w : world) : Prop :=
  running (txr w) = false /\ cancelFunc (txr w) = None.

Definition already_stopped (w : world) : Prop :=
  running (txr w) = false /\
  exists id, cancelFunc (txr w) = Some id /\ id ∈ cancelled w.

(** ** Sample worlds and answers, for the concrete runs below *)

Module Sample.
Definition options : Options :=
  {| masterDatabase := "defaultdb"; masterAddress := "127.0.0.1"; masterPort := 3322;
     followerUsername := "follower"; followerPassword := "secret";
     prefetchTxBufferSize := 2; replicationCommitConcurrency := 2;
     opt_allowTxDiscarding := true; opt_delayer := fun n => 500 * n |}.
Definition fresh : world :=
  {| txr := NewTxReplicator "c8p0" options "defaultdb@127.0.0.1:3322";
     cancelled := ∅; next_ctx := 0; trace := [] |}.
Definition started : world := outcome_world (Start fresh).
Definition stopped : world := outcome_world (Stop started).
End Sample.

Definition backoff_log : event :=
  Infof "Replication error on database '%s' from '%s' (%d consecutive failures). Reason: %v".

Definition connecting_log : event :=
  Infof "Connecting to '%s':'%d' for database '%s'...".

Definition connected_log : event :=
  Infof "Connection to '%s':'%d' for database '%s' successfully established".

(** One of the three steps of [connect] is refused by the remote side. *)
Definition step_fails (env : connect_env) : Prop :=
  (exists e, on_NewImmuClient env = Err e) \/
  (exists e, on_Login env = Err e) \/
  (exists e, on_UseDatabase env = Err e).


Module SampleRemote.
(** The remote side accepts the session. *)
Definition accepts : connect_env :=
  {| on_NewImmuClient := Ok 7%nat; on_Login := Ok "t1"; on_UseDatabase := Ok "t2" |}.

(** The remote side refuses the login. *)
Definition refuses_login : connect_env :=
  {| on_NewImmuClient := Ok 7%nat;
     on_Login := Err (errors_New "invalid user name or password");
     on_UseDatabase := Ok "t2" |}.

(** Local store: committed up to tx 3, precommitted up to tx 5. *)
Definition state_3_5 : ImmutableState :=
  {| TxId := 3; TxHash := []; PrecommittedTxId := 5; PrecommittedTxHash := [] |}.

(** One fetch: how the session goes, sync mode or not, what [ExportTx]
    answers; the local store accepts whatever it is asked. *)
Definition answers (c : connect_env) (sync : bool) (x : result ExportTxStream)
  : fetch_env :=
  {| on_connect := c; on_CurrentState := Ok state_3_5;
     on_IsSyncReplicationEnabled := sync; on_ExportTx := x;
     on_DiscardPrecommittedTxsSince := None; on_AllowCommitUpto := None |}.

(** A stream carrying [etx] and the trailer [md]. *)
Definition stream (etx : bytes) (md : MD) : result ExportTxStream :=
  Ok {| ReadFully_etx := etx; ReadFully_err := None; Trailer := md |}.

Definition payload : bytes := [Byte.x01; Byte.x02].
End SampleRemote.

(** The events of setting a session up. *)
Definition is_session (e : event) : bool :=
  match e with
  | Infof _ | NewImmuClient _ _ | Login _ _ _ _ | UseDatabase _ _ _ => true
  | _ => false
  end.

(** [w0] is [w] once a fetch holds the lock, has a session and has
    sampled the local state: only the lock, the client handle and its
    context differ, and only session events were added. *)
Definition entered (w w0 : world) : Prop :=
  txr w0 = set_mutex true
             (set_client (client (txr w0))
                (set_clientContext (clientContext (txr w0)) (txr w))) /\
  is_Some (client (txr w0)) /\
  cancelled w0 = cancelled w /\
  next_ctx w0 = next_ctx w /\
  exists pre, trace w0 = trace w ++ pre ++ [CurrentState] /\
              Forall (fun e => is_session e = true) pre.

(** The request a fetch sends from world [w0] after sampling [st]. *)
Definition request (w0 : world) (st : ImmutableState) (sync : bool) : ExportTxRequest :=
  {| Tx := u64 (position w0 st + 1);
     ReqFollowerState :=
       if sync then
         Some {| UUID := uuid (txr w0);
                 CommittedTxID := TxId st;
                 CommittedAlh := TxHash st;
                 PrecommittedTxID := PrecommittedTxId st;
                 PrecommittedAlh := PrecommittedTxHash st |}
       else None;
     AllowPreCommitted := sync |}.

(** The world right after the [ExportTx] call. *)
Definition exported (c : ImmuClient) (st : ImmutableState) (env : fetch_env)
    (w0 : world) : world :=
  emit [ExportTx c (clientContext (txr w0))
          (request w0 st (on_IsSyncReplicationEnabled env))]
    (upd_txr (set_lastTx (position w0 st)) w0).

Definition not_sync_error : error :=
  errors_New "master is not running with synchronous replication".

Module SampleErrors.
Definition commit_divergence : error :=
  errors_New "rpc error: code = Unknown desc = follower commit state diverged from master's".

Definition precommit_divergence : error :=
  errors_New "rpc error: code = Unknown desc = follower precommit state diverged from master's".

Definition unavailable : error :=
  errors_New "rpc error: code = Unavailable desc = connection refused".
End SampleErrors.

Module SampleTrailer.
(** Trailer [mayCommitUpToTxId = 10] with a 32-byte hash. *)
Definition txid_10 : bytes :=
  [Byte.x00; Byte.x00; Byte.x00; Byte.x00; Byte.x00; Byte.x00; Byte.x00; Byte.x0a].

Definition alh : bytes := replicate 32 Byte.xab.

Definition hint_10 : MD := <[txid_key := [txid_10]]> (<[alh_key := [alh]]> ∅).
End SampleTrailer.

(** A fetch is answered with a non-empty payload. *)
Definition delivers (env : fetch_env) : bool :=
  match on_ExportTx env with
  | Ok s => (0 <? length (ReadFully_etx s))%nat
  | Err _ => false
  end.

(** How many of these fetches are answered with a non-empty payload. *)
Definition delivered (envs : list fetch_env) : Z :=
  Z.of_nat (length (List.filter delivers envs)).

(** The precommitted tx id sampled by a fetch. *)
Definition sampled (env : fetch_env) : Z :=
  match on_CurrentState env with
  | Ok st => PrecommittedTxId st
  | Err _ => 0
  end.

(** The position the first of these fetches starts from. *)
Definition initial_position (w : world) (envs : list fetch_env) : Z :=
  if lastTx (txr w) =? 0
  then match envs with
       | env :: _ => sampled env
       | [] => 0
       end
  else lastTx (txr w).

(** The ids a run of error-free fetches asks for, starting after
    position [k]: each fetch asks for the tx after the position, and only
    a delivered payload moves the position. *)
Fixpoint request_ids (k : Z) (envs : list fetch_env) : list Z :=
  match envs with
  | [] => []
  | env :: envs' => (k + 1) :: request_ids (if delivers env then k + 1 else k) envs'
  end.

Module SampleRun.
(** The master delivers a payload (async mode). *)
Definition payload_fetch : fetch_env :=
  SampleRemote.answers SampleRemote.accepts false
    (SampleRemote.stream SampleRemote.payload ∅).

(** The master only shares its commit hint: empty payload (sync mode). *)
Definition hint_fetch : fetch_env :=
  SampleRemote.answers SampleRemote.accepts true
    (SampleRemote.stream [] SampleTrailer.hint_10).

(** Payload, hint only, then (an applier having taken the first payload)
    another payload. *)
Definition script : list (nat * fetch_env) :=
  [(0%nat, payload_fetch); (0%nat, hint_fetch); (1%nat, payload_fetch)].

(** Two fetches answered by the hint only. *)
Definition hints : list (nat * fetch_env) :=
  [(0%nat, hint_fetch); (0%nat, hint_fetch)].
End SampleRun.

Definition replicate_failed_log : event :=
  Infof "Failed to replicate transaction from '%s' to '%s'. Reason: %v".

(** The durations of the timers started, in order. *)
Definition timers (tr : list event) : list Z :=
  omap (fun e => match e with NewTimer d => Some d | _ => None end) tr.

(** The script of an applier whose [ReplicateTx] calls fail with [fails]
    (each with the outcome of its backoff race). *)
Definition failing (fails : list (error * bool)) : list (option error * bool) :=
  map (fun f => (Some (fst f), snd f)) fails.

Module SampleApplier.
Definition busy : error := errors_New "tx read conflict".
Definition already : error := errors_New "tx already committed".

(** A started replicator with two payloads waiting in the queue. *)
Definition queued : world :=
  upd_txr (fun t => set_prefetchTxBuffer
                      (chan_with_buf [SampleRemote.payload; [Byte.x03]]
                         (prefetchTxBuffer t)) t)
    Sample.started.
End SampleApplier.

Module SampleFull.
(** A started replicator with a session, whose queue (capacity 2) is full. *)
Definition full : world :=
  upd_txr (fun t => set_client (Some 7%nat)
                      (set_clientContext
                         (NewOutgoingContext (mainContext t) "authorization" "t2")
                         (set_prefetchTxBuffer
                            (chan_with_buf [[Byte.x03]; [Byte.x04]] (prefetchTxBuffer t))
                            t)))
    Sample.started.

(** The same once the token has been cancelled. *)
Definition cancelled_full : world := outcome_world (cancel 0%nat full).
End SampleFull.

Module SampleStrict.
(** A started replicator that may not discard precommitted txs. *)
Definition options : Options :=
  {| masterDatabase := "defaultdb"; masterAddress := "127.0.0.1"; masterPort := 3322;
     followerUsername := "follower"; followerPassword := "secret";
     prefetchTxBufferSize := 2; replicationCommitConcurrency := 2;
     opt_allowTxDiscarding := false; opt_delayer := fun n => 500 * n |}.

Definition started : world :=
  outcome_world
    (Start {| txr := NewTxReplicator "c8p1" options "defaultdb@127.0.0.1:3322";
              cancelled := ∅; next_ctx := 0; trace := [] |}).
End SampleStrict.

Module SampleShort.
(** A trailer whose tx id value has only four bytes. *)
Definition short_txid : MD :=
  <[txid_key := [[Byte.x00; Byte.x00; Byte.x00; Byte.x0a]]]>
    (<[alh_key := [SampleTrailer.alh]]> ∅).
End SampleShort.

Definition stopping_log : event := Infof "Stopping replication of database '%s'...".
Definition stopped_log : event := Infof "Replication of database '%s' successfully stopped".
Definition initializing_log : event := Infof "Initializing replication from '%s' to '%s'...".
Definition initialized_log : event :=
  Infof "Replication from '%s' to '%s' succesfully initialized".
Definition disconnecting_log : event :=
  Infof "Disconnecting from '%s':'%d' for database '%s'...".
Definition disconnected_log : event :=
  Infof "Disconnected from '%s':'%d' for database '%s'".

(** What [disconnect] asks of the remote client holding [c]. *)
Definition disconnect_events (c : option ImmuClient) (ctx : context) : list event :=
  match c with
  | Some c => [disconnecting_log; Logout c ctx; Disconnect c; disconnected_log]
  | None => []
  end.

(** The clients disconnected, in order. *)
Definition disconnects (tr : list event) : list ImmuClient :=
  omap (fun e => match e with Disconnect c => Some c | _ => None end) tr.

(** A fetch that samples the local state and whose [ExportTx] call fails
    with an error [e] that signals no divergence and is none of the two
    values the supervisor loop looks for. *)
Definition fails_with (env : fetch_env) (e : error) : Prop :=
  (exists st, on_CurrentState env = Ok st) /\
  on_ExportTx env = Err e /\
  e <> ErrAlreadyStopped /\
  e <> ErrFollowerDivergedFromMaster /\
  strings_Contains (Error e) commit_diverged = false /\
  strings_Contains (Error e) precommit_diverged = false.

(** The payload a fetch is answered with. *)
Definition payload_of (env : fetch_env) : bytes :=
  match on_ExportTx env with
  | Ok s => ReadFully_etx s
  | Err _ => []
  end.

(** The non-empty payloads these fetches are answered with, in order. *)
Definition payloads (envs : list fetch_env) : list bytes :=
  omap (fun env => if delivers env then Some (payload_of env) else None) envs.

(** The number of receives the appliers do during a run of fetches. *)
Definition received (script : list (nat * fetch_env)) : nat :=
  foldr (fun p n => (fst p + n)%nat) 0%nat script.

(** [n] calls of [ReplicateTx] that succeed. *)
Definition successes (n : nat) : list (option error * bool) := replicate n (None, true).






(** What holds between the running flag, the context, its cancel
    function and the client handle. *)
Definition lifecycle (w : world) : Prop :=
  (forall id, id ∈ cancelled w -> (id < next_ctx w)%nat) /\
  (forall id, cancelFunc (txr w) = Some id ->
              mainContext (txr w) = WithCancel id /\ (id < next_ctx w)%nat) /\
  (running (txr w) = true -> is_Some (cancelFunc (txr w))) /\
  (running (txr w) = false -> client (txr w) = None) /\
  (is_Some (client (txr w)) ->
   ctx_root (clientContext (txr w)) = ctx_root (mainContext (txr w))).



Module SampleInterleaved.
End SampleInterleaved.

Module SampleHash.
(** A trailer whose hash has only two bytes. *)
Definition short_alh : MD :=
  <[txid_key := [SampleTrailer.txid_10]]> (<[alh_key := [[Byte.xab; Byte.xcd]]]> ∅).
End SampleHash.

(** The context handed to a remote call. *)
Definition call_context (e : event) : option context :=
  match e with
  | Login _ ctx _ _ | UseDatabase _ ctx _ | ExportTx _ ctx _ | Logout _ ctx => Some ctx
  | _ => None
  end.

(** The contexts handed to the remote calls, in order. *)
Definition call_contexts (tr : list event) : list context := omap call_context tr.

Module SampleDiscard.

End SampleDiscard.

(** ** Key-value constraints (embedded/store/kvconstraints.go) *)

Module KV.

(** Error values of the store: the sentinels the file refers to (declared
    elsewhere in the package and in [tbtree]), any other error of the
    index, and the errors [fmt.Errorf] builds around a ["%w"] verb. *)
Inductive error :=
| ErrInvalidConstraint
| ErrConstraintFailed
| ErrKeyNotFound
| other (msg : string)
| Errorf_w (before : string) (wrapped : error) (after : string).

#[global] Instance error_eq_dec : EqDecision error.
Proof. solve_decision. Defined.

(** [errors.Is] against a sentinel: the error or one it wraps is the
    sentinel itself. *)
Fixpoint errors_Is (err target : error) : bool :=
  bool_decide (err = target) ||
  match err with
  | Errorf_w _ wrapped _ => errors_Is wrapped target
  | _ => false
  end.

Record KVConstraints := {
  MustExist : bool;
  MustNotExist : bool;
  NotModifiedAfterTX : Z;     (* uint64 *)
}.

Definition validate (cs : KVConstraints) : option error :=
  if negb (MustExist cs) && negb (MustNotExist cs) && (NotModifiedAfterTX cs =? 0) then
    Some (Errorf_w "" ErrInvalidConstraint ": no constraint was set")
  else if MustExist cs && MustNotExist cs then
    Some (Errorf_w "" ErrInvalidConstraint
            ": conflicting MustExist and MustNotExist constraints")
  else None.

(** [check]; [tx] and [err] are what [snap.Get(key)] returned as the tx
    of the last update of the key and as its error. *)
Definition check (cs : KVConstraints) (tx : Z) (err : option error) : option error :=
  match err with
  | Some e =>
      if negb (errors_Is e ErrKeyNotFound) then
        Some (Errorf_w "couldn't check KV constraint: " e "")
      else if MustExist cs then
        Some (Errorf_w "" ErrConstraintFailed ": key does not exist")
      else if (0 <? NotModifiedAfterTX cs) && (NotModifiedAfterTX cs <? tx) then
        Some (Errorf_w "" ErrConstraintFailed ": key modified after given TX")
      else None
  | None =>
      if MustNotExist cs then
        Some (Errorf_w "" ErrConstraintFailed ": key already exists")
      else if (0 <? NotModifiedAfterTX cs) && (NotModifiedAfterTX cs <? tx) then
        Some (Errorf_w "" ErrConstraintFailed ": key modified after given TX")
      else None
  end.

End KV.

Arguments strings_Contains : simpl never.
Arguments u64 : simpl never.
Arguments int_wrap : simpl never.
Arguments BigEndian_Uint64 : simpl never.
Arguments copy_alh : simpl never.
Arguments md_Get : simpl never.
Arguments disconnect : simpl never.
Arguments connect : simpl never.
Arguments handoff : simpl never.
Arguments sync_trailer : simpl never.
Arguments export_phase : simpl never.
Arguments fetchNextTx : simpl never.
Arguments handleError : simpl never.
Arguments Start : simpl never.
Arguments Stop : simpl never.
Arguments Nat.ltb : simpl never.
Arguments Nat.eqb : simpl never.
Arguments Z.eqb : simpl never.
Arguments Z.ltb : simpl never.
Arguments Z.leb : simpl never.

(** * Properties *)

Lemma int_wrap_small x : - 2 ^ 63 <= x < 2 ^ 63 -> int_wrap x = x.
Proof. intros H. unfold int_wrap. rewrite Z.mod_small; lia. Qed.

Lemma u64_small x : 0 <= x < 2 ^ 64 -> u64 x = x.
Proof. intros H. unfold u64. apply Z.mod_small; lia. Qed.

Lemma requested_app tr1 tr2 : requested (tr1 ++ tr2) = requested tr1 ++ requested tr2.
Proof. apply omap_app. Qed.

Lemma allow_commits_app tr1 tr2 :
  allow_commits (tr1 ++ tr2) = allow_commits tr1 ++ allow_commits tr2.
Proof. apply omap_app. Qed.

Lemma discards_app tr1 tr2 : discards (tr1 ++ tr2) = discards tr1 ++ discards tr2.
Proof. apply omap_app. Qed.

Lemma replicated_app tr1 tr2 : replicated (tr1 ++ tr2) = replicated tr1 ++ replicated tr2.
Proof. apply omap_app. Qed.

(** [disconnect] always returns. *)
Lemma disconnect_returns w : exists w', disconnect w = Ret tt w'.
Proof.
  unfold disconnect, bind, get_txr. destruct (client (txr w)); cbn; eauto.
Qed.

Ltac break_world w :=
  let t := fresh "t" in
  destruct w as [t ? ? ?]; destruct t; cbn in *; subst.

Ltac simp_world :=
  unfold emit, upd_txr, unlock, modify_txr, call, get_txr, ret,
    set_mainContext, set_client, set_clientContext, set_lastTx,
    set_prefetchTxBuffer, set_consecutiveFailures, set_running, set_mutex in *;
  cbn in *; rewrite <- ?app_assoc; cbn in *.

(** ** The supervisor's error handling *)

(** C6. [handleError] on a nil error resets the consecutive-failure
    counter to 0 and returns continue ([false]).  On a non-nil error it
    increments the counter to [n], logs, and waits [delayer n] in a select
    against the cancellation token: when the cancellation case is taken it
    stops the timer and returns terminate ([true]); otherwise it calls
    [disconnect] exactly when [n] has reached three or more, and returns
    continue. *)
Theorem handleError_spec (err : option error) (timer_wins : bool) (w : world) :
  mutex (txr w) = false ->
  let n := consecutiveFailures (txr w) + 1 in
  let w1 := emit [backoff_log; NewTimer (delayer (txr w) n)]
              (upd_txr (fun t => set_mutex true (set_consecutiveFailures n t)) w) in
  (err = None ->
   handleError err timer_wins w = Ret false (upd_txr (set_consecutiveFailures 0) w)) /\
  (err <> None ->
   mainContext (txr w) <> ctx_nil ->
   0 <= consecutiveFailures (txr w) < 2 ^ 63 - 1 ->
   if ctx_done (cancelled w) (mainContext (txr w)) && negb timer_wins then
     handleError err timer_wins w = Ret true (unlock (emit [TimerStop] w1))
   else
     exists w2,
       (if 3 <=? n then disconnect else ret tt) w1 = Ret tt w2 /\
       handleError err timer_wins w = Ret false (unlock w2)).
Proof.
  intros Hm n w1. split.
  - intros ->. subst n w1. break_world w. reflexivity.
  - intros Herr Hctx Hcf.
    destruct err as [e|]; [clear Herr | congruence].
    assert (Hrun : handleError (Some e) timer_wins w =
              if ctx_done (cancelled w) (mainContext (txr w)) && negb timer_wins
              then Ret true (unlock (emit [TimerStop] w1))
              else match (if 3 <=? n then disconnect else ret tt) w1 with
                   | Ret _ w2 => Ret false (unlock w2)
                   | Panic msg w2 => Panic msg (unlock w2)
                   | Parked p w2 => Parked p w2
                   | More w2 => More w2
                   end).
    { subst n w1. break_world w.
      unfold handleError, defer_Unlock, bind, Lock, select_Done_or_timer. cbn.
      rewrite int_wrap_small by lia.
      destruct mainContext0; [congruence | |]; cbn;
        destruct (_ && negb timer_wins); simp_world; try reflexivity;
        destruct (3 <=? _); try reflexivity;
        unfold disconnect, bind, get_txr; cbn; destruct client0; reflexivity. }
    rewrite Hrun. destruct (_ && negb timer_wins); [reflexivity |].
    destruct (3 <=? n).
    + destruct (disconnect_returns w1) as [w2 Hw2]. exists w2. rewrite Hw2. auto.
    + exists w1. auto.
Qed.

Lemma handleError_spec_witness :
  handleError (Some io_EOF) true
    (upd_txr (set_consecutiveFailures 2) Sample.started) =
  Ret false (emit [backoff_log; NewTimer 1500]
               (upd_txr (set_consecutiveFailures 3) Sample.started)).
Proof.
  pose proof (handleError_spec (Some io_EOF) true
                (upd_txr (set_consecutiveFailures 2) Sample.started) eq_refl)
    as [_ H].
  specialize (H ltac:(discriminate) ltac:(vm_compute; discriminate) ltac:(cbn; lia)).
  vm_compute in H. destruct H as [w2 [H1 H2]].
  injection H1 as <-. vm_compute. exact H2.
Defined.

(** ** Lifecycle *)

Lemma spawn_returns n g w : spawn n g w = Ret tt (emit (replicate n (Go g)) w).
Proof.
  revert w. induction n as [| n IH]; intros w.
  - destruct w. unfold emit. cbn. rewrite app_nil_r. reflexivity.
  - cbn. unfold bind, call. rewrite IH. unfold emit. cbn.
    rewrite <- app_assoc. reflexivity.
Qed.

(** [Start] on a replicator that is not running returns nil and leaves
    it running, with a fresh cancellable context. *)
Lemma Start_when_not_running (w : world) :
  mutex (txr w) = false ->
  running (txr w) = false ->
  exists w',
    Start w = Ret None w' /\
    running (txr w') = true /\
    mainContext (txr w') = WithCancel (next_ctx w) /\
    cancelFunc (txr w') = Some (next_ctx w) /\
    cancelled w' = cancelled w /\
    mutex (txr w') = false.
Proof.
  intros Hm Hr. break_world w.
  unfold Start, Lock, defer_Unlock, bind, context_WithCancel. simp_world.
  rewrite spawn_returns. simp_world. eexists. repeat split.
Qed.

(** C9. [Stop] on a replicator that was never started, or that has
    already been stopped, returns [ErrAlreadyStopped] without panicking
    (a nil [cancelFunc] is not called), closes no queue, makes no call to
    the remote client, leaves the replicator and the set of cancelled
    contexts as they were, and a following [Start] returns nil with the
    replicator running. *)
Theorem Stop_when_not_running (w : world) :
  mutex (txr w) = false ->
  never_started w \/ already_stopped w ->
  exists w',
    Stop w = Ret (Some ErrAlreadyStopped) w' /\
    txr w' = txr w /\
    cancelled w' = cancelled w /\
    (exists evs, trace w' = trace w ++ evs /\ Forall (fun e => is_teardown e = false) evs) /\
    exists w'', Start w' = Ret None w'' /\ running (txr w'') = true.
Proof.
  intros Hm Hns.
  assert (Hr : running (txr w) = false) by (destruct Hns as [[? _] | [? _]]; assumption).
  assert (Hstop : exists w',
             Stop w = Ret (Some ErrAlreadyStopped) w' /\
             txr w' = txr w /\ cancelled w' = cancelled w /\
             exists evs, trace w' = trace w ++ evs /\
                         Forall (fun e => is_teardown e = false) evs).
  { destruct Hns as [[_ Hc] | [_ (id & Hc & Hid)]]; break_world w.
    - eexists. split; [reflexivity |]. simp_world. repeat split.
      eexists. split; [reflexivity |]. repeat constructor.
    - eexists. split; [reflexivity |]. simp_world. repeat split.
      + apply leibniz_equiv. set_solver.
      + eexists. split; [reflexivity |]. repeat constructor. }
  destruct Hstop as (w' & Hs & Ht & Hc & Hev).
  exists w'. repeat (split; [assumption |]).
  destruct (Start_when_not_running w') as (w'' & H1 & H2 & _).
  - rewrite Ht. exact Hm.
  - rewrite Ht. exact Hr.
  - exists w''. auto.
Qed.

Lemma Stop_when_not_running_witness :
  exists w',
    Stop Sample.stopped = Ret (Some ErrAlreadyStopped) w' /\
    txr w' = txr Sample.stopped /\
    cancelled w' = cancelled Sample.stopped /\
    (exists evs, trace w' = trace Sample.stopped ++ evs /\
                 Forall (fun e => is_teardown e = false) evs) /\
    exists w'', Start w' = Ret None w'' /\ running (txr w'') = true.
Proof.
  apply (Stop_when_not_running Sample.stopped).
  - reflexivity.
  - right. split; [reflexivity |]. exists 0%nat. split; [reflexivity |].
    vm_compute. reflexivity.
Defined.

(** ** Connection *)

Ltac destruct_match :=
  match goal with
  | |- context [match ?x with _ => _ end] =>
      lazymatch x with
      | context [match _ with _ => _ end] => fail
      | _ => destruct x eqn:?
      end
  end.

(** Whatever [sync_trailer], [handoff] and [export_phase] do, they only
    add to the trace. *)
Lemma handoff_trace etx w :
  exists tail, trace (outcome_world (handoff etx w)) = trace w ++ tail.
Proof.
  unfold handoff, bind, chan_send. break_world w.
  repeat (destruct_match; simp_world); eexists; try reflexivity;
    symmetry; apply app_nil_r.
Qed.

Lemma sync_trailer_trace md allow w :
  exists tail, trace (outcome_world (sync_trailer md allow w)) = trace w ++ tail.
Proof.
  unfold sync_trailer, bind, panic. break_world w.
  repeat (destruct_match; simp_world); eexists; try reflexivity;
    symmetry; apply app_nil_r.
Qed.

Lemma export_phase_trace st env w :
  exists tail, trace (outcome_world (export_phase st env w)) = trace w ++ tail.
Proof.
  unfold export_phase, bind, panic. simp_world.
  destruct (client _); [| exists []; cbn; symmetry; apply app_nil_r].
  destruct (on_ExportTx env) as [s | e].
  - destruct (_ && _); [eexists; reflexivity |].
    destruct (on_IsSyncReplicationEnabled env).
    + match goal with |- context [sync_trailer ?md ?a ?w] =>
        destruct (sync_trailer_trace md a w) as [t1 Ht1];
        destruct (sync_trailer md a w) as [[e|] w1 | | |] eqn:Hs end;
        cbn in *; simp_world; rewrite ?Ht1; try (eexists; rewrite <- ?app_assoc; reflexivity).
      destruct (handoff_trace (ReadFully_etx s) w1) as [t2 Ht2].
      rewrite Ht2, Ht1. eexists; rewrite <- ?app_assoc; reflexivity.
    + cbn. match goal with |- context [handoff ?etx ?w] =>
        destruct (handoff_trace etx w) as [t2 Ht2] end.
      rewrite Ht2. simp_world. eexists; reflexivity.
  - repeat (destruct_match; simp_world); eexists; reflexivity.
Qed.


(** [connect] stores the client handle only when it returns nil. *)
Lemma connect_error_keeps_client cenv w e w' :
  connect cenv w = Ret (Some e) w' -> client (txr w') = client (txr w).
Proof.
  unfold connect, bind, metadata_NewOutgoingContext, panic. break_world w.
  repeat (destruct_match; simp_world); intros H; inversion H; reflexivity.
Qed.

(** A failing step makes [connect] return its error. *)
Lemma connect_step_fails cenv w :
  mainContext (txr w) <> ctx_nil ->
  step_fails cenv ->
  exists e w',
    connect cenv w = Ret (Some e) w' /\
    running (txr w') = running (txr w) /\
    mainContext (txr w') = mainContext (txr w) /\
    mutex (txr w') = mutex (txr w) /\
    opts (txr w') = opts (txr w).
Proof.
  intros Hctx Hf. unfold connect, bind, metadata_NewOutgoingContext, panic.
  break_world w. destruct cenv as [r1 r2 r3]. unfold step_fails in Hf. cbn in *.
  destruct Hf as [[e ->] | [[e ->] | [e ->]]].
  - eexists _, _. repeat split.
  - destruct r1; eexists _, _; repeat split.
  - destruct r1; [| eexists _, _; repeat split].
    destruct r2; [| eexists _, _; repeat split].
    destruct mainContext0; [congruence | |]; eexists _, _; repeat split.
Qed.

(** With no session a fetch starts by the whole of [connect]. *)
Lemma fetch_connects_first env w :
  mutex (txr w) = false ->
  running (txr w) = true ->
  mainContext (txr w) <> ctx_nil ->
  client (txr w) = None ->
  connects (on_connect env) ->
  exists c token tail,
    on_NewImmuClient (on_connect env) = Ok c /\
    on_Login (on_connect env) = Ok token /\
    trace (outcome_world (fetchNextTx env w)) =
      trace w ++
      [connecting_log;
       NewImmuClient (masterAddress (opts (txr w))) (masterPort (opts (txr w)));
       Login c (mainContext (txr w))
         (followerUsername (opts (txr w))) (followerPassword (opts (txr w)));
       UseDatabase c (NewOutgoingContext (mainContext (txr w)) "authorization" token)
         (masterDatabase (opts (txr w)));
       connected_log;
       CurrentState] ++ tail.
Proof.
  unfold connects. intros Hm Hr Hctx Hc ([c Hn] & [t1 Hl] & [t2 Hu]).
  exists c, t1.
  unfold fetchNextTx, Lock, defer_Unlock, bind, connect, metadata_NewOutgoingContext.
  break_world w. destruct env as [[r1 r2 r3] rs sy re rd ra]. cbn in *. subst.
  destruct mainContext0; [congruence | |]; simp_world.
  all: destruct rs as [st | e];
    [| eexists; split; [reflexivity |]; split; reflexivity].
  all: match goal with |- context [export_phase ?st ?env ?w] =>
         destruct (export_phase_trace st env w) as [tail Ht];
         destruct (export_phase st env w) end.
  all: cbn in *; rewrite Ht; rewrite <- ?app_assoc.
  all: eexists; split; [reflexivity |]; split; reflexivity.
Qed.

(** C10. If a step of [connect] (client creation, login or useDatabase)
    fails, the client handle is left as it was: a fetch that found it nil
    returns the error with the handle still nil, and the next fetch, once
    the remote side accepts, goes again through client creation, login and
    useDatabase before anything else. *)
Theorem connect_failure_keeps_client_nil (env : fetch_env) (w : world) :
  mutex (txr w) = false ->
  running (txr w) = true ->
  mainContext (txr w) <> ctx_nil ->
  client (txr w) = None ->
  step_fails (on_connect env) ->
  (exists e w0, connect (on_connect env) w = Ret (Some e) w0 /\ client (txr w0) = None) /\
  exists e w',
    fetchNextTx env w = Ret (Some e) w' /\
    client (txr w') = None /\
    forall env2, connects (on_connect env2) ->
      exists c token tail,
        on_NewImmuClient (on_connect env2) = Ok c /\
        on_Login (on_connect env2) = Ok token /\
        trace (outcome_world (fetchNextTx env2 w')) =
          trace w' ++
          [connecting_log;
           NewImmuClient (masterAddress (opts (txr w))) (masterPort (opts (txr w)));
           Login c (mainContext (txr w))
             (followerUsername (opts (txr w))) (followerPassword (opts (txr w)));
           UseDatabase c (NewOutgoingContext (mainContext (txr w)) "authorization" token)
             (masterDatabase (opts (txr w)));
           connected_log;
           CurrentState] ++ tail.
Proof.
  intros Hm Hr Hctx Hc Hf. split.
  - destruct (connect_step_fails (on_connect env) w Hctx Hf) as (e & w0 & H0 & _).
    exists e, w0. split; [exact H0 |].
    rewrite (connect_error_keeps_client _ _ _ _ H0). exact Hc.
  - pose (wl := upd_txr (set_mutex true) w).
    destruct (connect_step_fails (on_connect env) wl) as (e & w0 & H0 & Hr0 & Hc0 & Hm0 & Ho0);
      [exact Hctx | exact Hf |].
    pose proof (connect_error_keeps_client _ _ _ _ H0) as Hk.
    exists e, (unlock w0).
    assert (Hrun : fetchNextTx env w = Ret (Some e) (unlock w0)).
    { clear Hk Hr0 Hc0 Hm0 Ho0. subst wl.
      unfold fetchNextTx, Lock, defer_Unlock, bind.
      break_world w. simp_world. rewrite H0. reflexivity. }
    split; [exact Hrun |]. split; [cbn; rewrite Hk; exact Hc |].
    intros env2 Hok.
    assert (H1 : mutex (txr (unlock w0)) = false) by reflexivity.
    assert (H2 : running (txr (unlock w0)) = true) by (cbn; rewrite Hr0; exact Hr).
    assert (H3 : mainContext (txr (unlock w0)) <> ctx_nil) by (cbn; rewrite Hc0; exact Hctx).
    assert (H4 : client (txr (unlock w0)) = None) by (cbn; rewrite Hk; exact Hc).
    destruct (fetch_connects_first env2 (unlock w0) H1 H2 H3 H4 Hok)
      as (c & tok & tail & H5 & H6 & H7).
    exists c, tok, tail. split; [exact H5 |]. split; [exact H6 |].
    rewrite H7. cbn. rewrite Hc0, Ho0. reflexivity.
Qed.

Lemma connect_failure_keeps_client_nil_witness :
  step_fails SampleRemote.refuses_login /\
  exists e w',
    fetchNextTx (SampleRemote.answers SampleRemote.refuses_login false
                   (SampleRemote.stream SampleRemote.payload ∅)) Sample.started =
      Ret (Some e) w' /\
    client (txr w') = None.
Proof.
  assert (Hf : step_fails SampleRemote.refuses_login).
  { right. left. eexists. reflexivity. }
  split; [exact Hf |].
  destruct (connect_failure_keeps_client_nil
              (SampleRemote.answers SampleRemote.refuses_login false
                 (SampleRemote.stream SampleRemote.payload ∅))
              Sample.started eq_refl eq_refl)
    as [_ (e & w' & H1 & H2 & _)].
  - vm_compute. discriminate.
  - reflexivity.
  - exact Hf.
  - exists e, w'. split; assumption.
Defined.


(** ** Entering a fetch *)

Lemma session_events_silent pre :
  Forall (fun e => is_session e = true) pre ->
  requested pre = [] /\ allow_commits pre = [] /\ discards pre = [] /\
  replicated pre = [].
Proof.
  induction 1 as [| e pre He _ IH]; [repeat split |].
  destruct IH as (H1 & H2 & H3 & H4).
  destruct e; try discriminate He; cbn; auto.
Qed.

(** [connect] when the remote side accepts the three steps. *)
Lemma connect_accepted cenv w c token token2 :
  mainContext (txr w) <> ctx_nil ->
  on_NewImmuClient cenv = Ok c ->
  on_Login cenv = Ok token ->
  on_UseDatabase cenv = Ok token2 ->
  let ctx1 := NewOutgoingContext (mainContext (txr w)) "authorization" token in
  connect cenv w =
    Ret None
      (emit [connecting_log;
             NewImmuClient (masterAddress (opts (txr w))) (masterPort (opts (txr w)));
             Login c (mainContext (txr w))
               (followerUsername (opts (txr w))) (followerPassword (opts (txr w)));
             UseDatabase c ctx1 (masterDatabase (opts (txr w)));
             connected_log]
         (upd_txr (fun t => set_client (Some c)
                              (set_clientContext
                                 (NewOutgoingContext ctx1 "authorization" token2) t))
            w)).
Proof.
  intros Hctx Hn Hl Hu ctx1. subst ctx1.
  unfold connect, bind, metadata_NewOutgoingContext.
  destruct w as [t cs nx tr]. destruct t. cbn in Hctx |- *.
  rewrite Hn, Hl, Hu. clear Hn Hl Hu.
  destruct mainContext0; [congruence | |]; simp_world; reflexivity.
Qed.

(** [connect] never parks and never runs out of script. *)
Lemma connect_outcomes cenv w :
  (exists w', connect cenv w = Ret None w' /\ connects cenv /\
              mainContext (txr w) <> ctx_nil) \/
  (exists e w', connect cenv w = Ret (Some e) w') \/
  (exists msg w', connect cenv w = Panic msg w').
Proof.
  destruct (on_NewImmuClient cenv) as [c | e] eqn:Hn.
  2:{ right. left. destruct w as [t cs nx tr]. destruct t.
      unfold connect, bind. cbn. rewrite Hn. eexists _, _. reflexivity. }
  destruct (on_Login cenv) as [t1 | e] eqn:Hl.
  2:{ right. left. destruct w as [t cs nx tr]. destruct t.
      unfold connect, bind. cbn. rewrite Hn. cbn. rewrite Hl. eexists _, _. reflexivity. }
  destruct (decide (mainContext (txr w) = ctx_nil)) as [Hnil | Hctx].
  { right. right. destruct w as [t cs nx tr]. destruct t. cbn in Hnil. subst.
    unfold connect, bind. cbn. rewrite Hn. cbn. rewrite Hl. eexists _, _. reflexivity. }
  destruct (on_UseDatabase cenv) as [t2 | e] eqn:Hu.
  - left. eexists. split; [apply (connect_accepted cenv w c t1 t2); assumption |].
    split; [| exact Hctx]. repeat split; eexists; eassumption.
  - right. left. destruct w as [t cs nx tr]. destruct t. cbn in Hctx.
    unfold connect, bind, metadata_NewOutgoingContext. cbn. rewrite Hn. cbn. rewrite Hl.
    destruct mainContext0; [congruence | |]; cbn; rewrite Hu; eexists _, _; reflexivity.
Qed.

(** The first statements of [fetchNextTx] on a running replicator whose
    lock is free. *)
Lemma fetch_unfold env w :
  mutex (txr w) = false ->
  running (txr w) = true ->
  fetchNextTx env w =
    defer_Unlock
      (let* err := (match client (txr w) with
                    | None => connect (on_connect env)
                    | Some _ => ret None
                    end) in
       match err with
       | Some e => ret (Some e)
       | None =>
           call CurrentState ;;
           match on_CurrentState env with
           | Err e => ret (Some e)
           | Ok commitState => export_phase commitState env
           end
       end) (upd_txr (set_mutex true) w).
Proof.
  intros Hm Hr. unfold fetchNextTx, Lock, defer_Unlock, bind at 1 2.
  rewrite Hm. cbn. rewrite Hr. reflexivity.
Qed.

Lemma entered_connected w c :
  client (txr w) = Some c ->
  entered w (emit [CurrentState] (upd_txr (set_mutex true) w)).
Proof.
  intros Hc. unfold entered. destruct w as [t cs nx tr]. destruct t.
  cbn in Hc. subst. cbn. repeat split; [eexists; reflexivity |].
  exists []. split; [reflexivity | constructor].
Qed.

Lemma entered_connecting w c ctx evs :
  Forall (fun e => is_session e = true) evs ->
  entered w
    (emit [CurrentState]
       (emit evs
          (upd_txr (fun t => set_client (Some c) (set_clientContext ctx t))
             (upd_txr (set_mutex true) w)))).
Proof.
  intros Hevs. unfold entered. destruct w as [t cs nx tr]. destruct t.
  cbn. repeat split; [eexists; reflexivity |].
  exists evs. split; [rewrite <- app_assoc; reflexivity | exact Hevs].
Qed.

Lemma fetch_reaches_export env w st :
  can_fetch env w st ->
  exists w0, entered w w0 /\
             fetchNextTx env w = defer_Unlock (export_phase st env) w0.
Proof.
  intros (Hm & Hr & Hctx & Hc & Hs).
  rewrite (fetch_unfold env w Hm Hr).
  destruct (client (txr w)) as [c |] eqn:Hcl.
  - eexists. split; [apply (entered_connected w c Hcl) |].
    unfold defer_Unlock, bind. cbn. rewrite Hs. reflexivity.
  - destruct (Hc eq_refl) as ([c Hn] & [t1 Hl] & [t2 Hu]).
    eexists. split; [apply (entered_connecting w c); shelve |].
    unfold defer_Unlock, bind.
    rewrite (connect_accepted (on_connect env) (upd_txr (set_mutex true) w) c t1 t2 Hctx Hn Hl Hu).
    cbn. rewrite Hs. reflexivity.
    Unshelve. repeat constructor.
Qed.

(** Either a fetch gets as far as its export phase, or it ends early: with
    an error, parked on the lock, or in a panic. *)
Lemma fetch_cases env w :
  (exists st w0, on_CurrentState env = Ok st /\ mutex (txr w) = false /\
                 running (txr w) = true /\ entered w w0 /\
                 fetchNextTx env w = defer_Unlock (export_phase st env) w0) \/
  (exists e w1, fetchNextTx env w = Ret (Some e) w1) \/
  (exists w1, fetchNextTx env w = Parked WaitLock w1) \/
  (exists msg w1, fetchNextTx env w = Panic msg w1).
Proof.
  destruct (mutex (txr w)) eqn:Hm.
  { right. right. left. exists w. unfold fetchNextTx, Lock, bind. rewrite Hm. reflexivity. }
  destruct (running (txr w)) eqn:Hr.
  2:{ right. left. unfold fetchNextTx, Lock, defer_Unlock, bind. rewrite Hm. cbn.
      rewrite Hr. eexists _, _. reflexivity. }
  rewrite (fetch_unfold env w Hm Hr).
  destruct (client (txr w)) as [c |] eqn:Hcl.
  - destruct (on_CurrentState env) as [st | e] eqn:Hs.
    + left. exists st. eexists. do 3 (split; [reflexivity |]).
      split; [apply (entered_connected w c Hcl) |].
      unfold defer_Unlock, bind. cbn. rewrite ?Hs. reflexivity.
    + right. left. unfold defer_Unlock, bind. cbn. rewrite ?Hs. eexists _, _. reflexivity.
  - destruct (connect_outcomes (on_connect env) (upd_txr (set_mutex true) w))
      as [(w' & Hco & ([c Hn] & [t1 Hl] & [t2 Hu]) & Hctx) | [(e & w' & Hco) | (msg & w' & Hco)]].
    + clear Hco. destruct (on_CurrentState env) as [st | e] eqn:Hs.
      * left. exists st. eexists. do 3 (split; [reflexivity |]).
        split; [apply (entered_connecting w c); shelve |].
        unfold defer_Unlock, bind.
        rewrite (connect_accepted (on_connect env) (upd_txr (set_mutex true) w) c t1 t2 Hctx Hn Hl Hu).
        cbn. rewrite ?Hs. reflexivity.
        Unshelve. repeat constructor.
      * right. left. unfold defer_Unlock, bind.
        rewrite (connect_accepted (on_connect env) (upd_txr (set_mutex true) w) c t1 t2 Hctx Hn Hl Hu).
        cbn. rewrite ?Hs. eexists _, _. reflexivity.
    + right. left. unfold defer_Unlock, bind. rewrite Hco. eexists _, _. reflexivity.
    + right. right. right. unfold defer_Unlock, bind. rewrite Hco. eexists _, _. reflexivity.
Qed.

Lemma entered_frame w w0 :
  entered w w0 ->
  lastTx (txr w0) = lastTx (txr w) /\
  running (txr w0) = running (txr w) /\
  allowTxDiscarding (txr w0) = allowTxDiscarding (txr w) /\
  prefetchTxBuffer (txr w0) = prefetchTxBuffer (txr w) /\
  mainContext (txr w0) = mainContext (txr w) /\
  cancelFunc (txr w0) = cancelFunc (txr w) /\
  consecutiveFailures (txr w0) = consecutiveFailures (txr w) /\
  mutex (txr w0) = true /\
  cancelled w0 = cancelled w.
Proof.
  intros (Hf & _ & Hc & _). rewrite Hf. cbn. repeat split. exact Hc.
Qed.

Lemma entered_position w w0 st : entered w w0 -> position w0 st = position w st.
Proof.
  intros H. apply entered_frame in H as (H & _). unfold position. rewrite H. reflexivity.
Qed.

Lemma entered_silent w w0 :
  entered w w0 ->
  requested (trace w0) = requested (trace w) /\
  allow_commits (trace w0) = allow_commits (trace w) /\
  discards (trace w0) = discards (trace w).
Proof.
  intros (_ & _ & _ & _ & pre & Ht & Hpre).
  apply session_events_silent in Hpre as (H1 & H2 & H3 & _).
  rewrite Ht, !requested_app, !allow_commits_app, !discards_app, H1, H2, H3.
  cbn. rewrite !app_nil_r. auto.
Qed.

(** ** The export phase, path by path *)

Lemma export_commit_diverged st env w0 c e :
  client (txr w0) = Some c ->
  on_ExportTx env = Err e ->
  strings_Contains (Error e) commit_diverged = true ->
  export_phase st env w0 =
    Ret (Some ErrFollowerDivergedFromMaster)
      (emit [Errorf "follower commit state at '%s' diverged from master's"]
         (exported c st env w0)).
Proof.
  intros Hc He Hd. unfold export_phase, exported, request, position, bind.
  break_world w0. rewrite He, Hd.
  destruct (lastTx0 =? 0); simp_world; reflexivity.
Qed.

Lemma export_precommit_diverged st env w0 c e :
  client (txr w0) = Some c ->
  on_ExportTx env = Err e ->
  strings_Contains (Error e) commit_diverged = false ->
  strings_Contains (Error e) precommit_diverged = true ->
  allowTxDiscarding (txr w0) = true ->
  export_phase st env w0 =
    Ret (on_DiscardPrecommittedTxsSince env)
      (emit ([Infof "discarding precommit txs since %d from '%s'...";
              DiscardPrecommittedTxsSince (u64 (TxId st + 1))] ++
             match on_DiscardPrecommittedTxsSince env with
             | Some _ => []
             | None => [Infof "precommit txs successfully discarded from '%s'"]
             end)
         (exported c st env w0)).
Proof.
  intros Hc He Hd Hp Ha. unfold export_phase, exported, request, position, bind.
  break_world w0. rewrite He, Hd, Hp.
  destruct (lastTx0 =? 0), (on_DiscardPrecommittedTxsSince env); simp_world; reflexivity.
Qed.

Lemma export_stream st env w0 c s :
  client (txr w0) = Some c ->
  on_ExportTx env = Ok s ->
  ReadFully_err s = None \/ ReadFully_err s = Some io_EOF ->
  export_phase st env w0 =
    (let* r := (if on_IsSyncReplicationEnabled env
                then sync_trailer (Trailer s) (on_AllowCommitUpto env)
                else ret None) in
     match r with
     | Some e' => ret (Some e')
     | None => handoff (ReadFully_etx s)
     end) (exported c st env w0).
Proof.
  intros Hc He Hr. unfold export_phase, exported, request, position, bind.
  break_world w0. rewrite He.
  assert (Hb : bool_decide (ReadFully_err s <> None) &&
               bool_decide (ReadFully_err s <> Some io_EOF) = false).
  { destruct Hr as [-> | ->]; reflexivity. }
  rewrite Hb. destruct (lastTx0 =? 0); simp_world; reflexivity.
Qed.

(** ** The supervisor loop *)

Lemma fetcher_goroutine_step env tw rest w err w1 :
  fetchNextTx env w = Ret err w1 ->
  fetcher_goroutine ((env, tw) :: rest) w =
    if bool_decide (err = Some ErrAlreadyStopped) then Ret tt w1
    else if bool_decide (err = Some ErrFollowerDivergedFromMaster)
         then (Stop ;; ret tt) w1
         else (let* terminate := handleError err tw in
               if terminate : bool then ret tt else fetcher_goroutine rest) w1.
Proof.
  intros H. cbn. unfold bind at 1. rewrite H.
  repeat destruct (bool_decide _); reflexivity.
Qed.

(** [handleError] on an error, unfolded. *)
Lemma handleError_run e timer_wins w :
  mutex (txr w) = false ->
  mainContext (txr w) <> ctx_nil ->
  let n := int_wrap (consecutiveFailures (txr w) + 1) in
  let w1 := emit [backoff_log; NewTimer (delayer (txr w) n)]
              (upd_txr (fun t => set_mutex true (set_consecutiveFailures n t)) w) in
  handleError (Some e) timer_wins w =
    if ctx_done (cancelled w) (mainContext (txr w)) && negb timer_wins
    then Ret true (unlock (emit [TimerStop] w1))
    else match (if 3 <=? n then disconnect else ret tt) w1 with
         | Ret _ w2 => Ret false (unlock w2)
         | Panic msg w2 => Panic msg (unlock w2)
         | Parked p w2 => Parked p w2
         | More w2 => More w2
         end.
Proof.
  intros Hm Hctx n w1. subst n w1. break_world w.
  unfold handleError, defer_Unlock, bind, Lock, select_Done_or_timer. cbn.
  destruct mainContext0; [congruence | |]; cbn;
    destruct (_ && negb timer_wins); simp_world; try reflexivity;
    destruct (3 <=? _); try reflexivity;
    unfold disconnect, bind, get_txr; cbn; destruct client0; reflexivity.
Qed.

(** What [disconnect] leaves untouched. *)
Lemma disconnect_frame w w' :
  disconnect w = Ret tt w' ->
  txr w' = set_client None (txr w) /\
  cancelled w' = cancelled w /\
  requested (trace w') = requested (trace w) /\
  allow_commits (trace w') = allow_commits (trace w) /\
  discards (trace w') = discards (trace w).
Proof.
  unfold disconnect, bind, get_txr. break_world w. destruct client0; simp_world;
    intros H; inversion H; subst; cbn;
    rewrite ?requested_app, ?allow_commits_app, ?discards_app; cbn;
    rewrite ?app_nil_r; auto.
Qed.

(** When the cancellation case is not taken, [handleError] on an error
    returns continue; the replicator is as it was but for the failure
    counter and, from three failures on, the dropped session. *)
Lemma handleError_continues e timer_wins w :
  mutex (txr w) = false ->
  mainContext (txr w) <> ctx_nil ->
  ctx_done (cancelled w) (mainContext (txr w)) && negb timer_wins = false ->
  let n := int_wrap (consecutiveFailures (txr w) + 1) in
  exists w2,
    handleError (Some e) timer_wins w = Ret false w2 /\
    txr w2 = set_consecutiveFailures n
               (if 3 <=? n then set_client None (txr w) else txr w) /\
    requested (trace w2) = requested (trace w).
Proof.
  intros Hm Hctx Hsel n. rewrite handleError_run by assumption. rewrite Hsel.
  fold n. destruct (3 <=? n).
  - match goal with |- context [disconnect ?w1] =>
      destruct (disconnect_returns w1) as [w2 Hw2];
      destruct (disconnect_frame _ _ Hw2) as (H1 & _ & H2 & _) end.
    rewrite Hw2. exists (unlock w2). split; [reflexivity |]. split.
    + cbn. rewrite H1. break_world w. reflexivity.
    + change (trace (unlock w2)) with (trace w2). rewrite H2.
      cbn. rewrite requested_app. apply app_nil_r.
  - eexists. split; [reflexivity |]. split.
    + break_world w. reflexivity.
    + cbn. rewrite requested_app. apply app_nil_r.
Qed.


(** [Stop] asks nothing of the master. *)
Lemma Stop_requests w :
  requested (trace (outcome_world (Stop w))) = requested (trace w).
Proof.
  unfold Stop, Lock, defer_Unlock, bind, cancel, chan_close_op, disconnect, bind.
  break_world w.
  repeat (destruct_match; simp_world);
    rewrite ?requested_app; cbn; rewrite ?app_nil_r; reflexivity.
Qed.

(** [Stop] on a running replicator whose queue is open. *)
Lemma Stop_when_running w :
  mutex (txr w) = false ->
  running (txr w) = true ->
  closed (prefetchTxBuffer (txr w)) = false ->
  exists w',
    Stop w = Ret None w' /\
    running (txr w') = false /\
    client (txr w') = None /\
    closed (prefetchTxBuffer (txr w')) = true /\
    (forall id, cancelFunc (txr w) = Some id -> id ∈ cancelled w').
Proof.
  intros Hm Hr Hc.
  unfold Stop, Lock, defer_Unlock, bind, cancel, chan_close_op, disconnect, bind.
  break_world w. destruct prefetchTxBuffer0 as [b n cl]. cbn in Hc. subst cl.
  destruct cancelFunc0, client0; simp_world;
    (eexists; split; [reflexivity |]; cbn; repeat split;
     intros id' [= <-]; set_solver).
Qed.

(** ** Divergence of the committed state *)

(** C5. If the [ExportTx] call fails with a committed-state divergence
    error, [fetchNextTx] returns [ErrFollowerDivergedFromMaster]; the
    supervisor loop then calls [Stop] and returns, whatever the rest of
    its script: that [ExportTx] call is the last request it makes.  With
    the queue still open, [Stop] returns nil and leaves the replicator
    stopped. *)
Theorem committed_divergence_stops (env : fetch_env) (w : world)
    (st : ImmutableState) (e : error) :
  can_fetch env w st ->
  on_ExportTx env = Err e ->
  strings_Contains (Error e) commit_diverged = true ->
  exists w1,
    fetchNextTx env w = Ret (Some ErrFollowerDivergedFromMaster) w1 /\
    (forall timer_wins rest,
       fetcher_goroutine ((env, timer_wins) :: rest) w = (Stop ;; ret tt) w1 /\
       requested (trace (outcome_world
                           (fetcher_goroutine ((env, timer_wins) :: rest) w))) =
         requested (trace w) ++ [u64 (position w st + 1)]) /\
    (closed (prefetchTxBuffer (txr w)) = false ->
     exists w2, Stop w1 = Ret None w2 /\ running (txr w2) = false /\
                forall timer_wins rest,
                  fetcher_goroutine ((env, timer_wins) :: rest) w = Ret tt w2).
Proof.
  intros Hcan He Hd.
  destruct (fetch_reaches_export env w st Hcan) as (w0 & Hent & Hf).
  destruct Hent as (Hfr & [c Hc] & Hrest).
  pose proof (conj Hfr (conj (ex_intro _ c Hc) Hrest) : entered w w0) as Hent.
  pose proof (export_commit_diverged st env w0 c e Hc He Hd) as Hx.
  destruct (entered_frame _ _ Hent) as (Hl & Hr & _ & Hb & _).
  destruct (entered_silent _ _ Hent) as (Hq & _).
  destruct Hcan as (_ & Hrun & _).
  eexists. split; [rewrite Hf; unfold defer_Unlock; rewrite Hx; reflexivity |].
  assert (Hgo : forall timer_wins rest,
             fetcher_goroutine ((env, timer_wins) :: rest) w =
             (Stop ;; ret tt)
               (unlock (emit [Errorf "follower commit state at '%s' diverged from master's"]
                          (exported c st env w0)))).
  { intros tw rest. erewrite fetcher_goroutine_step
      by (rewrite Hf; unfold defer_Unlock; rewrite Hx; reflexivity).
    reflexivity. }
  split.
  - intros tw rest. split; [apply Hgo |]. rewrite Hgo. unfold bind.
    match goal with |- context [Stop ?w1] =>
      pose proof (Stop_requests w1) as Hs; destruct (Stop w1) end;
      cbn in Hs |- *; rewrite Hs, !requested_app, Hq;
      cbn; rewrite (entered_position _ _ st Hent), app_nil_r; reflexivity.
  - intros Hcl.
    match goal with |- context [Stop ?w1] =>
      destruct (Stop_when_running w1) as (w2 & H1 & H2 & _) end.
    + reflexivity.
    + cbn. rewrite Hr. exact Hrun.
    + cbn. rewrite Hb. exact Hcl.
    + exists w2. split; [exact H1 |]. split; [exact H2 |].
      intros tw rest. rewrite Hgo. unfold bind. rewrite H1. reflexivity.
Qed.

Lemma sample_can_fetch sync x :
  can_fetch (SampleRemote.answers SampleRemote.accepts sync x) Sample.started
    SampleRemote.state_3_5.
Proof.
  repeat split; try reflexivity.
  - vm_compute. discriminate.
  - eexists; reflexivity.
  - eexists; reflexivity.
  - eexists; reflexivity.
Defined.

Lemma committed_divergence_stops_witness :
  exists w2,
    fetcher_goroutine
      [(SampleRemote.answers SampleRemote.accepts false
          (Err SampleErrors.commit_divergence), true);
       (SampleRemote.answers SampleRemote.accepts false
          (SampleRemote.stream SampleRemote.payload ∅), true)]
      Sample.started = Ret tt w2 /\
    running (txr w2) = false /\
    requested (trace w2) = [6].
Proof.
  destruct (committed_divergence_stops
              (SampleRemote.answers SampleRemote.accepts false
                 (Err SampleErrors.commit_divergence))
              Sample.started SampleRemote.state_3_5 SampleErrors.commit_divergence
              (sample_can_fetch _ _) eq_refl eq_refl)
    as (w1 & _ & Hloop & Hstop).
  destruct (Hstop eq_refl) as (w2 & _ & Hr & Hgo).
  exists w2. split; [apply Hgo |]. split; [exact Hr |].
  destruct (Hloop true
              [(SampleRemote.answers SampleRemote.accepts false
                  (SampleRemote.stream SampleRemote.payload ∅), true)])
    as [_ Hq].
  rewrite Hgo in Hq. exact Hq.
Defined.


Lemma handleError_nil timer_wins w :
  mutex (txr w) = false ->
  handleError None timer_wins w = Ret false (upd_txr (set_consecutiveFailures 0) w).
Proof. intros Hm. break_world w. reflexivity. Qed.

(** ** Divergence of the precommitted state *)




(** ** The sync-replication trailer *)

Lemma sync_trailer_missing md allow w :
  md_Get md txid_key = [] \/ md_Get md alh_key = [] ->
  sync_trailer md allow w = Ret (Some not_sync_error) w.
Proof.
  intros H. unfold sync_trailer.
  assert (Hb : (length (md_Get md txid_key) =? 0)%nat ||
               (length (md_Get md alh_key) =? 0)%nat = true).
  { destruct H as [-> | ->]; cbn; [reflexivity | apply orb_true_r]. }
  rewrite Hb. reflexivity.
Qed.

(** C7. In sync mode, when the trailer of the [ExportTx] response lacks
    [may-commit-up-to-txid-bin] or [may-commit-up-to-alh-bin],
    [fetchNextTx] returns an error that is neither
    [ErrFollowerDivergedFromMaster] nor [ErrAlreadyStopped]; nothing is
    committed or enqueued; the supervisor loop hands the error to
    [handleError] and, unless cancelled during the backoff, goes on with
    the replicator still running and one more consecutive failure. *)
Theorem missing_trailer_is_retryable (env : fetch_env) (w : world)
    (st : ImmutableState) (s : ExportTxStream) :
  can_fetch env w st ->
  on_ExportTx env = Ok s ->
  ReadFully_err s = None \/ ReadFully_err s = Some io_EOF ->
  on_IsSyncReplicationEnabled env = true ->
  md_Get (Trailer s) txid_key = [] \/ md_Get (Trailer s) alh_key = [] ->
  exists w1,
    fetchNextTx env w = Ret (Some not_sync_error) w1 /\
    not_sync_error <> ErrFollowerDivergedFromMaster /\
    not_sync_error <> ErrAlreadyStopped /\
    allow_commits (trace w1) = allow_commits (trace w) /\
    prefetchTxBuffer (txr w1) = prefetchTxBuffer (txr w) /\
    lastTx (txr w1) = position w st /\
    forall timer_wins rest,
      fetcher_goroutine ((env, timer_wins) :: rest) w =
        (let* terminate := handleError (Some not_sync_error) timer_wins in
         if terminate : bool then ret tt else fetcher_goroutine rest) w1 /\
      (ctx_done (cancelled w) (mainContext (txr w)) && negb timer_wins = false ->
       exists w2,
         handleError (Some not_sync_error) timer_wins w1 = Ret false w2 /\
         running (txr w2) = true /\
         consecutiveFailures (txr w2) = int_wrap (consecutiveFailures (txr w) + 1) /\
         fetcher_goroutine ((env, timer_wins) :: rest) w = fetcher_goroutine rest w2).
Proof.
  intros Hcan He Hread Hsync Hmiss.
  destruct (fetch_reaches_export env w st Hcan) as (w0 & Hent & Hf).
  destruct Hent as (Hfr & [c Hc] & Hrest).
  pose proof (conj Hfr (conj (ex_intro _ c Hc) Hrest) : entered w w0) as Hent.
  destruct (entered_frame _ _ Hent) as (Hl & Hr & Hal & Hb & Hmc & _ & Hcf & _ & Hcs).
  destruct (entered_silent _ _ Hent) as (_ & Hq & _).
  destruct Hcan as (_ & Hrun & Hctx & _).
  pose proof (export_stream st env w0 c s Hc He Hread) as Hx.
  rewrite Hsync in Hx. unfold bind in Hx. rewrite sync_trailer_missing in Hx by exact Hmiss.
  assert (Hfetch : fetchNextTx env w =
            Ret (Some not_sync_error) (unlock (exported c st env w0))).
  { rewrite Hf. unfold defer_Unlock. rewrite Hx. reflexivity. }
  eexists. split; [exact Hfetch |].
  split; [discriminate |]. split; [discriminate |].
  split; [cbn; rewrite allow_commits_app, Hq; cbn; apply app_nil_r |].
  split; [cbn; exact Hb |].
  split; [cbn; apply entered_position; exact Hent |].
  intros tw rest.
  assert (Hgo : fetcher_goroutine ((env, tw) :: rest) w =
            (let* terminate := handleError (Some not_sync_error) tw in
             if terminate : bool then ret tt else fetcher_goroutine rest)
              (unlock (exported c st env w0))).
  { rewrite (fetcher_goroutine_step _ _ _ _ _ _ Hfetch). reflexivity. }
  split; [exact Hgo |].
  intros Hsel.
  destruct (handleError_continues not_sync_error tw (unlock (exported c st env w0)))
    as (w2 & H1 & H2 & _).
  - reflexivity.
  - cbn. rewrite Hmc. exact Hctx.
  - cbn. rewrite Hmc, Hcs. exact Hsel.
  - exists w2. split; [exact H1 |].
    split; [rewrite H2; cbn; destruct (3 <=? _); cbn; rewrite Hr; exact Hrun |].
    split; [rewrite H2; cbn; rewrite Hcf; reflexivity |].
    rewrite Hgo. unfold bind. rewrite H1. reflexivity.
Qed.

Lemma missing_trailer_is_retryable_witness :
  exists w1 w2,
    fetchNextTx (SampleRemote.answers SampleRemote.accepts true
                   (SampleRemote.stream SampleRemote.payload ∅)) Sample.started =
      Ret (Some not_sync_error) w1 /\
    handleError (Some not_sync_error) true w1 = Ret false w2 /\
    running (txr w2) = true /\
    consecutiveFailures (txr w2) = 1.
Proof.
  destruct (missing_trailer_is_retryable
              (SampleRemote.answers SampleRemote.accepts true
                 (SampleRemote.stream SampleRemote.payload ∅))
              Sample.started SampleRemote.state_3_5
              {| ReadFully_etx := SampleRemote.payload; ReadFully_err := None;
                 Trailer := ∅ |}
              (sample_can_fetch _ _) eq_refl (or_introl eq_refl) eq_refl
              ltac:(left; vm_compute; reflexivity))
    as (w1 & H1 & _ & _ & _ & _ & _ & Hloop).
  destruct (Hloop true []) as [_ Hgo].
  destruct Hgo as (w2 & H2 & H3 & H4 & _); [reflexivity |].
  exists w1, w2. repeat split; assumption.
Defined.


Lemma sync_trailer_present md allow w v vs a al id :
  md_Get md txid_key = v :: vs ->
  md_Get md alh_key = a :: al ->
  BigEndian_Uint64 v = Some id ->
  sync_trailer md allow w =
    if 0 <? id then
      match allow with
      | Some e =>
          if strings_Contains (Error e) commit_diverged then
            Ret (Some ErrFollowerDivergedFromMaster)
              (emit [AllowCommitUpto id (copy_alh a);
                     Errorf "follower commit state at '%s' diverged from master's"] w)
          else Ret (Some e) (emit [AllowCommitUpto id (copy_alh a)] w)
      | None => Ret None (emit [AllowCommitUpto id (copy_alh a)] w)
      end
    else Ret None w.
Proof.
  intros Hv Ha Hid. unfold sync_trailer. rewrite Hv, Ha.
  change ((length (v :: vs) =? 0)%nat || (length (a :: al) =? 0)%nat) with false.
  cbn. rewrite Hid.
  destruct (0 <? id); [| reflexivity].
  unfold bind, call, emit. destruct allow as [e |]; [| reflexivity].
  destruct (strings_Contains _ _); cbn; rewrite <- ?app_assoc; reflexivity.
Qed.

(** [handoff] calls no collaborator but the channel. *)
Lemma handoff_silent etx w :
  allow_commits (trace (outcome_world (handoff etx w))) = allow_commits (trace w) /\
  requested (trace (outcome_world (handoff etx w))) = requested (trace w) /\
  discards (trace (outcome_world (handoff etx w))) = discards (trace w).
Proof.
  unfold handoff, bind, chan_send. destruct w as [t cs nx tr]. destruct t. cbn.
  destruct (0 <? length etx)%nat; cbn; [| auto].
  destruct (closed prefetchTxBuffer0); cbn; [auto |].
  destruct (length (buf prefetchTxBuffer0) <? cap prefetchTxBuffer0)%nat; cbn; [| auto].
  rewrite allow_commits_app, requested_app, discards_app. cbn.
  rewrite !app_nil_r. auto.
Qed.

Lemma copy_alh_exact a : length a = sha256_Size -> copy_alh a = a.
Proof.
  intros H. unfold copy_alh. rewrite take_app_length'; [reflexivity | symmetry; exact H].
Qed.

Lemma copy_alh_length a : length (copy_alh a) = sha256_Size.
Proof.
  unfold copy_alh. rewrite length_take, length_app, length_replicate. lia.
Qed.

(** C4. In sync mode with both trailer keys present (and a tx id value
    long enough to decode), [fetchNextTx] calls [AllowCommitUpto] exactly
    when the big-endian tx id of the trailer is greater than 0, and then
    once, with that tx id and the trailer's hash copied into 32 bytes (the
    hash itself when it has 32 bytes); a committed-state divergence
    error from that call makes [fetchNextTx] return
    [ErrFollowerDivergedFromMaster], with nothing enqueued. *)
Theorem allow_commit_from_trailer (env : fetch_env) (w : world)
    (st : ImmutableState) (s : ExportTxStream) (v a : bytes) (vs al : list bytes)
    (id : Z) :
  can_fetch env w st ->
  on_ExportTx env = Ok s ->
  ReadFully_err s = None \/ ReadFully_err s = Some io_EOF ->
  on_IsSyncReplicationEnabled env = true ->
  md_Get (Trailer s) txid_key = v :: vs ->
  md_Get (Trailer s) alh_key = a :: al ->
  BigEndian_Uint64 v = Some id ->
  allow_commits (trace (outcome_world (fetchNextTx env w))) =
    allow_commits (trace w) ++ (if 0 <? id then [(id, copy_alh a)] else []) /\
  (length a = sha256_Size -> copy_alh a = a) /\
  (0 < id ->
   forall e, on_AllowCommitUpto env = Some e ->
     strings_Contains (Error e) commit_diverged = true ->
     exists w1,
       fetchNextTx env w = Ret (Some ErrFollowerDivergedFromMaster) w1 /\
       prefetchTxBuffer (txr w1) = prefetchTxBuffer (txr w) /\
       lastTx (txr w1) = position w st).
Proof.
  intros Hcan He Hread Hsync Hv Ha Hid.
  destruct (fetch_reaches_export env w st Hcan) as (w0 & Hent & Hf).
  destruct Hent as (Hfr & [c Hc] & Hrest).
  pose proof (conj Hfr (conj (ex_intro _ c Hc) Hrest) : entered w w0) as Hent.
  destruct (entered_frame _ _ Hent) as (_ & _ & _ & Hb & _).
  destruct (entered_silent _ _ Hent) as (_ & Hq & _).
  pose proof (export_stream st env w0 c s Hc He Hread) as Hx.
  rewrite Hsync in Hx. unfold bind in Hx.
  rewrite (sync_trailer_present _ _ _ v vs a al id Hv Ha Hid) in Hx.
  assert (Hq0 : allow_commits (trace (exported c st env w0)) = allow_commits (trace w)).
  { cbn. rewrite allow_commits_app, Hq. cbn. apply app_nil_r. }
  rewrite Hf. unfold defer_Unlock. rewrite Hx. clear Hx Hf.
  split; [| split; [apply copy_alh_exact |]].
  - destruct (0 <? id).
    + destruct (on_AllowCommitUpto env) as [e |].
      * destruct (strings_Contains _ _); cbn [outcome_world unlock emit trace ret];
          rewrite allow_commits_app, Hq0; reflexivity.
      * match goal with |- context [handoff ?x ?y] =>
          destruct (handoff_silent x y) as (Hh & _); destruct (handoff x y) end;
          cbn [outcome_world unlock emit trace ret] in Hh |- *;
          rewrite Hh, allow_commits_app, Hq0; reflexivity.
    + match goal with |- context [handoff ?x ?y] =>
        destruct (handoff_silent x y) as (Hh & _); destruct (handoff x y) end;
        cbn [outcome_world unlock emit trace ret] in Hh |- *;
        rewrite Hh, Hq0, app_nil_r; reflexivity.
  - intros Hpos e Hal Hdiv.
    assert (Hlt : (0 <? id) = true) by (apply Z.ltb_lt; exact Hpos).
    rewrite Hlt, Hal, Hdiv. eexists. split; [reflexivity |].
    split; [cbn; exact Hb | cbn; apply entered_position; exact Hent].
Qed.

Lemma allow_commit_from_trailer_witness :
  allow_commits
    (trace (outcome_world
              (fetchNextTx (SampleRemote.answers SampleRemote.accepts true
                              (SampleRemote.stream [] SampleTrailer.hint_10))
                 Sample.started))) =
  [(10, SampleTrailer.alh)].
Proof.
  destruct (allow_commit_from_trailer
              (SampleRemote.answers SampleRemote.accepts true
                 (SampleRemote.stream [] SampleTrailer.hint_10))
              Sample.started SampleRemote.state_3_5
              {| ReadFully_etx := []; ReadFully_err := None;
                 Trailer := SampleTrailer.hint_10 |}
              SampleTrailer.txid_10 SampleTrailer.alh [] [] 10
              (sample_can_fetch _ _) eq_refl (or_introl eq_refl) eq_refl
              ltac:(vm_compute; reflexivity) ltac:(vm_compute; reflexivity)
              ltac:(vm_compute; reflexivity))
    as (H & _).
  rewrite H. vm_compute. reflexivity.
Defined.


(** ** Sequences of fetches *)

Lemma sync_trailer_frame md allow w r w' :
  sync_trailer md allow w = Ret r w' ->
  txr w' = txr w /\ requested (trace w') = requested (trace w).
Proof.
  unfold sync_trailer, bind, panic, call. destruct w as [t cs nx tr]. cbn.
  repeat (destruct_match; cbn); intros H; inversion H; subst; cbn;
    rewrite ?requested_app; cbn; rewrite ?app_nil_r; auto.
Qed.

Lemma handoff_returns etx w r w' :
  handoff etx w = Ret r w' ->
  r = None /\
  requested (trace w') = requested (trace w) /\
  lastTx (txr w') = (if (0 <? length etx)%nat then u64 (lastTx (txr w) + 1)
                     else lastTx (txr w)) /\
  mutex (txr w') = mutex (txr w).
Proof.
  unfold handoff, bind, chan_send. destruct w as [t cs nx tr]. destruct t. cbn.
  destruct (0 <? length etx)%nat; cbn; [| intros H; inversion H; auto].
  destruct (closed prefetchTxBuffer0); cbn; [discriminate |].
  destruct (length (buf prefetchTxBuffer0) <? cap prefetchTxBuffer0)%nat; cbn;
    [| discriminate].
  intros H; inversion H; subst; cbn. rewrite requested_app. cbn.
  rewrite app_nil_r. auto.
Qed.

(** What an export phase that returns nil has done. *)
Lemma export_phase_nil st env w0 w' :
  is_Some (client (txr w0)) ->
  export_phase st env w0 = Ret None w' ->
  requested (trace w') = requested (trace w0) ++ [u64 (position w0 st + 1)] /\
  lastTx (txr w') = (if delivers env then u64 (position w0 st + 1)
                     else position w0 st) /\
  mutex (txr w') = mutex (txr w0).
Proof.
  intros [c Hc] Hrun. unfold delivers.
  assert (Hex : requested (trace (exported c st env w0)) =
                requested (trace w0) ++ [u64 (position w0 st + 1)]).
  { cbn. rewrite requested_app. reflexivity. }
  destruct (on_ExportTx env) as [s | e] eqn:He.
  - destruct (decide (ReadFully_err s = None \/ ReadFully_err s = Some io_EOF))
      as [Hread | Hread].
    + rewrite (export_stream st env w0 c s Hc He Hread) in Hrun.
      unfold bind in Hrun.
      destruct (on_IsSyncReplicationEnabled env).
      * destruct (sync_trailer _ _ _) as [[e' |] w1 | | |] eqn:Hs; try discriminate Hrun.
        apply sync_trailer_frame in Hs as (Ht & Hq).
        apply handoff_returns in Hrun as (_ & H1 & H2 & H3).
        rewrite H1, Hq, Hex, H2, H3, Ht. cbn.
        destruct (0 <? length _)%nat; auto.
      * cbn in Hrun. apply handoff_returns in Hrun as (_ & H1 & H2 & H3).
        rewrite H1, Hex, H2, H3. cbn. destruct (0 <? length _)%nat; auto.
    + exfalso. unfold export_phase, bind in Hrun.
      destruct w0 as [t cs nx tr]. destruct t. cbn in Hc, Hrun. subst.
      rewrite He in Hrun.
      destruct (ReadFully_err s) as [e |] eqn:Hr; [| tauto].
      destruct (decide (e = io_EOF)) as [-> | Hne]; [tauto |].
      rewrite !bool_decide_eq_true_2 in Hrun by congruence.
      destruct (lastTx0 =? 0); cbn in Hrun; discriminate Hrun.
  - destruct (strings_Contains (Error e) commit_diverged) eqn:Hd.
    { rewrite (export_commit_diverged st env w0 c e Hc He Hd) in Hrun. discriminate. }
    destruct (strings_Contains (Error e) precommit_diverged) eqn:Hp.
    + destruct (allowTxDiscarding (txr w0)) eqn:Ha.
      * rewrite (export_precommit_diverged st env w0 c e Hc He Hd Hp Ha) in Hrun.
        inversion Hrun; subst. cbn. rewrite !requested_app. cbn.
        destruct (on_DiscardPrecommittedTxsSince env); cbn; rewrite !app_nil_r; auto.
      * exfalso. unfold export_phase, bind in Hrun.
        destruct w0 as [t cs nx tr]. destruct t. cbn in Hc, Ha, Hrun. subst.
        rewrite He, Hd, Hp in Hrun.
        destruct (lastTx0 =? 0); cbn in Hrun; discriminate Hrun.
    + exfalso. unfold export_phase, bind in Hrun.
      destruct w0 as [t cs nx tr]. destruct t. cbn in Hc, Hrun. subst.
      rewrite He, Hd, Hp in Hrun.
      destruct (lastTx0 =? 0); cbn in Hrun; discriminate Hrun.
Qed.

(** What a fetch that returns nil has done: one request, for the tx after
    its position, and [lastTx] left at the position, plus one when a
    payload was delivered. *)
Lemma fetch_nil env w w' :
  fetchNextTx env w = Ret None w' ->
  exists st,
    on_CurrentState env = Ok st /\
    requested (trace w') = requested (trace w) ++ [u64 (position w st + 1)] /\
    lastTx (txr w') = (if delivers env then u64 (position w st + 1)
                       else position w st) /\
    mutex (txr w') = false.
Proof.
  intros Hrun.
  destruct (fetch_cases env w)
    as [(st & w0 & Hs & Hm & Hr & Hent & Hf) | [(e & w1 & Hf) | [(w1 & Hf) | (msg & w1 & Hf)]]];
    try (rewrite Hf in Hrun; discriminate Hrun).
  exists st. split; [exact Hs |].
  rewrite Hf in Hrun. unfold defer_Unlock in Hrun.
  destruct (export_phase st env w0) as [r w1 | | |] eqn:Hx; try discriminate Hrun.
  inversion Hrun; subst. clear Hrun.
  pose proof Hent as (_ & Hc & _).
  destruct (export_phase_nil st env w0 w1 Hc Hx) as (H1 & H2 & _).
  destruct (entered_silent _ _ Hent) as (Hq & _).
  rewrite (entered_position _ _ st Hent) in H1, H2.
  unfold unlock. cbn [trace txr lastTx mutex set_mutex].
  rewrite H1, Hq, H2. auto.
Qed.


Lemma delivered_cons env envs :
  delivered (env :: envs) = (if delivers env then 1 else 0) + delivered envs.
Proof.
  unfold delivered. cbn. destruct (delivers env); cbn [length]; lia.
Qed.

Lemma delivered_nonneg envs : 0 <= delivered envs.
Proof. unfold delivered. lia. Qed.

Lemma request_ids_length k envs : length (request_ids k envs) = length envs.
Proof.
  revert k. induction envs as [| env envs IH]; intros k; cbn; [| rewrite IH]; reflexivity.
Qed.

Lemma request_ids_lookup k envs i env :
  envs !! i = Some env ->
  request_ids k envs !! i = Some (k + 1 + delivered (take i envs)).
Proof.
  revert k i. induction envs as [| env0 envs IH]; intros k i H; [discriminate |].
  destruct i as [| i]; cbn in *.
  - f_equal. unfold delivered. cbn. lia.
  - rewrite (IH _ _ H), delivered_cons. f_equal. destruct (delivers env0); lia.
Qed.

Lemma request_ids_all_delivered k envs :
  Forall (fun env => delivers env = true) envs ->
  request_ids k envs = seqZ (k + 1) (Z.of_nat (length envs)).
Proof.
  revert k. induction envs as [| env envs IH]; intros k H; [reflexivity |].
  inversion H as [| ? ? Hd Hrest]; subst. cbn [request_ids length].
  rewrite Hd, (IH _ Hrest), Nat2Z.inj_succ.
  rewrite (seqZ_cons (k + 1)) by lia.
  rewrite Z.pred_succ. f_equal.
Qed.

Lemma appliers_receive_frame n w w' :
  appliers_receive n w = Ret tt w' ->
  lastTx (txr w') = lastTx (txr w) /\ trace w' = trace w.
Proof.
  revert w. induction n as [| n IH]; intros w; cbn.
  - intros H; inversion H; auto.
  - unfold bind, chan_recv. destruct w as [t cs nx tr]. destruct t. cbn.
    destruct (buf prefetchTxBuffer0); cbn.
    + destruct (closed prefetchTxBuffer0); [| discriminate].
      intros H. apply IH in H. exact H.
    + intros H. apply IH in H. exact H.
Qed.

(** Runs of error-free fetches, from a position [k] that is either
    [lastTx] or, with [lastTx] still 0, the first sample. *)
Lemma fetch_sequence_from script :
  forall w w' errs k,
    fetch_iterations script w = Ret errs w' ->
    Forall (fun err => err = None) errs ->
    0 <= k ->
    k + Z.of_nat (length script) < 2 ^ 64 ->
    lastTx (txr w) = k \/
      (lastTx (txr w) = 0 /\ exists n env rest, script = (n, env) :: rest /\ sampled env = k) ->
    (forall i env, script.*2 !! i = Some env ->
                   k + delivered (take i script.*2) = 0 -> sampled env = 0) ->
    requested (trace w') = requested (trace w) ++ request_ids k script.*2 /\
    (script <> [] -> lastTx (txr w') = k + delivered script.*2).
Proof.
  induction script as [| [n env] rest IH]; intros w w' errs k Hrun Hnil Hk Hmax Hstart Hquiet.
  - cbn in Hrun. inversion Hrun; subst. cbn. rewrite app_nil_r. split; [reflexivity | tauto].
  - cbn [fetch_iterations] in Hrun. unfold bind in Hrun.
    destruct (appliers_receive n w) as [[] wa | | |] eqn:Ha; try discriminate Hrun.
    destruct (fetchNextTx env wa) as [err w1 | | |] eqn:Hf; try discriminate Hrun.
    destruct (fetch_iterations rest w1) as [errs' w2 | | |] eqn:Hr; try discriminate Hrun.
    inversion Hrun; subst. clear Hrun.
    inversion Hnil as [| ? ? Herr Hnil']; subst.
    apply appliers_receive_frame in Ha as (Hl & Ht).
    destruct (fetch_nil env wa w1 Hf) as (st & Hs & Hq & Hlast & _).
    assert (Hsam : sampled env = PrecommittedTxId st) by (unfold sampled; rewrite Hs; reflexivity).
    assert (Hpos : position wa st = k).
    { unfold position. rewrite Hl.
      destruct Hstart as [Hw | (Hw & n' & env' & rest' & Heq & Hsk)].
      - destruct (Z.eqb_spec (lastTx (txr w)) 0) as [H0 | H0]; [| exact Hw].
        rewrite <- Hsam, <- Hw, H0. apply (Hquiet 0%nat env); [reflexivity |].
        cbn. unfold delivered. cbn. lia.
      - rewrite Hw. cbn. inversion Heq; subst. symmetry. exact Hsam. }
    rewrite Hpos in Hq, Hlast. cbn [length] in Hmax.
    rewrite u64_small in Hq, Hlast by lia.
    set (k' := if delivers env then k + 1 else k) in *.
    assert (Hk' : 0 <= k' /\ k' + Z.of_nat (length rest) < 2 ^ 64
                  /\ k' = k + (if delivers env then 1 else 0)).
    { subst k'. destruct (delivers env); lia. }
    destruct Hk' as (Hk0 & Hk1 & Hk2).
    destruct (IH w1 w' errs' k' Hr Hnil' Hk0 Hk1) as (Hq' & Hl').
    + left. exact Hlast.
    + intros i env' Hi Hz. apply (Hquiet (S i) env'); [exact Hi |].
      cbn [fmap list_fmap snd take]. rewrite delivered_cons. change (list_fmap _ _ snd rest) with (rest.*2). lia.
    + split.
      * rewrite Hq', Hq, Ht, <- app_assoc. reflexivity.
      * intros _. cbn [fmap list_fmap snd]. change (list_fmap _ _ snd rest) with (rest.*2).
        rewrite delivered_cons.
        destruct rest as [| p rest'].
        -- cbn in Hr. inversion Hr; subst. rewrite Hlast. unfold delivered. cbn. lia.
        -- rewrite Hl' by discriminate. lia.
Qed.


(** C2, as the code has it.  Over any run of fetches that all return nil
    (tx ids staying below 2^64, and the local store reporting nothing
    precommitted for as long as the fetcher itself is at 0), with [k] the
    initial [lastTx], or the first sampled precommitted tx id when
    [lastTx] is 0: the i-th fetch asks for [k + 1 +] the number of earlier
    fetches that delivered a non-empty payload.  So the requested ids
    never skip one, they are [k+1, k+2, ...] without repeat when every
    fetch delivers a payload, and a fetch that delivers none is followed
    by a request for the same id; [lastTx] ends at [k] plus the number of
    delivered payloads. *)
Theorem fetch_sequence (script : list (nat * fetch_env)) (w w' : world)
    (errs : list (option error)) :
  fetch_iterations script w = Ret errs w' ->
  Forall (fun err => err = None) errs ->
  let envs := script.*2 in
  let k := initial_position w envs in
  0 <= k ->
  k + Z.of_nat (length envs) < 2 ^ 64 ->
  (forall i env, envs !! i = Some env ->
                 k + delivered (take i envs) = 0 -> sampled env = 0) ->
  exists ids,
    requested (trace w') = requested (trace w) ++ ids /\
    length ids = length envs /\
    (forall i env, envs !! i = Some env ->
                   ids !! i = Some (k + 1 + delivered (take i envs))) /\
    (Forall (fun env => delivers env = true) envs ->
     ids = seqZ (k + 1) (Z.of_nat (length envs))) /\
    lastTx (txr w') = k + delivered envs.
Proof.
  intros Hrun Hnil envs k Hk Hmax Hquiet.
  assert (Hstart : lastTx (txr w) = k \/
            (lastTx (txr w) = 0 /\
             exists n env rest, script = (n, env) :: rest /\ sampled env = k)).
  { subst k envs. unfold initial_position.
    destruct (Z.eqb_spec (lastTx (txr w)) 0) as [H0 | H0]; [| left; reflexivity].
    destruct script as [| [n env] rest]; [left; exact H0 |].
    right. split; [exact H0 |]. exists n, env, rest. split; reflexivity. }
  assert (Hlen : length envs = length script) by (subst envs; apply length_fmap).
  destruct (fetch_sequence_from script w w' errs k Hrun Hnil Hk) as (Hq & Hl);
    [rewrite <- Hlen; exact Hmax | exact Hstart | exact Hquiet |].
  exists (request_ids k envs). split; [exact Hq |].
  split; [apply request_ids_length |].
  split; [intros i env Hi; apply (request_ids_lookup k envs i env Hi) |].
  split; [apply request_ids_all_delivered |].
  destruct script as [| p rest].
  - cbn in Hrun. inversion Hrun; subst. subst k envs. unfold initial_position, delivered.
    cbn. destruct (Z.eqb_spec (lastTx (txr w')) 0); lia.
  - apply Hl. discriminate.
Qed.

Lemma fetch_sequence_witness :
  exists ids,
    requested (trace (outcome_world (fetch_iterations SampleRun.script Sample.started))) =
      requested (trace Sample.started) ++ ids /\
    length ids = 3%nat /\
    lastTx (txr (outcome_world (fetch_iterations SampleRun.script Sample.started))) =
      5 + delivered SampleRun.script.*2.
Proof.
  destruct (fetch_sequence SampleRun.script Sample.started
              (outcome_world (fetch_iterations SampleRun.script Sample.started))
              [None; None; None])
    as (ids & H1 & H2 & _ & _ & H3).
  - vm_compute. reflexivity.
  - repeat constructor.
  - vm_compute. discriminate.
  - vm_compute. reflexivity.
  - intros i env _ H. exfalso.
    pose proof (delivered_nonneg (take i SampleRun.script.*2)) as Hn.
    change (initial_position Sample.started SampleRun.script.*2) with 5 in H. lia.
  - exists ids. split; [exact H1 |]. split; [exact H2 | exact H3].
Defined.

(** C2, as the claim puts it, fails: two error-free fetches, the first
    answered with an empty payload, ask for the same tx id twice. *)
Lemma empty_payload_repeats_request :
  exists w',
    fetch_iterations SampleRun.hints Sample.started = Ret [None; None] w' /\
    requested (trace w') = [6; 6] /\
    ~ NoDup (requested (trace w')).
Proof.
  exists (outcome_world (fetch_iterations SampleRun.hints Sample.started)).
  split; [vm_compute; reflexivity |].
  assert (H : requested (trace (outcome_world
                 (fetch_iterations SampleRun.hints Sample.started))) = [6; 6])
    by (vm_compute; reflexivity).
  split; [exact H |]. rewrite H. intros Hn. apply NoDup_cons in Hn as [Hin _].
  apply Hin. left.
Qed.


(** ** The applier workers *)

Lemma timers_app tr1 tr2 : timers (tr1 ++ tr2) = timers tr1 ++ timers tr2.
Proof. apply omap_app. Qed.

Lemma applier_retry_replicated err timer_wins rest etx n w :
  classify err = Replicated ->
  applier_retry ((err, timer_wins) :: rest) etx n w =
    applier_goroutine rest (emit [ReplicateTx etx] w).
Proof. intros H. cbn. unfold bind at 1. cbn. rewrite H. reflexivity. Qed.

Lemma applier_retry_stopped err timer_wins rest etx n w :
  classify err = WorkerStopped ->
  applier_retry ((err, timer_wins) :: rest) etx n w = Ret tt (emit [ReplicateTx etx] w).
Proof. intros H. cbn. unfold bind at 1. cbn. rewrite H. reflexivity. Qed.

Lemma applier_retry_failed err timer_wins rest etx n w :
  classify err = Failed ->
  mainContext (txr w) <> ctx_nil ->
  let n' := int_wrap (n + 1) in
  let w1 := emit [ReplicateTx etx; replicate_failed_log; NewTimer (delayer (txr w) n')] w in
  applier_retry ((err, timer_wins) :: rest) etx n w =
    if ctx_done (cancelled w) (mainContext (txr w)) && negb timer_wins
    then Ret tt (emit [TimerStop] w1)
    else applier_retry rest etx n' w1.
Proof.
  intros H Hctx n' w1. subst n' w1. cbn [applier_retry]. unfold bind at 1. cbn.
  rewrite H. unfold bind, call, get_txr, select_Done_or_timer, emit. cbn.
  destruct w as [t cs nx tr]. cbn in *.
  destruct (mainContext t) eqn:Hm; [congruence | |];
    destruct (_ && negb timer_wins); cbn; rewrite <- ?app_assoc; reflexivity.
Qed.

(** A run of failed calls, none of whose backoffs is cancelled, leaves the
    worker holding the same payload with its counter raised by their
    number; the replicator itself is untouched. *)
Lemma applier_retry_failing fails :
  forall rest etx n w,
    Forall (fun f => classify (Some (fst f)) = Failed) fails ->
    mainContext (txr w) <> ctx_nil ->
    ctx_done (cancelled w) (mainContext (txr w)) = false ->
    0 <= n -> n + Z.of_nat (length fails) < 2 ^ 63 ->
    exists w1,
      applier_retry (failing fails ++ rest) etx n w =
        applier_retry rest etx (n + Z.of_nat (length fails)) w1 /\
      txr w1 = txr w /\ cancelled w1 = cancelled w /\
      replicated (trace w1) = replicated (trace w) ++ replicate (length fails) etx /\
      timers (trace w1) =
        timers (trace w) ++
        map (fun i => delayer (txr w) (n + i)) (seqZ 1 (Z.of_nat (length fails))).
Proof.
  induction fails as [| [e tw] fails IH]; intros rest etx n w Hf Hctx Hdone Hn Hmax.
  - exists w. cbn. rewrite Z.add_0_r, !app_nil_r. auto.
  - inversion Hf as [| ? ? He Hf']; subst. cbn [fst] in He. cbn [length] in Hmax.
    cbn [failing map app fst snd].
    rewrite (applier_retry_failed (Some e) tw _ etx n w He Hctx). rewrite Hdone. cbn [andb].
    rewrite int_wrap_small by lia.
    match goal with |- context [applier_retry _ etx (n + 1) ?w0] =>
      destruct (IH rest etx (n + 1) w0 Hf') as (w1 & Hrun & Ht & Hc & Hr & Htm) end;
      try assumption; try lia.
    fold (failing fails). exists w1. split; [rewrite Hrun; f_equal; cbn [length]; lia |].
    split; [exact Ht |]. split; [exact Hc |]. split.
    + rewrite Hr. cbn [trace emit]. rewrite replicated_app, <- app_assoc. reflexivity.
    + rewrite Htm. cbn [trace emit txr]. rewrite timers_app, <- app_assoc.
      cbn [length]. rewrite Nat2Z.inj_succ.
      rewrite (seqZ_cons 1 (Z.succ (Z.of_nat (length fails)))) by lia.
      rewrite Z.pred_succ. cbn [map]. f_equal. cbn. f_equal.
      rewrite <- (fmap_add_seqZ 1 1). rewrite <- list_fmap_compose.
      apply list_fmap_ext. intros _ i _. cbn. f_equal. lia.
Qed.

(** An applier only ever touches the queue of the replicator. *)
Lemma applier_retry_frame script :
  forall etx n w,
    let w' := outcome_world (applier_retry script etx n w) in
    consecutiveFailures (txr w') = consecutiveFailures (txr w) /\
    lastTx (txr w') = lastTx (txr w) /\
    running (txr w') = running (txr w) /\
    client (txr w') = client (txr w) /\
    cancelled w' = cancelled w.
Proof.
  induction script as [| [err tw] script IH]; intros etx n w; [cbn; auto |].
  cbn [applier_retry]. unfold bind at 1. cbn.
  destruct (classify err).
  - unfold bind, chan_recv. destruct w as [t cs nx tr]. destruct t. cbn.
    destruct (buf prefetchTxBuffer0) as [| etx' b]; cbn.
    + destruct (closed prefetchTxBuffer0); cbn; auto.
    + match goal with |- context [applier_retry script etx' 0 ?w0] =>
        destruct (IH etx' 0 w0) as (H1 & H2 & H3 & H4 & H5) end.
      cbn in *. auto.
  - cbn. auto.
  - unfold bind, call, get_txr, select_Done_or_timer. destruct w as [t cs nx tr]. cbn.
    destruct (mainContext t) eqn:Hm; [cbn; auto | |];
      destruct (_ && negb tw); cbn; auto;
      match goal with |- context [applier_retry script etx ?k ?w0] =>
        destruct (IH etx k w0) as (H1 & H2 & H3 & H4 & H5) end; cbn in *; auto.
Qed.


Lemma classify_replicated err :
  err = None \/
    (exists e, err = Some e /\ e <> ErrAlreadyStopped /\
               strings_Contains (Error e) tx_already_committed = true) ->
  classify err = Replicated.
Proof.
  intros [-> | (e & -> & Hne & Hc)]; [reflexivity |].
  unfold classify. rewrite bool_decide_eq_false_2 by exact Hne. rewrite Hc. reflexivity.
Qed.

Lemma classify_failed e :
  e <> ErrAlreadyStopped ->
  strings_Contains (Error e) tx_already_committed = false ->
  classify (Some e) = Failed.
Proof.
  intros Hne Hc. unfold classify.
  rewrite bool_decide_eq_false_2 by exact Hne. rewrite Hc. reflexivity.
Qed.

Lemma applier_goroutine_frame script w :
  let w' := outcome_world (applier_goroutine script w) in
  consecutiveFailures (txr w') = consecutiveFailures (txr w) /\
  lastTx (txr w') = lastTx (txr w) /\
  running (txr w') = running (txr w) /\
  client (txr w') = client (txr w) /\
  cancelled w' = cancelled w.
Proof.
  unfold applier_goroutine, bind, chan_recv. destruct w as [t cs nx tr]. destruct t. cbn.
  destruct (buf prefetchTxBuffer0) as [| etx b]; cbn.
  - destruct (closed prefetchTxBuffer0); cbn; auto.
  - match goal with |- context [applier_retry script etx 0 ?w0] =>
      destruct (applier_retry_frame script etx 0 w0) as (H1 & H2 & H3 & H4 & H5) end.
    cbn in *. auto.
Qed.

(** C8. An applier holding a payload calls [ReplicateTx] again after each
    call that fails with an error other than [ErrAlreadyStopped] whose
    text does not contain "tx already committed", waiting [delayer 1],
    [delayer 2], ... in between, until the call succeeds or fails with an
    error that contains "tx already committed": then it takes the next
    payload off the queue, with its counter back at 0.  It returns on
    [ErrAlreadyStopped], and on cancellation during a backoff.  Its
    counter is a local variable: no run of an applier changes the
    replicator's [consecutiveFailures]. *)
Theorem applier_retries_until_applied (fails : list (error * bool))
    (err : option error) (timer_wins : bool) (rest : list (option error * bool))
    (etx : bytes) (w : world) :
  mainContext (txr w) <> ctx_nil ->
  ctx_done (cancelled w) (mainContext (txr w)) = false ->
  Forall (fun f => fst f <> ErrAlreadyStopped /\
                   strings_Contains (Error (fst f)) tx_already_committed = false) fails ->
  Z.of_nat (length fails) < 2 ^ 63 ->
  let script := failing fails ++ (err, timer_wins) :: rest in
  (err = None \/
     (exists e, err = Some e /\ e <> ErrAlreadyStopped /\
                strings_Contains (Error e) tx_already_committed = true) ->
   exists w1,
     applier_retry script etx 0 w = applier_goroutine rest w1 /\
     txr w1 = txr w /\
     replicated (trace w1) = replicated (trace w) ++ replicate (S (length fails)) etx /\
     timers (trace w1) =
       timers (trace w) ++ map (delayer (txr w)) (seqZ 1 (Z.of_nat (length fails)))) /\
  (err = Some ErrAlreadyStopped ->
   exists w1, applier_retry script etx 0 w = Ret tt w1 /\ txr w1 = txr w) /\
  (forall e n w',
     e <> ErrAlreadyStopped ->
     strings_Contains (Error e) tx_already_committed = false ->
     mainContext (txr w') <> ctx_nil ->
     ctx_done (cancelled w') (mainContext (txr w')) = true ->
     applier_retry ((Some e, false) :: rest) etx n w' =
       Ret tt (emit [ReplicateTx etx; replicate_failed_log;
                     NewTimer (delayer (txr w') (int_wrap (n + 1))); TimerStop] w')) /\
  (forall any,
     consecutiveFailures (txr (outcome_world (applier_goroutine any w))) =
     consecutiveFailures (txr w)).
Proof.
  intros Hctx Hlive Hfails Hmax script. subst script.
  assert (Hfails' : Forall (fun f => classify (Some (fst f)) = Failed) fails).
  { eapply Forall_impl; [exact Hfails |]. intros f [H1 H2]. apply classify_failed; assumption. }
  destruct (applier_retry_failing fails ((err, timer_wins) :: rest) etx 0 w
              Hfails' Hctx Hlive) as (w1 & Hrun & Ht & Hc & Hr & Htm); [lia | lia |].
  rewrite Z.add_0_l in Hrun.
  split; [| split; [| split]].
  - intros Hok. apply classify_replicated in Hok.
    exists (emit [ReplicateTx etx] w1). rewrite Hrun.
    split; [apply applier_retry_replicated; exact Hok |].
    split; [exact Ht |]. split.
    + cbn [trace emit]. rewrite replicated_app, Hr, <- app_assoc.
      f_equal. cbn [length replicate]. rewrite replicate_cons_app. reflexivity.
    + cbn [trace emit]. rewrite timers_app, Htm. cbn. rewrite app_nil_r.
      f_equal.
  - intros ->. exists (emit [ReplicateTx etx] w1). rewrite Hrun.
    split; [apply applier_retry_stopped; reflexivity | exact Ht].
  - intros e n w' Hne Hnc Hc' Hd.
    rewrite (applier_retry_failed (Some e) false rest etx n w'
               (classify_failed e Hne Hnc) Hc'), Hd.
    cbn [andb negb]. unfold emit. cbn. rewrite <- app_assoc. reflexivity.
  - intros any. apply applier_goroutine_frame.
Qed.

Lemma applier_retries_until_applied_witness :
  exists w1,
    applier_retry
      [(Some SampleApplier.busy, true); (Some SampleApplier.busy, true);
       (Some SampleApplier.already, true)]
      SampleRemote.payload 0 Sample.started = applier_goroutine [] w1 /\
    replicated (trace w1) = replicate 3 SampleRemote.payload /\
    timers (trace w1) = [500; 1000].
Proof.
  destruct (applier_retries_until_applied
              [(SampleApplier.busy, true); (SampleApplier.busy, true)]
              (Some SampleApplier.already) true [] SampleRemote.payload Sample.started)
    as (H & _).
  - vm_compute. discriminate.
  - vm_compute. reflexivity.
  - repeat constructor; first [discriminate | vm_compute; reflexivity].
  - cbn. lia.
  - destruct H as (w1 & H1 & _ & H2 & H3).
    + right. exists SampleApplier.already.
      split; [reflexivity |]. split; [discriminate | vm_compute; reflexivity].
    + exists w1. split; [exact H1 |]. split; [exact H2 | exact H3].
Defined.


(** ** Blocking waits and the cancellation token *)

(** C3, as the claim puts it, fails: the fetcher parks on the send into a
    full queue; [Stop] then cancels the token and parks on the lock the
    fetcher holds; with the token cancelled the send is still parked. *)
Lemma send_not_unblocked_by_cancel :
  exists w1 w2,
    fetchNextTx SampleRun.payload_fetch SampleFull.full =
      Parked (WaitSend SampleRemote.payload) w1 /\
    Stop w1 = Parked WaitLock w2 /\
    ctx_done (cancelled w2) (mainContext (txr w2)) = true /\
    defer_Unlock (handoff SampleRemote.payload) w2 =
      Parked (WaitSend SampleRemote.payload) w2.
Proof.
  exists (outcome_world (fetchNextTx SampleRun.payload_fetch SampleFull.full)).
  exists (outcome_world
            (Stop (outcome_world (fetchNextTx SampleRun.payload_fetch SampleFull.full)))).
  split; [vm_compute; reflexivity |]. split; [vm_compute; reflexivity |].
  split; vm_compute; reflexivity.
Qed.

Lemma chan_send_full etx w :
  closed (prefetchTxBuffer (txr w)) = false ->
  (cap (prefetchTxBuffer (txr w)) <= length (buf (prefetchTxBuffer (txr w))))%nat ->
  chan_send etx w = Parked (WaitSend etx) w.
Proof.
  intros Hc Hfull. unfold chan_send. rewrite Hc.
  destruct (Nat.ltb_spec (length (buf (prefetchTxBuffer (txr w))))
              (cap (prefetchTxBuffer (txr w)))); [lia | reflexivity].
Qed.

Lemma chan_recv_empty w :
  buf (prefetchTxBuffer (txr w)) = [] ->
  chan_recv w = if closed (prefetchTxBuffer (txr w)) then Ret None w
                else Parked WaitRecv w.
Proof. intros Hb. unfold chan_recv. rewrite Hb. reflexivity. Qed.

Lemma handoff_full etx w :
  (0 < length etx)%nat ->
  closed (prefetchTxBuffer (txr w)) = false ->
  (cap (prefetchTxBuffer (txr w)) <= length (buf (prefetchTxBuffer (txr w))))%nat ->
  handoff etx w = Parked (WaitSend etx) w.
Proof.
  intros Hne Hc Hfull. unfold handoff, bind.
  rewrite (proj2 (Nat.ltb_lt _ _) Hne), (chan_send_full etx w Hc Hfull). reflexivity.
Qed.

(** The contexts [connect] hands to [Login] and [UseDatabase], and the
    one it stores, are the main context and contexts made from it. *)
Lemma connect_contexts cenv w :
  exists evs,
    trace (outcome_world (connect cenv w)) = trace w ++ evs /\
    Forall (fun ctx => ctx_root ctx = ctx_root (mainContext (txr w))) (call_contexts evs) /\
    (forall w', connect cenv w = Ret None w' ->
       (exists c c' ctx user password db,
          call_contexts evs = [mainContext (txr w); ctx] /\
          In (Login c (mainContext (txr w)) user password) evs /\
          In (UseDatabase c' ctx db) evs) /\
       ctx_root (clientContext (txr w')) = ctx_root (mainContext (txr w))).
Proof.
  destruct (on_NewImmuClient cenv) as [c | e] eqn:Hn.
  2:{ destruct w as [t cs nx tr]. destruct t.
      unfold connect, bind. cbn. rewrite Hn. unfold ret. cbn. rewrite <- ?app_assoc.
      eexists. split; [reflexivity |].
      split; [constructor | discriminate]. }
  destruct (on_Login cenv) as [t1 | e] eqn:Hl.
  2:{ destruct w as [t cs nx tr]. destruct t.
      unfold connect, bind. cbn. rewrite Hn. cbn. rewrite Hl. unfold ret. cbn.
      rewrite <- ?app_assoc. eexists. split; [reflexivity |].
      split; [repeat constructor | discriminate]. }
  destruct (decide (mainContext (txr w) = ctx_nil)) as [Hnil | Hctx].
  { destruct w as [t cs nx tr]. destruct t. cbn in Hnil. subst.
    unfold connect, bind. cbn. rewrite Hn. cbn. rewrite Hl. unfold panic. cbn.
    rewrite <- ?app_assoc. eexists. split; [reflexivity |].
    split; [repeat constructor | discriminate]. }
  destruct (on_UseDatabase cenv) as [t2 | e] eqn:Hu.
  - rewrite (connect_accepted cenv w c t1 t2 Hctx Hn Hl Hu).
    eexists. split; [reflexivity |]. split; [repeat constructor |].
    intros w' H. inversion H; subst. split; [| reflexivity].
    eexists _, _, _, _, _, _. split; [reflexivity |].
    split; [right; right; left; reflexivity | right; right; right; left; reflexivity].
  - destruct w as [t cs nx tr]. destruct t as [? ? ? mc ? ? ? ? ? ? ? ? ? ? ?]. cbn in Hctx.
    unfold connect, bind, metadata_NewOutgoingContext. cbn. rewrite Hn. cbn. rewrite Hl.
    destruct mc; [congruence | |]; cbn; rewrite Hu; unfold ret; cbn;
      rewrite <- ?app_assoc; (eexists; split; [reflexivity |]);
      (split; [repeat constructor | discriminate]).
Qed.

Lemma Stop_closes_queue w :
  mutex (txr w) = false ->
  running (txr w) = true ->
  closed (prefetchTxBuffer (txr w)) = false ->
  exists w',
    Stop w = Ret None w' /\
    prefetchTxBuffer (txr w') = chan_close (prefetchTxBuffer (txr w)).
Proof.
  intros Hm Hr Hc.
  unfold Stop, Lock, defer_Unlock, bind, cancel, chan_close_op, disconnect, bind.
  destruct w as [t cs nx tr].
  destruct t as [? ? ? ? cf cl ? ? [b n clo] ? ? ? ? ? ?]. cbn in *. subst.
  destruct cf, cl; simp_world; (eexists; split; reflexivity).
Qed.

Lemma applier_goroutine_empty script w :
  buf (prefetchTxBuffer (txr w)) = [] ->
  applier_goroutine script w =
    if closed (prefetchTxBuffer (txr w)) then Ret tt w else Parked WaitRecv w.
Proof.
  intros Hb. unfold applier_goroutine, bind. rewrite (chan_recv_empty w Hb).
  destruct (closed _); reflexivity.
Qed.

(** A fetch whose payload is not empty, on a full open queue: it parks on
    the send, holding the lock. *)
Lemma fetch_parks_on_send env w st s :
  can_fetch env w st ->
  on_ExportTx env = Ok s ->
  ReadFully_err s = None \/ ReadFully_err s = Some io_EOF ->
  (on_IsSyncReplicationEnabled env = true ->
   exists v vs a al id,
     md_Get (Trailer s) txid_key = v :: vs /\
     md_Get (Trailer s) alh_key = a :: al /\
     BigEndian_Uint64 v = Some id /\
     (0 < id -> on_AllowCommitUpto env = None)) ->
  (0 < length (ReadFully_etx s))%nat ->
  closed (prefetchTxBuffer (txr w)) = false ->
  (cap (prefetchTxBuffer (txr w)) <= length (buf (prefetchTxBuffer (txr w))))%nat ->
  exists w1,
    fetchNextTx env w = Parked (WaitSend (ReadFully_etx s)) w1 /\
    mutex (txr w1) = true /\
    mainContext (txr w1) = mainContext (txr w) /\
    cancelled w1 = cancelled w /\
    prefetchTxBuffer (txr w1) = prefetchTxBuffer (txr w).
Proof.
  intros Hcan Hx Hr Hsync Hne Hopen Hfull.
  destruct (fetch_reaches_export env w st Hcan) as (w0 & Hent & Hf).
  destruct (entered_frame _ _ Hent) as (_ & _ & _ & Hq & Hmc & _ & _ & Hm & Hcs).
  destruct Hent as (Hfr & [c Hc] & Hrest).
  rewrite Hf. unfold defer_Unlock. rewrite (export_stream st env w0 c s Hc Hx Hr).
  assert (Hpark : forall w', prefetchTxBuffer (txr w') = prefetchTxBuffer (txr w) ->
            handoff (ReadFully_etx s) w' = Parked (WaitSend (ReadFully_etx s)) w').
  { intros w' Hq'. apply handoff_full; [exact Hne | |]; rewrite Hq'; assumption. }
  assert (Hdone : forall evs,
            let w1 := emit evs (exported c st env w0) in
            mutex (txr w1) = true /\
            mainContext (txr w1) = mainContext (txr w) /\
            cancelled w1 = cancelled w /\
            prefetchTxBuffer (txr w1) = prefetchTxBuffer (txr w)).
  { intros evs. cbn. auto. }
  assert (Hdone0 : let w1 := exported c st env w0 in
            mutex (txr w1) = true /\
            mainContext (txr w1) = mainContext (txr w) /\
            cancelled w1 = cancelled w /\
            prefetchTxBuffer (txr w1) = prefetchTxBuffer (txr w)).
  { cbn. auto. }
  destruct (on_IsSyncReplicationEnabled env) eqn:Hs.
  - destruct (Hsync eq_refl) as (v & vs & a & al & id & Hv & Ha & Hid & Hal).
    unfold bind. rewrite (sync_trailer_present _ _ _ v vs a al id Hv Ha Hid).
    destruct (Z.ltb_spec 0 id) as [Hpos | Hz].
    + rewrite (Hal Hpos). rewrite Hpark by apply Hdone.
      eexists. split; [reflexivity | apply Hdone].
    + rewrite Hpark by apply Hdone0. eexists. split; [reflexivity | apply Hdone0].
  - unfold bind, ret.
    rewrite Hpark by apply Hdone0. eexists. split; [reflexivity | apply Hdone0].
Qed.

(** C3, as the code has it.  With the token cancelled: the backoff wait of
    [handleError] and that of an applier are selects on the token and the
    timer, and end at once (terminate, worker exit, timer stopped) unless
    the timer's case is taken; the contexts [connect] hands to [Login]
    and [UseDatabase], and the one it stores for the later calls, descend
    from the token.  The fetcher's send and the appliers' receive are
    plain channel operations: a fetch with a non-empty payload for a full
    open queue parks on the send, holding the lock, and is parked again
    when it resumes while the queue is still full; an applier parks on
    the receive from an empty open queue, at its start and after a
    payload it has applied.  What releases the receive is the closing of
    the queue, which [Stop] does: on an empty closed queue the applier
    returns. *)
Theorem waits_and_cancellation (w : world) :
  mainContext (txr w) <> ctx_nil ->
  ctx_done (cancelled w) (mainContext (txr w)) = true ->
  let q := prefetchTxBuffer (txr w) in
  (mutex (txr w) = false ->
   forall e, exists w', handleError (Some e) false w = Ret true w' /\
                        timers (trace w') <> timers (trace w) /\
                        last (trace w') = Some TimerStop) /\
  (forall e rest etx n,
     e <> ErrAlreadyStopped ->
     strings_Contains (Error e) tx_already_committed = false ->
     exists w', applier_retry ((Some e, false) :: rest) etx n w = Ret tt w' /\
                last (trace w') = Some TimerStop) /\
  (forall cenv,
     exists evs,
       trace (outcome_world (connect cenv w)) = trace w ++ evs /\
       Forall (fun ctx => ctx_root ctx = ctx_root (mainContext (txr w)))
         (call_contexts evs) /\
       (forall w', connect cenv w = Ret None w' ->
          (exists c c' ctx user password db,
             call_contexts evs = [mainContext (txr w); ctx] /\
             In (Login c (mainContext (txr w)) user password) evs /\
             In (UseDatabase c' ctx db) evs) /\
          ctx_root (clientContext (txr w')) = ctx_root (mainContext (txr w)))) /\
  (forall env st s,
     can_fetch env w st ->
     on_ExportTx env = Ok s ->
     ReadFully_err s = None \/ ReadFully_err s = Some io_EOF ->
     (on_IsSyncReplicationEnabled env = true ->
      exists v vs a al id,
        md_Get (Trailer s) txid_key = v :: vs /\
        md_Get (Trailer s) alh_key = a :: al /\
        BigEndian_Uint64 v = Some id /\
        (0 < id -> on_AllowCommitUpto env = None)) ->
     (0 < length (ReadFully_etx s))%nat ->
     closed q = false ->
     (cap q <= length (buf q))%nat ->
     exists w1,
       fetchNextTx env w = Parked (WaitSend (ReadFully_etx s)) w1 /\
       mutex (txr w1) = true /\
       ctx_done (cancelled w1) (mainContext (txr w1)) = true /\
       defer_Unlock (handoff (ReadFully_etx s)) w1 =
         Parked (WaitSend (ReadFully_etx s)) w1) /\
  (buf q = [] ->
   (forall script,
      applier_goroutine script w = if closed q then Ret tt w else Parked WaitRecv w) /\
   (forall err timer_wins rest etx n,
      err = None \/
        (exists e, err = Some e /\ e <> ErrAlreadyStopped /\
                   strings_Contains (Error e) tx_already_committed = true) ->
      applier_retry ((err, timer_wins) :: rest) etx n w =
        if closed q then Ret tt (emit [ReplicateTx etx] w)
        else Parked WaitRecv (emit [ReplicateTx etx] w))) /\
  (mutex (txr w) = false ->
   running (txr w) = true ->
   closed q = false ->
   exists w', Stop w = Ret None w' /\
              closed (prefetchTxBuffer (txr w')) = true /\
              (buf q = [] -> forall script, applier_goroutine script w' = Ret tt w')).
Proof.
  intros Hctx Hdone q. subst q.
  split; [| split; [| split; [| split; [| split]]]].
  - intros Hm e. rewrite (handleError_run e false w Hm Hctx), Hdone. cbn [andb negb].
    eexists. split; [reflexivity |]. split.
    + cbn [trace unlock emit]. rewrite !timers_app. cbn.
      intros H. apply (f_equal length) in H. rewrite !length_app in H.
      cbn in H. unfold timers in H. lia.
    + cbn [trace unlock emit]. apply last_snoc.
  - intros e rest etx n Hne Hnc.
    rewrite (applier_retry_failed (Some e) false rest etx n w
               (classify_failed e Hne Hnc) Hctx), Hdone.
    cbn [andb negb]. eexists. split; [reflexivity |].
    cbn [trace emit]. apply last_snoc.
  - intros cenv. apply connect_contexts.
  - intros env st s Hcan Hx Hr Hsync Hne Hopen Hfull.
    destruct (fetch_parks_on_send env w st s Hcan Hx Hr Hsync Hne Hopen Hfull)
      as (w1 & Hf & Hm & Hmc & Hcs & Hq).
    exists w1. split; [exact Hf |]. split; [exact Hm |]. split.
    + rewrite Hmc, Hcs. exact Hdone.
    + unfold defer_Unlock. rewrite handoff_full; [reflexivity | exact Hne | |];
        rewrite Hq; assumption.
  - intros Hb. split.
    + intros script. apply applier_goroutine_empty. exact Hb.
    + intros err tw rest etx n Hok.
      rewrite (applier_retry_replicated err tw rest etx n w (classify_replicated err Hok)).
      rewrite applier_goroutine_empty by exact Hb. reflexivity.
  - intros Hm Hr Hopen.
    destruct (Stop_closes_queue w Hm Hr Hopen) as (w' & Hs & Hq).
    exists w'. split; [exact Hs |]. rewrite Hq. split; [reflexivity |].
    intros Hb script. rewrite applier_goroutine_empty by (rewrite Hq; exact Hb).
    rewrite Hq. reflexivity.
Qed.

Lemma waits_and_cancellation_witness :
  (exists w', handleError (Some SampleErrors.unavailable) false SampleFull.cancelled_full =
                Ret true w') /\
  (exists w1, fetchNextTx SampleRun.payload_fetch SampleFull.cancelled_full =
                Parked (WaitSend SampleRemote.payload) w1 /\
              mutex (txr w1) = true).
Proof.
  destruct (waits_and_cancellation SampleFull.cancelled_full)
    as (H1 & _ & _ & H4 & _).
  - vm_compute. discriminate.
  - vm_compute. reflexivity.
  - split.
    + destruct (H1 eq_refl SampleErrors.unavailable) as (w' & Hw & _).
      exists w'. exact Hw.
    + destruct (H4 SampleRun.payload_fetch SampleRemote.state_3_5
                  {| ReadFully_etx := SampleRemote.payload; ReadFully_err := None;
                     Trailer := ∅ |})
        as (w1 & Hf & Hm & _).
      * split; [reflexivity |]. split; [reflexivity |].
        split; [vm_compute; discriminate |].
        split; [intros Hcl; discriminate Hcl | reflexivity].
      * reflexivity.
      * left. reflexivity.
      * intros Hsy. discriminate Hsy.
      * cbn. lia.
      * reflexivity.
      * vm_compute. lia.
      * exists w1. split; [exact Hf | exact Hm].
Defined.


(** * Further properties of the replicator *)

(** ** Errors a fetch passes on *)

Lemma export_other_error st env w0 c e :
  client (txr w0) = Some c ->
  on_ExportTx env = Err e ->
  strings_Contains (Error e) commit_diverged = false ->
  strings_Contains (Error e) precommit_diverged = false ->
  export_phase st env w0 = Ret (Some e) (exported c st env w0).
Proof.
  intros Hc He Hd Hp. unfold export_phase, exported, request, position, bind.
  break_world w0. rewrite He, Hd, Hp.
  destruct (lastTx0 =? 0); simp_world; reflexivity.
Qed.

Lemma export_precommit_fatal st env w0 c e :
  client (txr w0) = Some c ->
  on_ExportTx env = Err e ->
  strings_Contains (Error e) commit_diverged = false ->
  strings_Contains (Error e) precommit_diverged = true ->
  allowTxDiscarding (txr w0) = false ->
  export_phase st env w0 =
    Ret (Some ErrFollowerDivergedFromMaster)
      (emit [Errorf "follower precommit state at '%s' diverged from master's"]
         (exported c st env w0)).
Proof.
  intros Hc He Hd Hp Ha. unfold export_phase, exported, request, position, bind.
  break_world w0. rewrite He, Hd, Hp.
  destruct (lastTx0 =? 0); simp_world; reflexivity.
Qed.

Lemma export_read_error st env w0 c s e :
  client (txr w0) = Some c ->
  on_ExportTx env = Ok s ->
  ReadFully_err s = Some e ->
  e <> io_EOF ->
  export_phase st env w0 = Ret (Some e) (exported c st env w0).
Proof.
  intros Hc He Hr Hne. unfold export_phase, exported, request, position, bind.
  break_world w0. rewrite He, Hr.
  rewrite !bool_decide_eq_true_2 by congruence.
  destruct (lastTx0 =? 0); simp_world; reflexivity.
Qed.

(** What every fetch that got as far as [ExportTx] and then returned
    without entering the trailer or the handoff has in common. *)
Lemma fetch_ends_after_export env w st w0 c r evs :
  entered w w0 ->
  client (txr w0) = Some c ->
  fetchNextTx env w = defer_Unlock (export_phase st env) w0 ->
  export_phase st env w0 = Ret r (emit evs (exported c st env w0)) ->
  requested evs = [] -> allow_commits evs = [] -> discards evs = [] ->
  exists w1,
    fetchNextTx env w = Ret r w1 /\
    requested (trace w1) = requested (trace w) ++ [u64 (position w st + 1)] /\
    allow_commits (trace w1) = allow_commits (trace w) /\
    discards (trace w1) = discards (trace w) /\
    prefetchTxBuffer (txr w1) = prefetchTxBuffer (txr w) /\
    lastTx (txr w1) = position w st /\
    mutex (txr w1) = false /\
    running (txr w1) = running (txr w).
Proof.
  intros Hent Hc Hf Hx H1 H2 H3.
  destruct (entered_frame _ _ Hent) as (_ & Hr & _ & Hb & _).
  destruct (entered_silent _ _ Hent) as (Hq1 & Hq2 & Hq3).
  eexists. split; [rewrite Hf; unfold defer_Unlock; rewrite Hx; reflexivity |].
  cbn [trace txr unlock emit exported upd_txr].
  rewrite !requested_app, !allow_commits_app, !discards_app, H1, H2, H3, Hq1, Hq2, Hq3.
  cbn. rewrite !(entered_position _ _ st Hent), !app_nil_r.
  repeat split; try reflexivity; assumption.
Qed.

(** An [ExportTx] error that signals no divergence, and an error of
    [ReadFully] other than [io.EOF], are returned as they are: one request
    was made, the local store was asked for nothing more, nothing was
    enqueued and [lastTx] stays at the position. *)
Theorem fetch_returns_transient_error (env : fetch_env) (w : world)
    (st : ImmutableState) (e : error) :
  can_fetch env w st ->
  (on_ExportTx env = Err e /\
   strings_Contains (Error e) commit_diverged = false /\
   strings_Contains (Error e) precommit_diverged = false) \/
  (exists s, on_ExportTx env = Ok s /\ ReadFully_err s = Some e /\ e <> io_EOF) ->
  exists w1,
    fetchNextTx env w = Ret (Some e) w1 /\
    requested (trace w1) = requested (trace w) ++ [u64 (position w st + 1)] /\
    allow_commits (trace w1) = allow_commits (trace w) /\
    discards (trace w1) = discards (trace w) /\
    prefetchTxBuffer (txr w1) = prefetchTxBuffer (txr w) /\
    lastTx (txr w1) = position w st.
Proof.
  intros Hcan Hcase.
  destruct (fetch_reaches_export env w st Hcan) as (w0 & Hent & Hf).
  pose proof Hent as (_ & [c Hc] & _).
  assert (Hx : export_phase st env w0 = Ret (Some e) (emit [] (exported c st env w0))).
  { replace (emit [] (exported c st env w0)) with (exported c st env w0)
      by (unfold emit; cbn; rewrite app_nil_r; reflexivity).
    destruct Hcase as [(He & Hd & Hp) | (s & He & Hr & Hne)].
    - apply export_other_error; assumption.
    - apply (export_read_error st env w0 c s e); assumption. }
  destruct (fetch_ends_after_export env w st w0 c _ [] Hent Hc Hf Hx)
    as (w1 & H1 & H2 & H3 & H4 & H5 & H6 & _); try reflexivity.
  exists w1. repeat split; assumption.
Qed.

Lemma fetch_returns_transient_error_witness :
  exists w1,
    fetchNextTx (SampleRemote.answers SampleRemote.accepts false
                   (Err SampleErrors.unavailable)) Sample.started =
      Ret (Some SampleErrors.unavailable) w1 /\
    requested (trace w1) = [6] /\
    lastTx (txr w1) = 5.
Proof.
  destruct (fetch_returns_transient_error
              (SampleRemote.answers SampleRemote.accepts false
                 (Err SampleErrors.unavailable))
              Sample.started SampleRemote.state_3_5 SampleErrors.unavailable
              (sample_can_fetch _ _))
    as (w1 & H1 & H2 & _ & _ & _ & H3).
  - left. split; [reflexivity |]. split; vm_compute; reflexivity.
  - exists w1. split; [exact H1 |]. split; [exact H2 | exact H3].
Defined.

(** With [allowTxDiscarding] off, a precommitted-state divergence is
    fatal: [fetchNextTx] returns [ErrFollowerDivergedFromMaster] without
    asking the local store to discard anything, and the supervisor loop
    calls [Stop] and returns. *)
Theorem precommit_divergence_without_discarding (env : fetch_env) (w : world)
    (st : ImmutableState) (e : error) :
  can_fetch env w st ->
  on_ExportTx env = Err e ->
  strings_Contains (Error e) commit_diverged = false ->
  strings_Contains (Error e) precommit_diverged = true ->
  allowTxDiscarding (txr w) = false ->
  exists w1,
    fetchNextTx env w = Ret (Some ErrFollowerDivergedFromMaster) w1 /\
    discards (trace w1) = discards (trace w) /\
    prefetchTxBuffer (txr w1) = prefetchTxBuffer (txr w) /\
    forall timer_wins rest,
      fetcher_goroutine ((env, timer_wins) :: rest) w = (Stop ;; ret tt) w1.
Proof.
  intros Hcan He Hd Hp Ha.
  destruct (fetch_reaches_export env w st Hcan) as (w0 & Hent & Hf).
  pose proof Hent as (_ & [c Hc] & _).
  destruct (entered_frame _ _ Hent) as (_ & _ & Hal & _).
  assert (Ha0 : allowTxDiscarding (txr w0) = false) by congruence.
  pose proof (export_precommit_fatal st env w0 c e Hc He Hd Hp Ha0) as Hx.
  destruct (fetch_ends_after_export env w st w0 c _ _ Hent Hc Hf Hx)
    as (w1 & H1 & _ & _ & H4 & H5 & _); try reflexivity.
  exists w1. split; [exact H1 |]. split; [exact H4 |]. split; [exact H5 |].
  intros tw rest. rewrite (fetcher_goroutine_step _ _ _ _ _ _ H1). reflexivity.
Qed.

Lemma precommit_divergence_without_discarding_witness :
  exists w1,
    fetchNextTx (SampleRemote.answers SampleRemote.accepts false
                   (Err SampleErrors.precommit_divergence)) SampleStrict.started =
      Ret (Some ErrFollowerDivergedFromMaster) w1 /\
    discards (trace w1) = [].
Proof.
  destruct (precommit_divergence_without_discarding
              (SampleRemote.answers SampleRemote.accepts false
                 (Err SampleErrors.precommit_divergence))
              SampleStrict.started SampleRemote.state_3_5
              SampleErrors.precommit_divergence)
    as (w1 & H1 & H2 & _).
  - repeat split; try reflexivity; try (eexists; reflexivity).
    vm_compute. discriminate.
  - reflexivity.
  - vm_compute. reflexivity.
  - vm_compute. reflexivity.
  - reflexivity.
  - exists w1. split; [exact H1 | exact H2].
Defined.


(** ** A fetch on a replicator that is not running *)

Lemma fetch_not_running env w :
  mutex (txr w) = false ->
  running (txr w) = false ->
  fetchNextTx env w = Ret (Some ErrAlreadyStopped) w.
Proof.
  intros Hm Hr. unfold fetchNextTx, Lock, defer_Unlock, bind.
  break_world w. reflexivity.
Qed.

(** Once [Stop] has returned nil, the supervisor loop ends at its next
    iteration: [fetchNextTx] returns [ErrAlreadyStopped] and the loop
    returns, having called no collaborator and changed nothing. *)
Theorem fetcher_ends_after_Stop (w : world) :
  mutex (txr w) = false ->
  running (txr w) = true ->
  closed (prefetchTxBuffer (txr w)) = false ->
  exists w',
    Stop w = Ret None w' /\
    forall env timer_wins rest,
      fetchNextTx env w' = Ret (Some ErrAlreadyStopped) w' /\
      fetcher_goroutine ((env, timer_wins) :: rest) w' = Ret tt w'.
Proof.
  intros Hm Hr Hc.
  assert (Hs : exists w', Stop w = Ret None w' /\ mutex (txr w') = false /\
                          running (txr w') = false).
  { unfold Stop, Lock, defer_Unlock, bind, cancel, chan_close_op, disconnect, bind.
    break_world w. destruct prefetchTxBuffer0 as [b n cl]. cbn in Hc. subst cl.
    destruct cancelFunc0, client0; simp_world; eexists; repeat split. }
  destruct Hs as (w' & Hs & Hm' & Hr').
  exists w'. split; [exact Hs |]. intros env tw rest.
  pose proof (fetch_not_running env w' Hm' Hr') as Hf.
  split; [exact Hf |].
  rewrite (fetcher_goroutine_step _ _ _ _ _ _ Hf). reflexivity.
Qed.

Lemma fetcher_ends_after_Stop_witness :
  exists w',
    Stop Sample.started = Ret None w' /\
    fetcher_goroutine [(SampleRun.payload_fetch, true)] w' = Ret tt w'.
Proof.
  destruct (fetcher_ends_after_Stop Sample.started eq_refl eq_refl eq_refl)
    as (w' & H1 & H2).
  exists w'. split; [exact H1 |]. apply (H2 SampleRun.payload_fetch true []).
Defined.

(** ** A failing [CurrentState] *)

(** When the local store cannot report its state, [fetchNextTx] returns
    that error before asking the master for anything: no request, nothing
    enqueued, [lastTx] not even initialised. *)
Theorem fetch_returns_CurrentState_error (env : fetch_env) (w : world) (e : error) :
  mutex (txr w) = false ->
  running (txr w) = true ->
  mainContext (txr w) <> ctx_nil ->
  (client (txr w) = None -> connects (on_connect env)) ->
  on_CurrentState env = Err e ->
  exists w1,
    fetchNextTx env w = Ret (Some e) w1 /\
    requested (trace w1) = requested (trace w) /\
    lastTx (txr w1) = lastTx (txr w) /\
    prefetchTxBuffer (txr w1) = prefetchTxBuffer (txr w).
Proof.
  intros Hm Hr Hctx Hc Hs. rewrite (fetch_unfold env w Hm Hr).
  unfold defer_Unlock, bind.
  destruct (client (txr w)) as [c |] eqn:Hcl.
  - cbn. rewrite Hs. eexists. split; [reflexivity |]. cbn.
    rewrite requested_app. cbn. rewrite app_nil_r. auto.
  - destruct (Hc eq_refl) as ([c Hn] & [t1 Hl] & [t2 Hu]).
    rewrite (connect_accepted (on_connect env) (upd_txr (set_mutex true) w) c t1 t2
               Hctx Hn Hl Hu).
    cbn. rewrite Hs. eexists. split; [reflexivity |].
    cbn [trace unlock emit upd_txr txr]. rewrite !requested_app. cbn.
    rewrite !app_nil_r. auto.
Qed.

Lemma fetch_returns_CurrentState_error_witness :
  exists w1,
    fetchNextTx
      {| on_connect := SampleRemote.accepts;
         on_CurrentState := Err SampleErrors.unavailable;
         on_IsSyncReplicationEnabled := false;
         on_ExportTx := SampleRemote.stream SampleRemote.payload ∅;
         on_DiscardPrecommittedTxsSince := None; on_AllowCommitUpto := None |}
      Sample.started = Ret (Some SampleErrors.unavailable) w1 /\
    requested (trace w1) = [] /\ lastTx (txr w1) = 0.
Proof.
  destruct (fetch_returns_CurrentState_error
              {| on_connect := SampleRemote.accepts;
                 on_CurrentState := Err SampleErrors.unavailable;
                 on_IsSyncReplicationEnabled := false;
                 on_ExportTx := SampleRemote.stream SampleRemote.payload ∅;
                 on_DiscardPrecommittedTxsSince := None; on_AllowCommitUpto := None |}
              Sample.started SampleErrors.unavailable eq_refl eq_refl)
    as (w1 & H1 & H2 & H3 & _).
  - vm_compute. discriminate.
  - intros _. repeat split; eexists; reflexivity.
  - reflexivity.
  - exists w1. split; [exact H1 |]. split; [exact H2 | exact H3].
Defined.

(** ** A malformed trailer *)

Lemma BigEndian_Uint64_short v : (length v < 8)%nat -> BigEndian_Uint64 v = None.
Proof.
  intros H. unfold BigEndian_Uint64.
  do 8 (destruct v as [| ? v]; [reflexivity |]). cbn in H. lia.
Qed.

(** In sync mode, a trailer whose tx id value has fewer than eight bytes
    makes [fetchNextTx] panic (index out of range in the decoding).  The
    deferred unlock has run; [AllowCommitUpto] was not called and nothing
    was enqueued. *)
Theorem short_txid_panics (env : fetch_env) (w : world) (st : ImmutableState)
    (s : ExportTxStream) (v a : bytes) (vs al : list bytes) :
  can_fetch env w st ->
  on_ExportTx env = Ok s ->
  ReadFully_err s = None \/ ReadFully_err s = Some io_EOF ->
  on_IsSyncReplicationEnabled env = true ->
  md_Get (Trailer s) txid_key = v :: vs ->
  md_Get (Trailer s) alh_key = a :: al ->
  (length v < 8)%nat ->
  exists w1,
    fetchNextTx env w = Panic "index out of range" w1 /\
    mutex (txr w1) = false /\
    allow_commits (trace w1) = allow_commits (trace w) /\
    prefetchTxBuffer (txr w1) = prefetchTxBuffer (txr w).
Proof.
  intros Hcan He Hread Hsync Hv Ha Hlen.
  destruct (fetch_reaches_export env w st Hcan) as (w0 & Hent & Hf).
  pose proof Hent as (_ & [c Hc] & _).
  destruct (entered_frame _ _ Hent) as (_ & _ & _ & Hb & _).
  destruct (entered_silent _ _ Hent) as (_ & Hq & _).
  pose proof (export_stream st env w0 c s Hc He Hread) as Hx.
  rewrite Hsync in Hx. unfold bind in Hx.
  assert (Hp : forall w', sync_trailer (Trailer s) (on_AllowCommitUpto env) w' =
                          Panic "index out of range" w').
  { intros w'. unfold sync_trailer. rewrite Hv, Ha.
    change ((length (v :: vs) =? 0)%nat || (length (a :: al) =? 0)%nat) with false.
    cbn. rewrite (BigEndian_Uint64_short v Hlen). reflexivity. }
  rewrite Hp in Hx.
  eexists. split; [rewrite Hf; unfold defer_Unlock; rewrite Hx; reflexivity |].
  split; [reflexivity |].
  split; [| cbn; exact Hb].
  cbn [trace unlock exported emit upd_txr]. rewrite allow_commits_app, Hq.
  cbn. apply app_nil_r.
Qed.

Lemma short_txid_panics_witness :
  exists w1,
    fetchNextTx (SampleRemote.answers SampleRemote.accepts true
                   (SampleRemote.stream [] SampleShort.short_txid)) Sample.started =
      Panic "index out of range" w1 /\
    mutex (txr w1) = false.
Proof.
  destruct (short_txid_panics
              (SampleRemote.answers SampleRemote.accepts true
                 (SampleRemote.stream [] SampleShort.short_txid))
              Sample.started SampleRemote.state_3_5
              {| ReadFully_etx := []; ReadFully_err := None;
                 Trailer := SampleShort.short_txid |}
              [Byte.x00; Byte.x00; Byte.x00; Byte.x0a] SampleTrailer.alh [] []
              (sample_can_fetch _ _) eq_refl (or_introl eq_refl) eq_refl
              ltac:(vm_compute; reflexivity) ltac:(vm_compute; reflexivity)
              ltac:(cbn; lia))
    as (w1 & H1 & H2 & _).
  exists w1. split; [exact H1 | exact H2].
Defined.


(** ** Start and Stop *)

(** [Start] on a running replicator returns [ErrAlreadyRunning] and
    changes nothing: no new context, no goroutine, no log line. *)
Theorem Start_when_running (w : world) :
  mutex (txr w) = false ->
  running (txr w) = true ->
  Start w = Ret (Some ErrAlreadyRunning) w.
Proof.
  intros Hm Hr. unfold Start, Lock, defer_Unlock, bind. break_world w. reflexivity.
Qed.

Lemma Start_when_running_witness :
  Start Sample.started = Ret (Some ErrAlreadyRunning) Sample.started.
Proof. apply (Start_when_running Sample.started); reflexivity. Defined.

(** [Start] on a replicator that is not running makes a fresh context,
    not yet cancelled, and spawns one fetcher and as many appliers as
    [replicationConcurrency] says (none when it is not positive).  It
    keeps [lastTx], the failure counter and the queue as they are: the
    queue is not made anew. *)
Theorem Start_spawns (w : world) :
  mutex (txr w) = false ->
  running (txr w) = false ->
  next_ctx w ∉ cancelled w ->
  exists w',
    Start w = Ret None w' /\
    trace w' = trace w ++ [initializing_log; Go Fetcher] ++
               replicate (Z.to_nat (replicationConcurrency (txr w))) (Go Applier) ++
               [initialized_log] /\
    running (txr w') = true /\
    mainContext (txr w') = WithCancel (next_ctx w) /\
    cancelFunc (txr w') = Some (next_ctx w) /\
    ctx_done (cancelled w') (mainContext (txr w')) = false /\
    lastTx (txr w') = lastTx (txr w) /\
    consecutiveFailures (txr w') = consecutiveFailures (txr w) /\
    prefetchTxBuffer (txr w') = prefetchTxBuffer (txr w) /\
    client (txr w') = client (txr w).
Proof.
  intros Hm Hr Hfresh. break_world w.
  unfold Start, Lock, defer_Unlock, bind, context_WithCancel. simp_world.
  rewrite spawn_returns. simp_world. eexists. split; [reflexivity |].
  cbn. repeat split. unfold ctx_done. cbn. apply bool_decide_eq_false_2. exact Hfresh.
Qed.

Lemma Start_spawns_witness :
  exists w',
    Start Sample.fresh = Ret None w' /\
    trace w' = [initializing_log; Go Fetcher; Go Applier; Go Applier; initialized_log].
Proof.
  destruct (Start_spawns Sample.fresh eq_refl eq_refl) as (w' & H1 & H2 & _).
  - vm_compute. set_solver.
  - exists w'. split; [exact H1 | exact H2].
Defined.

(** [Stop] on a running replicator whose queue is open: it cancels the
    token, closes the queue with the payloads still in it, logs out and
    disconnects the client if there is one (in that order, with the
    client's context), and leaves the replicator not running, without a
    client; [lastTx] is kept. *)
Theorem Stop_tears_down (w : world) :
  mutex (txr w) = false ->
  running (txr w) = true ->
  closed (prefetchTxBuffer (txr w)) = false ->
  exists w',
    Stop w = Ret None w' /\
    trace w' = trace w ++
               match cancelFunc (txr w) with Some id => [Cancel id] | None => [] end ++
               [stopping_log; ChanClose] ++
               disconnect_events (client (txr w)) (clientContext (txr w)) ++
               [stopped_log] /\
    running (txr w') = false /\
    client (txr w') = None /\
    prefetchTxBuffer (txr w') = chan_close (prefetchTxBuffer (txr w)) /\
    lastTx (txr w') = lastTx (txr w) /\
    (forall id, cancelFunc (txr w) = Some id -> id ∈ cancelled w').
Proof.
  intros Hm Hr Hc.
  unfold Stop, Lock, defer_Unlock, bind, cancel, chan_close_op, disconnect, bind.
  break_world w. destruct prefetchTxBuffer0 as [b n cl]. cbn in Hc. subst cl.
  destruct cancelFunc0, client0; simp_world;
    (eexists; split; [reflexivity |]; cbn; repeat split;
     intros id' [= <-]; set_solver).
Qed.

Lemma Stop_tears_down_witness :
  exists w',
    Stop SampleFull.full = Ret None w' /\
    client (txr w') = None /\
    buf (prefetchTxBuffer (txr w')) = [[Byte.x03]; [Byte.x04]] /\
    closed (prefetchTxBuffer (txr w')) = true.
Proof.
  destruct (Stop_tears_down SampleFull.full eq_refl eq_refl eq_refl)
    as (w' & H1 & _ & _ & H2 & H3 & _).
  exists w'. split; [exact H1 |]. split; [exact H2 |]. rewrite H3. split; reflexivity.
Defined.

(** The queue is made once, by [NewTxReplicator], and closed by [Stop]:
    after a [Stop] and a new [Start] the replicator runs on a closed
    queue.  A further [Stop] then panics on closing it again, a fetch
    that receives a payload panics on sending it, and an applier finding
    the queue empty returns at once. *)
Theorem restart_runs_on_closed_queue (w : world) :
  mutex (txr w) = false ->
  running (txr w) = true ->
  closed (prefetchTxBuffer (txr w)) = false ->
  exists w1 w2,
    Stop w = Ret None w1 /\
    Start w1 = Ret None w2 /\
    running (txr w2) = true /\
    closed (prefetchTxBuffer (txr w2)) = true /\
    (exists w3, Stop w2 = Panic "close of closed channel" w3) /\
    (forall env st s,
       can_fetch env w2 st ->
       on_ExportTx env = Ok s ->
       ReadFully_err s = None \/ ReadFully_err s = Some io_EOF ->
       on_IsSyncReplicationEnabled env = false ->
       (0 < length (ReadFully_etx s))%nat ->
       exists w3, fetchNextTx env w2 = Panic "send on closed channel" w3) /\
    (buf (prefetchTxBuffer (txr w)) = [] ->
     forall script, applier_goroutine script w2 = Ret tt w2).
Proof.
  intros Hm Hr Hc.
  destruct (Stop_when_running w Hm Hr Hc) as (w1 & Hs & Hr1 & Hc1 & Hcl1 & _).
  assert (Hm1 : mutex (txr w1) = false /\
                buf (prefetchTxBuffer (txr w1)) = buf (prefetchTxBuffer (txr w))).
  { revert Hs. unfold Stop, Lock, defer_Unlock, bind, cancel, chan_close_op, disconnect, bind.
    clear Hr1 Hc1 Hcl1. break_world w. destruct prefetchTxBuffer0 as [b n cl].
    cbn in Hc. subst cl.
    destruct cancelFunc0, client0; simp_world; intros H; inversion H; subst; auto. }
  destruct Hm1 as (Hm1 & Hb1).
  assert (Hst : exists w2, Start w1 = Ret None w2 /\ running (txr w2) = true /\
                 mutex (txr w2) = false /\
                 prefetchTxBuffer (txr w2) = prefetchTxBuffer (txr w1)).
  { clear Hs. break_world w1.
    unfold Start, Lock, defer_Unlock, bind, context_WithCancel. simp_world.
    rewrite spawn_returns. simp_world. eexists. repeat split. }
  destruct Hst as (w2 & Hst & Hr2 & Hm2 & Hq2).
  assert (Hcl2 : closed (prefetchTxBuffer (txr w2)) = true) by (rewrite Hq2; exact Hcl1).
  exists w1, w2. do 4 (split; [assumption |]). split; [| split].
  - clear - Hm2 Hr2 Hcl2. unfold Stop, Lock, defer_Unlock, bind, cancel, chan_close_op.
    break_world w2. destruct prefetchTxBuffer0 as [b n cl]. cbn in Hcl2. subst cl.
    destruct cancelFunc0; simp_world; eexists; reflexivity.
  - intros env st s Hcan He Hread Hsync Hlen.
    destruct (fetch_reaches_export env w2 st Hcan) as (w0 & Hent & Hf).
    pose proof Hent as (_ & [c Hcc] & _).
    destruct (entered_frame _ _ Hent) as (_ & _ & _ & Hb & _).
    pose proof (export_stream st env w0 c s Hcc He Hread) as Hx.
    rewrite Hsync in Hx. unfold bind in Hx. cbn [ret] in Hx.
    assert (Hh : handoff (ReadFully_etx s) (exported c st env w0) =
                 Panic "send on closed channel" (exported c st env w0)).
    { unfold handoff, bind, chan_send.
      apply Nat.ltb_lt in Hlen. rewrite Hlen.
      assert (Hcx : closed (prefetchTxBuffer (txr (exported c st env w0))) = true)
        by (cbn; rewrite Hb; exact Hcl2).
      rewrite Hcx. reflexivity. }
    rewrite Hh in Hx. eexists. rewrite Hf. unfold defer_Unlock. rewrite Hx. reflexivity.
  - intros Hempty script. unfold applier_goroutine, bind, chan_recv.
    rewrite Hq2, Hb1, Hempty, Hcl1. reflexivity.
Qed.

Lemma restart_runs_on_closed_queue_witness :
  exists w1 w2 w3,
    Stop Sample.started = Ret None w1 /\
    Start w1 = Ret None w2 /\
    fetchNextTx SampleRun.payload_fetch w2 = Panic "send on closed channel" w3.
Proof.
  destruct (restart_runs_on_closed_queue Sample.started eq_refl eq_refl eq_refl)
    as (w1 & w2 & H1 & H2 & Hr & Hc & _ & Hf & _).
  assert (Hw2 : w2 = outcome_world (Start (outcome_world (Stop Sample.started)))).
  { rewrite H1. cbn [outcome_world]. rewrite H2. reflexivity. }
  destruct (Hf SampleRun.payload_fetch SampleRemote.state_3_5
              {| ReadFully_etx := SampleRemote.payload; ReadFully_err := None;
                 Trailer := ∅ |}) as (w3 & H3).
  - rewrite Hw2. repeat split; try reflexivity; try (eexists; reflexivity).
    vm_compute. discriminate.
  - reflexivity.
  - left. reflexivity.
  - reflexivity.
  - cbn. lia.
  - exists w1, w2, w3. split; [exact H1 |]. split; [exact H2 | exact H3].
Defined.


(** ** Consecutive failures *)

Lemma disconnects_app tr1 tr2 :
  disconnects (tr1 ++ tr2) = disconnects tr1 ++ disconnects tr2.
Proof. apply omap_app. Qed.

Lemma fetch_connected env w c st :
  mutex (txr w) = false ->
  running (txr w) = true ->
  client (txr w) = Some c ->
  on_CurrentState env = Ok st ->
  fetchNextTx env w =
    defer_Unlock (export_phase st env) (emit [CurrentState] (upd_txr (set_mutex true) w)).
Proof.
  intros Hm Hr Hc Hs. rewrite (fetch_unfold env w Hm Hr), Hc.
  unfold defer_Unlock, bind. cbn. rewrite Hs. reflexivity.
Qed.

(** One iteration of the supervisor loop whose fetch fails on a live
    session, the token not being cancelled. *)
Lemma failing_iteration env e timer_wins w c :
  mutex (txr w) = false ->
  running (txr w) = true ->
  mainContext (txr w) <> ctx_nil ->
  ctx_done (cancelled w) (mainContext (txr w)) = false ->
  client (txr w) = Some c ->
  fails_with env e ->
  0 <= consecutiveFailures (txr w) < 2 ^ 63 - 1 ->
  let n := consecutiveFailures (txr w) + 1 in
  exists w',
    (forall rest, fetcher_goroutine ((env, timer_wins) :: rest) w =
                  fetcher_goroutine rest w') /\
    mutex (txr w') = false /\
    running (txr w') = true /\
    mainContext (txr w') = mainContext (txr w) /\
    cancelled w' = cancelled w /\
    consecutiveFailures (txr w') = n /\
    client (txr w') = (if 3 <=? n then None else Some c) /\
    disconnects (trace w') = disconnects (trace w) ++ (if 3 <=? n then [c] else []).
Proof.
  intros Hm Hr Hctx Hlive Hc ([st Hs] & He & Hn1 & Hn2 & Hd & Hp) Hcf n.
  pose (w0 := emit [CurrentState] (upd_txr (set_mutex true) w)).
  assert (Hc0 : client (txr w0) = Some c) by exact Hc.
  pose proof (export_other_error st env w0 c e Hc0 He Hd Hp) as Hx.
  assert (Hf : fetchNextTx env w = Ret (Some e) (unlock (exported c st env w0))).
  { rewrite (fetch_connected env w c st Hm Hr Hc Hs). fold w0.
    unfold defer_Unlock. rewrite Hx. reflexivity. }
  assert (Hne1 : bool_decide (Some e = Some ErrAlreadyStopped) = false).
  { apply bool_decide_eq_false_2. intros [= ->]. congruence. }
  assert (Hne2 : bool_decide (Some e = Some ErrFollowerDivergedFromMaster) = false).
  { apply bool_decide_eq_false_2. intros [= ->]. congruence. }
  assert (Hh : exists w',
             handleError (Some e) timer_wins (unlock (exported c st env w0)) =
               Ret false w' /\
             mutex (txr w') = false /\ running (txr w') = true /\
             mainContext (txr w') = mainContext (txr w) /\
             cancelled w' = cancelled w /\
             consecutiveFailures (txr w') = n /\
             client (txr w') = (if 3 <=? n then None else Some c) /\
             disconnects (trace w') =
               disconnects (trace w) ++ (if 3 <=? n then [c] else [])).
  { rewrite handleError_run; [| reflexivity | exact Hctx].
    change (ctx_done (cancelled (unlock (exported c st env w0)))
              (mainContext (txr (unlock (exported c st env w0)))))
      with (ctx_done (cancelled w) (mainContext (txr w))).
    rewrite Hlive. cbn [andb].
    change (consecutiveFailures (txr (unlock (exported c st env w0))))
      with (consecutiveFailures (txr w)).
    rewrite int_wrap_small by lia. fold n.
    subst w0. clear Hx Hf Hc0 Hne1 Hne2.
    unfold disconnect, bind, get_txr, exported, unlock, emit, upd_txr, call, modify_txr, ret.
    destruct w as [t cs nx tr]. destruct t. cbn in Hc, Hr, Hm. subst. cbn.
    destruct (3 <=? n); cbn; eexists; (split; [reflexivity |]); cbn;
      rewrite ?disconnects_app; cbn; rewrite ?app_nil_r; repeat split; reflexivity. }
  destruct Hh as (w' & Hh & Hfacts).
  exists w'. split; [| exact Hfacts].
  intros rest. rewrite (fetcher_goroutine_step _ _ _ _ _ _ Hf), Hne1, Hne2.
  unfold bind. rewrite Hh. reflexivity.
Qed.

(** Three consecutive failed fetches on a live session, the token not
    being cancelled: after the first two the session is kept; the third
    makes the supervisor disconnect, once, so that the client handle is
    nil and the following fetch starts by [connect].  The counter stands
    at the number of failures. *)
Theorem three_failures_disconnect (env1 env2 env3 : fetch_env) (e1 e2 e3 : error)
    (t1 t2 t3 : bool) (w : world) (c : ImmuClient) :
  mutex (txr w) = false ->
  running (txr w) = true ->
  mainContext (txr w) <> ctx_nil ->
  ctx_done (cancelled w) (mainContext (txr w)) = false ->
  client (txr w) = Some c ->
  consecutiveFailures (txr w) = 0 ->
  fails_with env1 e1 -> fails_with env2 e2 -> fails_with env3 e3 ->
  exists w2 w3,
    (forall rest, fetcher_goroutine ((env1, t1) :: (env2, t2) :: rest) w =
                  fetcher_goroutine rest w2) /\
    client (txr w2) = Some c /\
    consecutiveFailures (txr w2) = 2 /\
    disconnects (trace w2) = disconnects (trace w) /\
    (forall rest, fetcher_goroutine ((env1, t1) :: (env2, t2) :: (env3, t3) :: rest) w =
                  fetcher_goroutine rest w3) /\
    client (txr w3) = None /\
    consecutiveFailures (txr w3) = 3 /\
    disconnects (trace w3) = disconnects (trace w) ++ [c] /\
    forall env4, connects (on_connect env4) ->
      exists tail, trace (outcome_world (fetchNextTx env4 w3)) =
                   trace w3 ++ connecting_log :: tail.
Proof.
  intros Hm Hr Hctx Hlive Hc Hcf F1 F2 F3.
  destruct (failing_iteration env1 e1 t1 w c Hm Hr Hctx Hlive Hc F1)
    as (w1 & G1 & Hm1 & Hr1 & Hx1 & Hcs1 & Hn1 & Hc1 & Hd1); [lia |].
  rewrite Hcf in Hn1, Hc1, Hd1. cbn in Hn1, Hc1, Hd1. rewrite app_nil_r in Hd1.
  assert (Hctx1 : mainContext (txr w1) <> ctx_nil) by (rewrite Hx1; exact Hctx).
  assert (Hl1 : ctx_done (cancelled w1) (mainContext (txr w1)) = false)
    by (rewrite Hx1, Hcs1; exact Hlive).
  destruct (failing_iteration env2 e2 t2 w1 c Hm1 Hr1 Hctx1 Hl1 Hc1 F2)
    as (w2 & G2 & Hm2 & Hr2 & Hx2 & Hcs2 & Hn2 & Hc2 & Hd2); [lia |].
  rewrite Hn1 in Hn2, Hc2, Hd2. cbn in Hn2, Hc2, Hd2. rewrite app_nil_r in Hd2.
  assert (Hctx2 : mainContext (txr w2) <> ctx_nil) by (rewrite Hx2; exact Hctx1).
  assert (Hl2 : ctx_done (cancelled w2) (mainContext (txr w2)) = false)
    by (rewrite Hx2, Hcs2; exact Hl1).
  destruct (failing_iteration env3 e3 t3 w2 c Hm2 Hr2 Hctx2 Hl2 Hc2 F3)
    as (w3 & G3 & Hm3 & Hr3 & Hx3 & Hcs3 & Hn3 & Hc3 & Hd3); [lia |].
  rewrite Hn2 in Hn3, Hc3, Hd3. cbn in Hn3, Hc3, Hd3.
  exists w2, w3.
  split; [intros rest; rewrite G1, G2; reflexivity |].
  split; [exact Hc2 |]. split; [exact Hn2 |].
  split; [rewrite Hd2, Hd1; reflexivity |].
  split; [intros rest; rewrite G1, G2, G3; reflexivity |].
  split; [exact Hc3 |]. split; [exact Hn3 |].
  split; [rewrite Hd3, Hd2, Hd1; reflexivity |].
  intros env4 Hok.
  assert (Hctx3 : mainContext (txr w3) <> ctx_nil) by (rewrite Hx3; exact Hctx2).
  destruct (fetch_connects_first env4 w3 Hm3 Hr3 Hctx3 Hc3 Hok)
    as (c' & tok & tail & _ & _ & Ht).
  eexists. rewrite Ht. reflexivity.
Qed.

Lemma three_failures_disconnect_witness :
  exists w3,
    fetcher_goroutine
      (replicate 3 (SampleRemote.answers SampleRemote.accepts false
                      (Err SampleErrors.unavailable), true))
      SampleFull.full = More w3 /\
    client (txr w3) = None /\
    consecutiveFailures (txr w3) = 3 /\
    disconnects (trace w3) = [7%nat].
Proof.
  assert (F : fails_with (SampleRemote.answers SampleRemote.accepts false
                            (Err SampleErrors.unavailable)) SampleErrors.unavailable).
  { split; [eexists; reflexivity |]. split; [reflexivity |].
    split; [discriminate |]. split; [discriminate |].
    split; vm_compute; reflexivity. }
  destruct (three_failures_disconnect _ _ _ _ _ _ true true true SampleFull.full 7%nat
              eq_refl eq_refl ltac:(vm_compute; discriminate)
              ltac:(vm_compute; reflexivity) eq_refl eq_refl F F F)
    as (w2 & w3 & _ & _ & _ & _ & G & Hc & Hn & Hd & _).
  exists w3. split; [apply (G []) |]. split; [exact Hc |]. split; [exact Hn | exact Hd].
Defined.


(** ** The handoff queue *)

Lemma handoff_queue etx w r w' :
  handoff etx w = Ret r w' ->
  let q := prefetchTxBuffer (txr w) in
  if (0 <? length etx)%nat
  then prefetchTxBuffer (txr w') = chan_with_buf (buf q ++ [etx]) q /\
       closed q = false /\ (length (buf q) < cap q)%nat
  else prefetchTxBuffer (txr w') = q.
Proof.
  unfold handoff, bind, chan_send. destruct w as [t cs nx tr]. destruct t. cbn.
  destruct (0 <? length etx)%nat; cbn; [| intros H; inversion H; reflexivity].
  destruct (closed prefetchTxBuffer0) eqn:Hc; cbn; [discriminate |].
  destruct (Nat.ltb_spec (length (buf prefetchTxBuffer0)) (cap prefetchTxBuffer0)); cbn;
    [| discriminate].
  intros Hx; inversion Hx; subst; cbn. auto.
Qed.

Lemma sync_trailer_queue md allow w r w' :
  sync_trailer md allow w = Ret r w' -> txr w' = txr w.
Proof. intros H. apply sync_trailer_frame in H as [H _]. exact H. Qed.

Lemma export_phase_nil_queue st env w0 w' :
  is_Some (client (txr w0)) ->
  export_phase st env w0 = Ret None w' ->
  let q := prefetchTxBuffer (txr w0) in
  if delivers env
  then prefetchTxBuffer (txr w') = chan_with_buf (buf q ++ [payload_of env]) q /\
       closed q = false /\ (length (buf q) < cap q)%nat
  else prefetchTxBuffer (txr w') = q.
Proof.
  intros [c Hc] Hrun. unfold delivers, payload_of.
  destruct (on_ExportTx env) as [s | e] eqn:He.
  - destruct (decide (ReadFully_err s = None \/ ReadFully_err s = Some io_EOF))
      as [Hread | Hread].
    + rewrite (export_stream st env w0 c s Hc He Hread) in Hrun.
      unfold bind in Hrun.
      destruct (on_IsSyncReplicationEnabled env).
      * destruct (sync_trailer _ _ _) as [[e' |] w1 | | |] eqn:Hs; try discriminate Hrun.
        apply sync_trailer_queue in Hs.
        apply handoff_queue in Hrun. rewrite Hs in Hrun. exact Hrun.
      * cbn in Hrun. apply handoff_queue in Hrun. exact Hrun.
    + exfalso. unfold export_phase, bind in Hrun.
      destruct w0 as [t cs nx tr]. destruct t. cbn in Hc, Hrun. subst.
      rewrite He in Hrun.
      destruct (ReadFully_err s) as [e |] eqn:Hr; [| tauto].
      destruct (decide (e = io_EOF)) as [-> | Hne]; [tauto |].
      rewrite !bool_decide_eq_true_2 in Hrun by congruence.
      destruct (lastTx0 =? 0); cbn in Hrun; discriminate Hrun.
  - destruct (strings_Contains (Error e) commit_diverged) eqn:Hd.
    { rewrite (export_commit_diverged st env w0 c e Hc He Hd) in Hrun. discriminate. }
    destruct (strings_Contains (Error e) precommit_diverged) eqn:Hp.
    + destruct (allowTxDiscarding (txr w0)) eqn:Ha.
      * rewrite (export_precommit_diverged st env w0 c e Hc He Hd Hp Ha) in Hrun.
        inversion Hrun; subst. reflexivity.
      * rewrite (export_precommit_fatal st env w0 c e Hc He Hd Hp Ha) in Hrun.
        discriminate.
    + rewrite (export_other_error st env w0 c e Hc He Hd Hp) in Hrun.
      discriminate Hrun.
Qed.

Lemma fetch_nil_queue env w w' :
  fetchNextTx env w = Ret None w' ->
  let q := prefetchTxBuffer (txr w) in
  if delivers env
  then prefetchTxBuffer (txr w') = chan_with_buf (buf q ++ [payload_of env]) q /\
       closed q = false /\ (length (buf q) < cap q)%nat
  else prefetchTxBuffer (txr w') = q.
Proof.
  intros Hrun.
  destruct (fetch_cases env w)
    as [(st & w0 & Hs & Hm & Hr & Hent & Hf) | [(e & w1 & Hf) | [(w1 & Hf) | (msg & w1 & Hf)]]];
    try (rewrite Hf in Hrun; discriminate Hrun).
  rewrite Hf in Hrun. unfold defer_Unlock in Hrun.
  destruct (export_phase st env w0) as [r w1 | | |] eqn:Hx; try discriminate Hrun.
  inversion Hrun; subst. clear Hrun.
  pose proof Hent as (_ & Hc & _).
  pose proof (export_phase_nil_queue st env w0 w1 Hc Hx) as Hq.
  destruct (entered_frame _ _ Hent) as (_ & _ & _ & Hb & _).
  cbn in Hq |- *. rewrite Hb in Hq. exact Hq.
Qed.

Lemma appliers_receive_queue n w w' :
  closed (prefetchTxBuffer (txr w)) = false ->
  appliers_receive n w = Ret tt w' ->
  (n <= length (buf (prefetchTxBuffer (txr w))))%nat /\
  prefetchTxBuffer (txr w') =
    chan_with_buf (drop n (buf (prefetchTxBuffer (txr w)))) (prefetchTxBuffer (txr w)).
Proof.
  revert w. induction n as [| n IH]; intros w Hc; cbn.
  - intros H; inversion H; subst. split; [lia |].
    destruct (prefetchTxBuffer (txr w')); reflexivity.
  - unfold bind, chan_recv. destruct w as [t cs nx tr]. destruct t. cbn in *.
    rewrite Hc. destruct prefetchTxBuffer0 as [b k cl]. cbn in *. subst cl.
    destruct b as [| x b]; cbn; [discriminate |].
    intros H. apply IH in H; [| reflexivity]. cbn in H. destruct H as [H1 H2].
    split; [lia | exact H2].
Qed.


Lemma payloads_cons env envs :
  payloads (env :: envs) =
    (if delivers env then [payload_of env] else []) ++ payloads envs.
Proof. unfold payloads. cbn. destruct (delivers env); reflexivity. Qed.

(** The queue is first-in first-out and bounded.  Over a run of fetches
    that all return nil, on an open queue: the queue ends up holding what
    it held followed by the non-empty payloads fetched, in the order of
    the fetches, less the payloads the appliers received in the meantime,
    taken from the front; it is still open, and within its capacity if it
    was. *)
Theorem queue_in_fetch_order (script : list (nat * fetch_env)) :
  forall (w w' : world) (errs : list (option error)),
    closed (prefetchTxBuffer (txr w)) = false ->
    fetch_iterations script w = Ret errs w' ->
    Forall (fun err => err = None) errs ->
    let q := prefetchTxBuffer (txr w) in
    let q' := prefetchTxBuffer (txr w') in
    (received script <= length (buf q ++ payloads script.*2))%nat /\
    buf q' = drop (received script) (buf q ++ payloads script.*2) /\
    closed q' = false /\
    cap q' = cap q /\
    ((length (buf q) <= cap q)%nat -> (length (buf q') <= cap q)%nat).
Proof.
  induction script as [| [n env] rest IH]; intros w w' errs Hopen Hrun Hnil q q'.
  - cbn in Hrun. inversion Hrun; subst. subst q q'. cbn. rewrite app_nil_r.
    repeat split; auto; lia.
  - cbn [fetch_iterations] in Hrun. unfold bind in Hrun.
    destruct (appliers_receive n w) as [[] wa | | |] eqn:Ha; try discriminate Hrun.
    destruct (fetchNextTx env wa) as [err w1 | | |] eqn:Hf; try discriminate Hrun.
    destruct (fetch_iterations rest w1) as [errs' w2 | | |] eqn:Hr; try discriminate Hrun.
    inversion Hrun; subst. clear Hrun.
    inversion Hnil as [| ? ? Herr Hnil']; subst.
    apply (appliers_receive_queue n w wa Hopen) in Ha as (Hn & Hqa).
    apply fetch_nil_queue in Hf. cbn in Hf. rewrite Hqa in Hf. cbn in Hf.
    subst q q'. remember (prefetchTxBuffer (txr w)) as q eqn:Hq.
    remember (prefetchTxBuffer (txr w')) as q' eqn:Hq'.
    assert (H1 : prefetchTxBuffer (txr w1) =
                 chan_with_buf (drop n (buf q) ++
                                (if delivers env then [payload_of env] else [])) q /\
                 (delivers env = true -> (length (drop n (buf q)) < cap q)%nat)).
    { destruct (delivers env).
      - destruct Hf as (Hf & _ & Hlt). split; [exact Hf | intros _; exact Hlt].
      - rewrite Hf, app_nil_r. split; [reflexivity | discriminate]. }
    destruct H1 as (Hq1 & Hlt).
    destruct (IH w1 w' errs') as (I1 & I2 & I3 & I4 & I5);
      [rewrite Hq1; exact Hopen | exact Hr | exact Hnil' |].
    rewrite Hq1 in I1, I2, I4, I5. cbn [buf cap chan_with_buf] in I1, I2, I4, I5.
    rewrite <- Hq' in I2, I3, I4, I5.
    cbn [fmap list_fmap snd received foldr fst]. change (list_fmap _ _ snd rest) with (rest.*2).
    fold (received rest). rewrite payloads_cons.
    set (p := if delivers env then [payload_of env] else []) in *.
    assert (Hdrop : drop n (buf q ++ p ++ payloads rest.*2) =
                    (drop n (buf q) ++ p) ++ payloads rest.*2).
    { rewrite <- app_assoc. apply drop_app_le. exact Hn. }
    split; [| split; [| split; [| split]]].
    + rewrite !length_app in *. rewrite length_drop in I1. lia.
    + rewrite I2, <- Hdrop, drop_drop. reflexivity.
    + exact I3.
    + exact I4.
    + intros Hcap. apply I5. rewrite length_app, length_drop.
      subst p. destruct (delivers env) eqn:Hd; cbn [length].
      * specialize (Hlt eq_refl). rewrite length_drop in Hlt. lia.
      * lia.
Qed.

Lemma queue_in_fetch_order_witness :
  buf (prefetchTxBuffer
         (txr (outcome_world (fetch_iterations SampleRun.script Sample.started)))) =
  [SampleRemote.payload].
Proof.
  destruct (queue_in_fetch_order SampleRun.script Sample.started
              (outcome_world (fetch_iterations SampleRun.script Sample.started))
              [None; None; None] eq_refl)
    as (_ & H & _).
  - vm_compute. reflexivity.
  - repeat constructor.
  - rewrite H. reflexivity.
Defined.

Lemma applier_goroutine_takes script w etx b :
  buf (prefetchTxBuffer (txr w)) = etx :: b ->
  applier_goroutine script w =
    applier_retry script etx 0
      (upd_txr (fun t => set_prefetchTxBuffer (chan_with_buf b (prefetchTxBuffer t)) t) w).
Proof.
  intros Hb. unfold applier_goroutine, bind, chan_recv. rewrite Hb. reflexivity.
Qed.

(** An applier whose [ReplicateTx] calls all succeed applies the queued
    payloads in the order of the queue, one call each; having emptied the
    queue it returns if the queue is closed and waits for more if it is
    open. *)
Theorem applier_replicates_in_queue_order (b : list bytes) :
  forall (rest : list (option error * bool)) (w : world),
    buf (prefetchTxBuffer (txr w)) = b ->
    exists w',
      applier_goroutine (successes (length b) ++ rest) w =
        (if closed (prefetchTxBuffer (txr w)) then Ret tt w' else Parked WaitRecv w') /\
      replicated (trace w') = replicated (trace w) ++ b /\
      buf (prefetchTxBuffer (txr w')) = [] /\
      closed (prefetchTxBuffer (txr w')) = closed (prefetchTxBuffer (txr w)).
Proof.
  induction b as [| etx b IH]; intros rest w Hb.
  - exists w. unfold applier_goroutine, bind, chan_recv. cbn [successes replicate length app].
    rewrite Hb. destruct (closed _); rewrite app_nil_r; auto.
  - cbn [successes replicate length app]. fold (successes (length b)).
    rewrite (applier_goroutine_takes _ w etx b Hb).
    rewrite applier_retry_replicated by reflexivity.
    match goal with |- context [applier_goroutine _ ?w0] =>
      destruct (IH rest w0) as (w' & Hrun & Hr & He & Hc) end; [reflexivity |].
    exists w'. rewrite Hrun. cbn in Hr, Hc |- *.
    split; [reflexivity |]. split; [| split; [exact He | exact Hc]].
    rewrite Hr, replicated_app, <- app_assoc. reflexivity.
Qed.

Lemma applier_replicates_in_queue_order_witness :
  exists w',
    applier_goroutine (successes 2) SampleFull.full = Parked WaitRecv w' /\
    replicated (trace w') = [[Byte.x03]; [Byte.x04]].
Proof.
  destruct (applier_replicates_in_queue_order [[Byte.x03]; [Byte.x04]] []
              SampleFull.full eq_refl) as (w' & H1 & H2 & _).
  exists w'. split; [| exact H2].
  rewrite app_nil_r in H1. exact H1.
Defined.


(** ** Frames of the calls *)

Lemma connect_frame cenv w r w' :
  connect cenv w = Ret r w' ->
  running (txr w') = running (txr w) /\
  mainContext (txr w') = mainContext (txr w) /\
  cancelFunc (txr w') = cancelFunc (txr w) /\
  mutex (txr w') = mutex (txr w) /\
  cancelled w' = cancelled w /\
  next_ctx w' = next_ctx w /\
  match r with
  | Some _ => client (txr w') = client (txr w)
  | None => is_Some (client (txr w')) /\
            ctx_root (clientContext (txr w')) = ctx_root (mainContext (txr w))
  end.
Proof.
  unfold connect, bind, metadata_NewOutgoingContext, panic. break_world w.
  repeat (destruct_match; simp_world); intros H; inversion H; subst; cbn;
    repeat split; eauto.
Qed.

Lemma sync_trailer_txr md allow w o :
  sync_trailer md allow w = o ->
  txr (outcome_world o) = txr w /\ cancelled (outcome_world o) = cancelled w /\
  next_ctx (outcome_world o) = next_ctx w.
Proof.
  intros <-. unfold sync_trailer, bind, panic, call. destruct w as [t cs nx tr]. cbn.
  repeat (destruct_match; cbn); auto.
Qed.

Lemma export_phase_frame st env w0 r w1 :
  export_phase st env w0 = Ret r w1 ->
  running (txr w1) = running (txr w0) /\
  mainContext (txr w1) = mainContext (txr w0) /\
  cancelFunc (txr w1) = cancelFunc (txr w0) /\
  client (txr w1) = client (txr w0) /\
  clientContext (txr w1) = clientContext (txr w0) /\
  consecutiveFailures (txr w1) = consecutiveFailures (txr w0) /\
  mutex (txr w1) = mutex (txr w0) /\
  cancelled w1 = cancelled w0 /\
  next_ctx w1 = next_ctx w0.
Proof.
  unfold export_phase, bind, panic, handoff, chan_send.
  destruct w0 as [t cs nx tr]. destruct t. cbn.
  destruct (lastTx0 =? 0); cbn.
  all: destruct client0 as [c |]; [| discriminate].
  all: destruct (on_ExportTx env) as [s | e];
    [| repeat (destruct_match; cbn); intros H; inversion H; subst; cbn; repeat split].
  all: destruct (_ && _);
    [intros H; inversion H; subst; cbn; repeat split |].
  all: destruct (on_IsSyncReplicationEnabled env);
    [| unfold bind; cbn; repeat (destruct_match; cbn);
       intros H; inversion H; subst; cbn; repeat split].
  all: match goal with |- context [sync_trailer ?md ?a ?w] =>
         destruct (sync_trailer_txr md a w _ eq_refl) as (Ht & Hc & Hn);
         destruct (sync_trailer md a w) as [[e' |] w2 | | |] end;
       cbn in Ht, Hc, Hn |- *; try discriminate.
  all: try (intros H; inversion H; subst; rewrite Ht; cbn; repeat split; assumption).
  all: unfold bind; destruct w2 as [t2 cs2 nx2 tr2]; cbn in Ht, Hc, Hn; subst;
       cbn; repeat (destruct_match; cbn); intros H; inversion H; subst; cbn;
       repeat split.
Qed.

Lemma fetch_frame env w r w' :
  fetchNextTx env w = Ret r w' ->
  mutex (txr w) = false /\
  mutex (txr w') = false /\
  running (txr w') = running (txr w) /\
  mainContext (txr w') = mainContext (txr w) /\
  cancelFunc (txr w') = cancelFunc (txr w) /\
  cancelled w' = cancelled w /\
  next_ctx w' = next_ctx w /\
  ((client (txr w') = client (txr w) /\ clientContext (txr w') = clientContext (txr w)) \/
   (running (txr w) = true /\ client (txr w) = None /\
    (client (txr w') = None \/
     ctx_root (clientContext (txr w')) = ctx_root (mainContext (txr w))))).
Proof.
  intros Hrun.
  destruct (mutex (txr w)) eqn:Hm.
  { unfold fetchNextTx, Lock, bind in Hrun. rewrite Hm in Hrun. discriminate Hrun. }
  destruct (running (txr w)) eqn:Hr.
  2:{ rewrite (fetch_not_running env w Hm Hr) in Hrun. inversion Hrun; subst.
      rewrite Hm, Hr. repeat split. left. split; reflexivity. }
  rewrite (fetch_unfold env w Hm Hr) in Hrun. unfold defer_Unlock, bind in Hrun.
  assert (Hrest : forall w0 r w1,
            match
              (call CurrentState ;;
               match on_CurrentState env with
               | Ok commitState => export_phase commitState env
               | Err e => ret (Some e)
               end) w0
            with
            | Ret a w2 => Ret a (unlock w2)
            | Panic msg w2 => Panic msg (unlock w2)
            | Parked p w2 => Parked p w2
            | More w2 => More w2
            end = Ret r w1 ->
            mutex (txr w1) = false /\ running (txr w1) = running (txr w0) /\
            mainContext (txr w1) = mainContext (txr w0) /\
            cancelFunc (txr w1) = cancelFunc (txr w0) /\
            cancelled w1 = cancelled w0 /\ next_ctx w1 = next_ctx w0 /\
            client (txr w1) = client (txr w0) /\
            clientContext (txr w1) = clientContext (txr w0)).
  { clear. intros w0 r w1. unfold bind, call. cbn.
    destruct (on_CurrentState env) as [st | e].
    - destruct (export_phase st env _) as [a w2 | | |] eqn:Hx; try discriminate.
      apply export_phase_frame in Hx as (H1 & H2 & H3 & H4 & H5 & _ & _ & H8 & H9).
      intros H; inversion H; subst. cbn in *. repeat split; assumption.
    - cbn. intros H; inversion H; subst. cbn. repeat split. }
  destruct (client (txr w)) as [c |] eqn:Hc.
  - cbn [ret] in Hrun. apply Hrest in Hrun as (H1 & H2 & H3 & H4 & H5 & H6 & H7 & H8).
    cbn in *. rewrite Hr in H2. repeat split; try assumption.
    left. split; [congruence | assumption].
  - destruct (connect (on_connect env) (upd_txr (set_mutex true) w))
      as [[e |] w0 | | |] eqn:Hco; try discriminate Hrun.
    + apply connect_frame in Hco as (C1 & C2 & C3 & C4 & C5 & C6 & C7).
      cbn in Hrun. inversion Hrun; subst. cbn in *.
      repeat split; try assumption; try congruence.
      right. repeat split. left. congruence.
    + apply connect_frame in Hco as (C1 & C2 & C3 & C4 & C5 & C6 & C7 & C8).
      apply Hrest in Hrun as (H1 & H2 & H3 & H4 & H5 & H6 & H7 & H8).
      cbn in *. repeat split; try congruence.
      right. repeat split. right. congruence.
Qed.

Lemma handleError_frame err timer_wins w b w' :
  handleError err timer_wins w = Ret b w' ->
  mutex (txr w) = false /\
  mutex (txr w') = false /\
  running (txr w') = running (txr w) /\
  mainContext (txr w') = mainContext (txr w) /\
  cancelFunc (txr w') = cancelFunc (txr w) /\
  clientContext (txr w') = clientContext (txr w) /\
  cancelled w' = cancelled w /\
  next_ctx w' = next_ctx w /\
  (client (txr w') = client (txr w) \/ client (txr w') = None).
Proof.
  unfold handleError, Lock, defer_Unlock, bind, select_Done_or_timer, disconnect, bind.
  destruct w as [t cs nx tr]. destruct t. cbn.
  destruct mutex0; [discriminate |]. simp_world.
  destruct err as [e |]; simp_world;
    [| intros H; inversion H; subst; cbn; repeat split; left; reflexivity].
  destruct mainContext0; simp_world; [discriminate | |];
    (destruct (_ && negb timer_wins); simp_world;
     [intros H; inversion H; subst; cbn; repeat split; left; reflexivity |]);
    (destruct (3 <=? _); simp_world;
     [destruct client0; simp_world |]);
    intros H; inversion H; subst; cbn; repeat split; auto.
Qed.

(** ** The lifecycle invariant *)


























Lemma lifecycle_unlock w : lifecycle w -> lifecycle (unlock w).
Proof. intros H. exact H. Qed.














(** ** The request of a fetch *)

Lemma sync_trailer_events md allow w :
  exists tail,
    trace (outcome_world (sync_trailer md allow w)) = trace w ++ tail /\
    requested tail = [].
Proof.
  unfold sync_trailer, bind, panic, call. destruct w as [t cs nx tr]. cbn.
  repeat (destruct_match; cbn); rewrite <- ?app_assoc;
    first [ eexists; split; [reflexivity |]; reflexivity
          | exists []; split; [symmetry; apply app_nil_r | reflexivity] ].
Qed.

Lemma handoff_events etx w :
  exists tail,
    trace (outcome_world (handoff etx w)) = trace w ++ tail /\
    requested tail = [].
Proof.
  unfold handoff, bind, chan_send. destruct w as [t cs nx tr]. destruct t. cbn.
  repeat (destruct_match; cbn); rewrite <- ?app_assoc;
    first [ eexists; split; [reflexivity |]; reflexivity
          | exists []; split; [symmetry; apply app_nil_r | reflexivity] ].
Qed.

Lemma export_phase_events st env w0 c :
  client (txr w0) = Some c ->
  exists tail,
    trace (outcome_world (export_phase st env w0)) =
      trace (exported c st env w0) ++ tail /\
    requested tail = [].
Proof.
  intros Hc.
  destruct (on_ExportTx env) as [s | e] eqn:He.
  - destruct (decide (ReadFully_err s = None \/ ReadFully_err s = Some io_EOF))
      as [Hread | Hread].
    + rewrite (export_stream st env w0 c s Hc He Hread). unfold bind.
      destruct (on_IsSyncReplicationEnabled env).
      * destruct (sync_trailer_events (Trailer s) (on_AllowCommitUpto env)
                    (exported c st env w0)) as (t1 & Ht1 & Hq1).
        destruct (sync_trailer _ _ _) as [[e' |] w1 | | |];
          cbn [outcome_world ret] in Ht1 |- *; try (exists t1; split; assumption).
        destruct (handoff_events (ReadFully_etx s) w1) as (t2 & Ht2 & Hq2).
        exists (t1 ++ t2). rewrite Ht2, Ht1, <- app_assoc. split; [reflexivity |].
        rewrite requested_app, Hq1, Hq2. reflexivity.
      * cbn [ret]. apply handoff_events.
    + destruct (ReadFully_err s) as [e |] eqn:Hr; [| tauto].
      destruct (decide (e = io_EOF)) as [-> | Hne]; [tauto |].
      rewrite (export_read_error st env w0 c s e Hc He Hr Hne).
      exists []. split; [symmetry; apply app_nil_r | reflexivity].
  - destruct (strings_Contains (Error e) commit_diverged) eqn:Hd.
    { rewrite (export_commit_diverged st env w0 c e Hc He Hd).
      eexists. split; reflexivity. }
    destruct (strings_Contains (Error e) precommit_diverged) eqn:Hp.
    + destruct (allowTxDiscarding (txr w0)) eqn:Ha.
      * rewrite (export_precommit_diverged st env w0 c e Hc He Hd Hp Ha).
        eexists. split; [reflexivity |].
        destruct (on_DiscardPrecommittedTxsSince env); reflexivity.
      * rewrite (export_precommit_fatal st env w0 c e Hc He Hd Hp Ha).
        eexists. split; reflexivity.
    + rewrite (export_other_error st env w0 c e Hc He Hd Hp).
      exists []. split; [symmetry; apply app_nil_r | reflexivity].
Qed.

(** A fetch that has sampled the local state makes exactly one [ExportTx]
    call, however it ends.  The request asks for the tx after the
    position; in sync mode it carries the sampled state, committed and
    precommitted, under the replicator's uuid and allows precommitted
    txs; otherwise it carries no follower state and allows none. *)
Theorem one_request_per_fetch (env : fetch_env) (w : world) (st : ImmutableState) :
  can_fetch env w st ->
  let sync := on_IsSyncReplicationEnabled env in
  exists c ctx pre tail,
    trace (outcome_world (fetchNextTx env w)) =
      trace w ++ pre ++
      ExportTx c ctx
        {| Tx := u64 (position w st + 1);
           ReqFollowerState :=
             if sync then
               Some {| UUID := uuid (txr w);
                       CommittedTxID := TxId st;
                       CommittedAlh := TxHash st;
                       PrecommittedTxID := PrecommittedTxId st;
                       PrecommittedAlh := PrecommittedTxHash st |}
             else None;
           AllowPreCommitted := sync |} :: tail /\
    requested pre = [] /\
    requested tail = [].
Proof.
  intros Hcan sync.
  destruct Hcan as (Hm & Hr & Hctx & Hconn & Hs).
  rewrite (fetch_unfold env w Hm Hr). unfold defer_Unlock, bind.
  destruct (client (txr w)) as [c |] eqn:Hc.
  - cbn [ret]. unfold call at 1. cbn. rewrite Hs.
    match goal with |- context [export_phase st env ?w0] =>
      destruct (export_phase_events st env w0 c Hc) as (tail & Ht & Hq);
      destruct (export_phase st env w0) end;
      cbn [outcome_world unlock trace] in Ht |- *; rewrite Ht;
      exists c, (clientContext (txr w)), [CurrentState], tail;
      (split; [unfold exported, request, position, emit; cbn;
               rewrite <- !app_assoc; reflexivity
              | split; [reflexivity | exact Hq]]).
  - destruct (Hconn eq_refl) as ([c Hn] & [t1 Hl] & [t2 Hu]).
    rewrite (connect_accepted (on_connect env) (upd_txr (set_mutex true) w) c t1 t2
               Hctx Hn Hl Hu).
    unfold call at 1. cbn. rewrite Hs.
    match goal with |- context [export_phase st env ?w0] =>
      destruct (export_phase_events st env w0 c eq_refl) as (tail & Ht & Hq);
      destruct (export_phase st env w0) end;
      cbn [outcome_world unlock trace] in Ht |- *; rewrite Ht;
      eexists c, _, (_ :: _ :: _ :: _ :: _ :: [CurrentState]), tail;
      (split; [unfold exported, request, position, emit; cbn;
               rewrite <- !app_assoc; reflexivity
              | split; [reflexivity | exact Hq]]).
Qed.

Lemma one_request_per_fetch_witness :
  requested (trace (outcome_world (fetchNextTx SampleRun.hint_fetch Sample.started))) = [6].
Proof.
  destruct (one_request_per_fetch SampleRun.hint_fetch Sample.started
              SampleRemote.state_3_5 (sample_can_fetch _ _))
    as (c & ctx & pre & tail & Ht & Hp & Hq).
  rewrite Ht, !requested_app, Hp. cbn [app].
  change (requested (?e :: tail)) with (requested [e] ++ requested tail).
  rewrite Hq. reflexivity.
Defined.

(** ** The hash handed to the local store *)

Lemma fetch_allow_commits env w st s v a vs al id :
  can_fetch env w st ->
  on_ExportTx env = Ok s ->
  ReadFully_err s = None \/ ReadFully_err s = Some io_EOF ->
  on_IsSyncReplicationEnabled env = true ->
  md_Get (Trailer s) txid_key = v :: vs ->
  md_Get (Trailer s) alh_key = a :: al ->
  BigEndian_Uint64 v = Some id ->
  0 < id ->
  allow_commits (trace (outcome_world (fetchNextTx env w))) =
    allow_commits (trace w) ++ [(id, copy_alh a)].
Proof.
  intros Hcan He Hread Hsync Hv Ha Hid Hpos.
  destruct (fetch_reaches_export env w st Hcan) as (w0 & Hent & Hf).
  pose proof Hent as (_ & [c Hc] & _).
  destruct (entered_silent _ _ Hent) as (_ & Hq & _).
  pose proof (export_stream st env w0 c s Hc He Hread) as Hx.
  rewrite Hsync in Hx. unfold bind in Hx.
  rewrite (sync_trailer_present _ _ _ v vs a al id Hv Ha Hid) in Hx.
  assert (Hlt : (0 <? id) = true) by (apply Z.ltb_lt; exact Hpos).
  rewrite Hlt in Hx.
  assert (Hq0 : allow_commits (trace (exported c st env w0)) = allow_commits (trace w)).
  { cbn. rewrite allow_commits_app, Hq. cbn. apply app_nil_r. }
  rewrite Hf. unfold defer_Unlock. rewrite Hx. clear Hx Hf.
  destruct (on_AllowCommitUpto env) as [e |].
  - destruct (strings_Contains _ _); cbn [outcome_world unlock emit trace ret];
      rewrite allow_commits_app, Hq0; reflexivity.
  - match goal with |- context [handoff ?x ?y] =>
      destruct (handoff_silent x y) as (Hh & _); destruct (handoff x y) end;
      cbn [outcome_world unlock emit trace ret] in Hh |- *;
      rewrite Hh, allow_commits_app, Hq0; reflexivity.
Qed.

(** The hash handed to [AllowCommitUpto] always has 32 bytes, whatever the
    master sent: a shorter trailer value is filled up with zero bytes, a
    longer one is cut after its first 32 bytes. *)
Theorem trailer_hash_is_fitted (env : fetch_env) (w : world) (st : ImmutableState)
    (s : ExportTxStream) (v a : bytes) (vs al : list bytes) (id : Z) :
  can_fetch env w st ->
  on_ExportTx env = Ok s ->
  ReadFully_err s = None \/ ReadFully_err s = Some io_EOF ->
  on_IsSyncReplicationEnabled env = true ->
  md_Get (Trailer s) txid_key = v :: vs ->
  md_Get (Trailer s) alh_key = a :: al ->
  BigEndian_Uint64 v = Some id ->
  0 < id ->
  exists alh,
    allow_commits (trace (outcome_world (fetchNextTx env w))) =
      allow_commits (trace w) ++ [(id, alh)] /\
    length alh = 32%nat /\
    ((length a <= 32)%nat -> alh = a ++ replicate (32 - length a) Byte.x00) /\
    ((32 <= length a)%nat -> alh = take 32 a).
Proof.
  intros Hcan He Hread Hsync Hv Ha Hid Hpos.
  exists (copy_alh a).
  split; [apply (fetch_allow_commits env w st s v a vs al id); assumption |].
  split; [apply copy_alh_length |].
  unfold copy_alh, sha256_Size. split; intros Hlen.
  - rewrite take_app_ge by exact Hlen. rewrite take_replicate. f_equal. f_equal. lia.
  - rewrite take_app_le by exact Hlen. reflexivity.
Qed.

Lemma trailer_hash_is_fitted_witness :
  allow_commits
    (trace (outcome_world
              (fetchNextTx (SampleRemote.answers SampleRemote.accepts true
                              (SampleRemote.stream [] SampleHash.short_alh))
                 Sample.started))) =
  [(10, [Byte.xab; Byte.xcd] ++ replicate 30 Byte.x00)].
Proof.
  destruct (trailer_hash_is_fitted
              (SampleRemote.answers SampleRemote.accepts true
                 (SampleRemote.stream [] SampleHash.short_alh))
              Sample.started SampleRemote.state_3_5
              {| ReadFully_etx := []; ReadFully_err := None;
                 Trailer := SampleHash.short_alh |}
              SampleTrailer.txid_10 [Byte.xab; Byte.xcd] [] [] 10
              (sample_can_fetch _ _) eq_refl (or_introl eq_refl) eq_refl
              ltac:(vm_compute; reflexivity) ltac:(vm_compute; reflexivity)
              ltac:(vm_compute; reflexivity) ltac:(lia))
    as (alh & H & _ & Hshort & _).
  rewrite H, Hshort by (cbn; lia). reflexivity.
Defined.

(** ** Cancellation during the supervisor's backoff *)




(** ** Failures that are not consecutive *)

(** A fetch that returns nil resets the failure counter, whatever it was:
    the two failed fetches that follow it keep the session, where a third
    failure in a row would have dropped it. *)
Theorem success_resets_failure_count (env env1 env2 : fetch_env) (e1 e2 : error)
    (t t1 t2 : bool) (w w1 : world) (c : ImmuClient) :
  fetchNextTx env w = Ret None w1 ->
  client (txr w) = Some c ->
  mainContext (txr w) <> ctx_nil ->
  ctx_done (cancelled w) (mainContext (txr w)) = false ->
  fails_with env1 e1 -> fails_with env2 e2 ->
  exists w',
    (forall rest,
       fetcher_goroutine ((env, t) :: rest) w =
       fetcher_goroutine rest (upd_txr (set_consecutiveFailures 0) w1)) /\
    (forall rest,
       fetcher_goroutine ((env, t) :: (env1, t1) :: (env2, t2) :: rest) w =
       fetcher_goroutine rest w') /\
    client (txr w') = Some c /\
    consecutiveFailures (txr w') = 2 /\
    disconnects (trace w') = disconnects (trace w1).
Proof.
  intros Hf Hc Hctx Hlive F1 F2.
  pose proof (fetch_frame env w None w1 Hf)
    as (Hm & Hm1 & Hr1 & Hx1 & _ & Hcs1 & _ & Hcl).
  assert (Hr : running (txr w) = true).
  { destruct (running (txr w)) eqn:Hr; [reflexivity |].
    rewrite (fetch_not_running env w Hm Hr) in Hf. discriminate Hf. }
  assert (Hc1 : client (txr w1) = Some c).
  { destruct Hcl as [(Hcl & _) | (_ & Hn & _)]; congruence. }
  assert (G0 : forall rest,
             fetcher_goroutine ((env, t) :: rest) w =
             fetcher_goroutine rest (upd_txr (set_consecutiveFailures 0) w1)).
  { intros rest. rewrite (fetcher_goroutine_step _ _ _ _ _ _ Hf). cbn. unfold bind.
    rewrite (handleError_nil t w1 Hm1). reflexivity. }
  set (wr := upd_txr (set_consecutiveFailures 0) w1) in *.
  assert (Hmr : mutex (txr wr) = false) by exact Hm1.
  assert (Hrr : running (txr wr) = true) by (cbn; congruence).
  assert (Hxr : mainContext (txr wr) <> ctx_nil) by (cbn; congruence).
  assert (Hlr : ctx_done (cancelled wr) (mainContext (txr wr)) = false)
    by (cbn; rewrite Hx1, Hcs1; exact Hlive).
  assert (Hcr : client (txr wr) = Some c) by exact Hc1.
  destruct (failing_iteration env1 e1 t1 wr c Hmr Hrr Hxr Hlr Hcr F1) as
    (wa & Ga & Hma & Hra & Hxa & Hcsa & Hna & Hca & Hda); [cbn; lia |].
  cbn in Hna, Hca, Hda. rewrite app_nil_r in Hda.
  assert (Hxa' : mainContext (txr wa) <> ctx_nil) by (rewrite Hxa; exact Hxr).
  assert (Hla : ctx_done (cancelled wa) (mainContext (txr wa)) = false)
    by (rewrite Hxa, Hcsa; exact Hlr).
  destruct (failing_iteration env2 e2 t2 wa c Hma Hra Hxa' Hla Hca F2) as
    (wb & Gb & Hmb & Hrb & Hxb & Hcsb & Hnb & Hcb & Hdb); [rewrite Hna; lia |].
  rewrite Hna in Hnb, Hcb, Hdb. cbn in Hnb, Hcb, Hdb. rewrite app_nil_r in Hdb.
  exists wb. split; [exact G0 |].
  split; [intros rest; rewrite G0, Ga, Gb; reflexivity |].
  split; [exact Hcb |]. split; [exact Hnb |]. rewrite Hdb, Hda. reflexivity.
Qed.

Lemma success_resets_failure_count_witness :
  exists w',
    fetcher_goroutine
      [(SampleRun.payload_fetch, true);
       (SampleRemote.answers SampleRemote.accepts false (Err SampleErrors.unavailable), true);
       (SampleRemote.answers SampleRemote.accepts false (Err SampleErrors.unavailable), true)]
      (upd_txr (set_consecutiveFailures 2)
         (outcome_world (appliers_receive 1 SampleFull.full))) = More w' /\
    client (txr w') = Some 7%nat /\
    consecutiveFailures (txr w') = 2.
Proof.
  assert (F : fails_with (SampleRemote.answers SampleRemote.accepts false
                            (Err SampleErrors.unavailable)) SampleErrors.unavailable).
  { split; [eexists; reflexivity |]. split; [reflexivity |].
    split; [discriminate |]. split; [discriminate |].
    split; vm_compute; reflexivity. }
  destruct (success_resets_failure_count SampleRun.payload_fetch _ _ _ _ true true true
              (upd_txr (set_consecutiveFailures 2)
                 (outcome_world (appliers_receive 1 SampleFull.full)))
              (outcome_world
                 (fetchNextTx SampleRun.payload_fetch
                    (upd_txr (set_consecutiveFailures 2)
                       (outcome_world (appliers_receive 1 SampleFull.full)))))
              7%nat ltac:(vm_compute; reflexivity) eq_refl
              ltac:(vm_compute; discriminate) ltac:(vm_compute; reflexivity) F F)
    as (w' & _ & G & Hc & Hn & _).
  exists w'. split; [apply (G []) |]. split; [exact Hc | exact Hn].
Defined.


(** * Key-value constraints *)

(** [validate] accepts a constraint exactly when something is required
    and [MustExist] and [MustNotExist] are not both set; what it rejects
    it rejects with an error that is [ErrInvalidConstraint]. *)
Theorem KV_validate_accepts_iff (cs : KV.KVConstraints) :
  (KV.validate cs = None <->
   (KV.MustExist cs = true \/ KV.MustNotExist cs = true \/ KV.NotModifiedAfterTX cs <> 0) /\
   ~ (KV.MustExist cs = true /\ KV.MustNotExist cs = true)) /\
  (forall e, KV.validate cs = Some e -> KV.errors_Is e KV.ErrInvalidConstraint = true).
Proof.
  unfold KV.validate. destruct cs as [me mne n]. cbn.
  destruct (Z.eqb_spec n 0) as [Hn | Hn]; destruct me, mne; cbn; (split;
    [ split; [intros H; first [discriminate H | split; [tauto | intros [? ?]; discriminate]]
            | intros [H Hc]; first [reflexivity | exfalso; intuition congruence]]
    | intros e H; first [discriminate H | inversion H; reflexivity] ]).
Qed.

Lemma KV_validate_accepts_iff_witness :
  KV.validate {| KV.MustExist := false; KV.MustNotExist := false; KV.NotModifiedAfterTX := 4 |}
    = None.
Proof.
  apply (KV_validate_accepts_iff
           {| KV.MustExist := false; KV.MustNotExist := false; KV.NotModifiedAfterTX := 4 |}).
  split; [right; right; discriminate | intros [H _]; discriminate H].
Defined.

(** [check] on what the snapshot reports for the key.  An error of the
    snapshot other than key-not-found is passed on, wrapped, whatever the
    constraints.  Otherwise the check passes exactly when: the key exists
    if [MustExist]; it does not if [MustNotExist]; and, when
    [NotModifiedAfterTX] is set, the reported tx is not after it.  A check
    that does not pass fails with an error that is [ErrConstraintFailed]. *)
Theorem KV_check_spec (cs : KV.KVConstraints) (tx : Z) (err : option KV.error) :
  (forall e, err = Some e -> KV.errors_Is e KV.ErrKeyNotFound = false ->
     KV.check cs tx err = Some (KV.Errorf_w "couldn't check KV constraint: " e "")) /\
  ((forall e, err = Some e -> KV.errors_Is e KV.ErrKeyNotFound = true) ->
   (KV.check cs tx err = None <->
    (KV.MustExist cs = true -> err = None) /\
    (KV.MustNotExist cs = true -> err <> None) /\
    (0 < KV.NotModifiedAfterTX cs -> tx <= KV.NotModifiedAfterTX cs)) /\
   (forall e', KV.check cs tx err = Some e' ->
               KV.errors_Is e' KV.ErrConstraintFailed = true)).
Proof.
  destruct cs as [me mne n]. unfold KV.check. cbn. split.
  - intros e -> He. rewrite He. reflexivity.
  - intros Hnf.
    assert (Hcmp : (0 <? n) && (n <? tx) = false <-> (0 < n -> tx <= n)).
    { destruct (Z.ltb_spec 0 n), (Z.ltb_spec n tx); cbn; split; intros; auto;
        first [lia | discriminate | exfalso; lia]. }
    assert (Hfail : forall s e', Some (KV.Errorf_w "" KV.ErrConstraintFailed s) = Some e' ->
                                 KV.errors_Is e' KV.ErrConstraintFailed = true).
    { intros s e' H. inversion H. reflexivity. }
    destruct err as [e |].
    + rewrite (Hnf e eq_refl). cbn. destruct me; cbn.
      * split; [split; [discriminate | intros (H & _); discriminate (H eq_refl)]
               | apply Hfail].
      * destruct ((0 <? n) && (n <? tx)) eqn:Hc.
        -- split; [split; [discriminate |] | apply Hfail].
           intros (_ & _ & H). apply Hcmp in H. discriminate H.
        -- split; [split; [intros _ | reflexivity] | discriminate].
           split; [discriminate |]. split; [discriminate | apply Hcmp; reflexivity].
    + destruct mne; cbn.
      * split; [split; [discriminate | intros (_ & H & _); exfalso; apply (H eq_refl); reflexivity]
               | apply Hfail].
      * destruct ((0 <? n) && (n <? tx)) eqn:Hc.
        -- split; [split; [discriminate |] | apply Hfail].
           intros (_ & _ & H). apply Hcmp in H. discriminate H.
        -- split; [split; [intros _ | reflexivity] | discriminate].
           split; [reflexivity |]. split; [discriminate | apply Hcmp; reflexivity].
Qed.

Lemma KV_check_spec_witness :
  KV.check {| KV.MustExist := false; KV.MustNotExist := true; KV.NotModifiedAfterTX := 7 |}
    0 (Some (KV.Errorf_w "index: " KV.ErrKeyNotFound "")) = None.
Proof.
  destruct (KV_check_spec
              {| KV.MustExist := false; KV.MustNotExist := true; KV.NotModifiedAfterTX := 7 |}
              0 (Some (KV.Errorf_w "index: " KV.ErrKeyNotFound ""))) as (_ & H).
  destruct H as ((_ & H) & _).
  - intros e [= <-]. reflexivity.
  - apply H. split; [discriminate |]. split; [discriminate | lia].
Defined.
